(** * EDEN Boost: mask canvas engine and generation orchestrator

    A shallow embedding of the parts of the application that carry its
    logic, followed by the properties proved about them:

    - [App]          the bounded result history of [src/App.tsx];
    - [MaskCanvas]   the painting surface of
                     [src/components/InpaintingCanvas.tsx]: coordinate
                     mapping, snapshot history with undo and redo, and the
                     thresholded mask export;
    - [AspectRatio]  [getBestAspectRatio] of [src/services/geminiService.ts];
    - [Gemini]       [generateArchitecturalPrompt] of the same file, in its
                     revision with the retry loop;
    - [Service]      the other entry points of that file;
    - [DataUrl]      the data URL split the components and the service
                     share.

    JavaScript numbers are modelled by exact integers ([Z]) where the code
    only handles integers (pixel bytes, milliseconds, indices); by IEEE 754
    doubles ([spec_float] at precision 53) in the aspect-ratio selector,
    whose answer depends on their rounding; and by exact rationals ([Q])
    in the coordinate mapper, whose round trip is stated of the formula.
    Strings are sequences of code units ([string]). *)

From Stdlib Require Import ZArith QArith Qabs String Ascii List Lia Bool.
From Stdlib Require Import DecimalString.
From Stdlib Require Import SpecFloat.
From stdpp Require Import base list.
Import ListNotations.

Open Scope Z_scope.

(** ** JavaScript helpers *)

Module JS.

(** Truthiness of a possibly undefined string: [undefined] and the empty
    string are falsy. *)
Definition truthy (s : option string) : bool :=
  match s with
  | Some EmptyString => false
  | Some _ => true
  | None => false
  end.

(** [a || b] on possibly undefined strings with a string default. *)
Definition or_else (a : option string) (b : string) : string :=
  match a with
  | Some EmptyString => b
  | Some s => s
  | None => b
  end.

(** [hay.includes(needle)]. *)
Fixpoint includes (needle hay : string) : bool :=
  if String.prefix needle hay then true
  else match hay with
       | EmptyString => false
       | String _ rest => includes needle rest
       end.

(** [s.slice(0, n)] and [s.substring(0, n)] for a non-negative literal [n]. *)
Definition slice0 (n : nat) (s : string) : string := String.substring 0 n s.

(** [z.toString()] for an integer. *)
Definition toString (z : Z) : string := NilZero.string_of_int (Z.to_int z).

(** A thrown value, observed by the code through [err.message] and
    [JSON.stringify(err)] only. *)
Record Error := mkError { message : string; json : string }.

(** [new Error(msg)]: an [Error] object has no enumerable own property. *)
Definition newError (msg : string) : Error := mkError msg "{}".

End JS.

(** ** Shared data model ([src/types.ts] and the object built by the service) *)

Record File := mkFile { file_name : string; file_type : string }.

Record UploadedImage := mkUploadedImage {
  file : File;
  previewUrl : string;
  image_id : string;
  width : option Z;
  height : option Z
}.

Record GenerationParams := mkParams {
  lighting : string;
  sunDirection : string;
  weather : string;
  language : string
}.

Record PromptResult := mkPromptResult {
  id : string;
  prompt : string;
  imageData : option string;
  error : option string;
  timestamp : Z
}.

(** ** [src/App.tsx]: result slots and the bounded history *)

Module App.

Inductive Status := idle | analyzing | generating | editing.

Inductive Target := original | styled.

Record State := mkState {
  sketch : list UploadedImage;
  result : option PromptResult;
  styledResult : option PromptResult;
  history : list PromptResult;
  status : Status;
  error_banner : option string;
  editingTarget : option Target
}.

(** The state React starts from: every [useState] initial value. *)
Definition init : State :=
  mkState [] None None [] idle None None.

(** [prev => [r, ...prev].slice(0, 3)], the updater given to [setHistory]
    by all three handlers. *)
Definition pushHistory (r : PromptResult) (prev : list PromptResult)
  : list PromptResult :=
  take 3 (r :: prev).

Section Handlers.

(** The two localized messages the handlers display. *)
Variable errorSketch errorGeneric : string.

(** [handleGenerate], with the outcome of the awaited
    [generateArchitecturalPrompt] call. *)
Definition handleGenerate (outcome : JS.Error + PromptResult) (st : State)
  : State :=
  match sketch st with
  | [] =>
      mkState (sketch st) (result st) (styledResult st) (history st)
              (status st) (Some errorSketch) (editingTarget st)
  | _ :: _ =>
      match outcome with
      | inr generatedResult =>
          mkState (sketch st) (Some generatedResult) None
                  (pushHistory generatedResult (history st))
                  idle None None
      | inl _ =>
          mkState (sketch st) None None (history st)
                  idle (Some errorGeneric) None
      end
  end.

(** [handleMasterStyleClick]: without a source image it falls back to
    [handleGenerate]; otherwise it awaits [applyMasterStyle] and reads the
    clock twice. *)
Definition handleMasterStyleClick (source : Target) (stylePrompt : string)
    (genOutcome : JS.Error + PromptResult)
    (styleOutcome : JS.Error + string) (now_id now_ts : Z) (st : State)
  : State :=
  let sourceResult :=
    match source with original => result st | styled => styledResult st end in
  match sourceResult with
  | Some src =>
      if JS.truthy (imageData src) then
        match styleOutcome with
        | inr styledImageData =>
            let newResult :=
              mkPromptResult (JS.toString now_id)
                ("[MASTER FILTER APPLIED] " ++ prompt src)%string
                (Some styledImageData) None now_ts in
            mkState (sketch st) (result st) (Some newResult)
                    (pushHistory newResult (history st))
                    idle None None
        | inl _ =>
            mkState (sketch st) (result st) (styledResult st) (history st)
                    idle (Some errorGeneric) None
        end
      else handleGenerate genOutcome st
  | None => handleGenerate genOutcome st
  end.

(** [handleApplyEdit], with the outcome of the awaited
    [editArchitecturalImage] call. *)
Definition handleApplyEdit (outcome : JS.Error + string)
    (now_id now_ts : Z) (st : State) : State :=
  let targetResult :=
    match editingTarget st with
    | Some original => result st
    | _ => styledResult st
    end in
  match targetResult with
  | Some tgt =>
      if JS.truthy (imageData tgt) then
        match outcome with
        | inr newImageData =>
            let updatedResult :=
              mkPromptResult (JS.toString now_id) (prompt tgt)
                (Some newImageData) (error tgt) now_ts in
            match editingTarget st with
            | Some original =>
                mkState (sketch st) (Some updatedResult) (styledResult st)
                        (pushHistory updatedResult (history st))
                        idle (error_banner st) None
            | _ =>
                mkState (sketch st) (result st) (Some updatedResult)
                        (pushHistory updatedResult (history st))
                        idle (error_banner st) None
            end
        | inl _ =>
            mkState (sketch st) (result st) (styledResult st) (history st)
                    idle (Some errorGeneric) (editingTarget st)
        end
      else st
  | None => st
  end.

(** One completed user action. *)
Inductive Completion :=
| Generate (outcome : JS.Error + PromptResult)
| ApplyStyle (source : Target) (stylePrompt : string)
    (genOutcome : JS.Error + PromptResult)
    (styleOutcome : JS.Error + string) (now_id now_ts : Z)
| ApplyEdit (outcome : JS.Error + string) (now_id now_ts : Z)
| SetSketch (imgs : list UploadedImage)
| StartEdit (t : Target)
| CancelEdit.

Definition step (st : State) (c : Completion) : State :=
  match c with
  | Generate o => handleGenerate o st
  | ApplyStyle src sp g s n1 n2 => handleMasterStyleClick src sp g s n1 n2 st
  | ApplyEdit o n1 n2 => handleApplyEdit o n1 n2 st
  | SetSketch imgs =>
      mkState imgs (result st) (styledResult st) (history st)
              (status st) (error_banner st) (editingTarget st)
  | StartEdit t =>
      mkState (sketch st) (result st) (styledResult st) (history st)
              (status st) (error_banner st) (Some t)
  | CancelEdit =>
      mkState (sketch st) (result st) (styledResult st) (history st)
              (status st) (error_banner st) None
  end.

Definition run (cs : list Completion) : State := fold_left step cs init.

End Handlers.

End App.

(** ** [src/components/InpaintingCanvas.tsx]: the mask canvas *)

Module MaskCanvas.

(** An [ImageData]: pixel dimensions and the flat RGBA byte array, four
    entries per pixel, rows first.  The canvas bitmap is kept in the same
    form. *)
Record ImageData := mkImageData {
  iw : nat;
  ih : nat;
  pixels : list Z
}.

Definition wf_image (img : ImageData) : Prop :=
  length (pixels img) = (4 * (iw img * ih img))%nat.

(** A bitmap of the given size with every byte zero (transparent black):
    what assigning [canvas.width]/[canvas.height] and [clearRect] over the
    whole surface leave behind. *)
Definition blank (w h : nat) : ImageData :=
  mkImageData w h (repeat 0 (4 * (w * h))%nat).

Definition clearRect (c : ImageData) : ImageData :=
  mkImageData (iw c) (ih c) (map (fun _ => 0) (pixels c)).

(** [ctx.getImageData(0, 0, canvas.width, canvas.height)]: a copy. *)
Definition getImageData (c : ImageData) : ImageData := c.

(** [ctx.putImageData(img, 0, 0)]: the pixels of [img] overwrite the
    canvas where the two overlap; no blending. *)
Definition putImageData (img c : ImageData) : ImageData :=
  mkImageData (iw c) (ih c)
    (imap (fun i old =>
             let p := (i / 4)%nat in
             let k := (i mod 4)%nat in
             let x := (p mod iw c)%nat in
             let y := (p / iw c)%nat in
             if ((x <? iw img) && (y <? ih img))%nat
             then default old (pixels img !! (4 * (y * iw img + x) + k)%nat)
             else old)
          (pixels c)).

(** *** Coordinate mapper (the two assignments at the top of [draw]) *)

Record Rect := mkRect {
  left_ : Q; top_ : Q; rect_width : Q; rect_height : Q
}.

Definition mapX (clientX : Q) (rect : Rect) (c : ImageData) : Q :=
  ((clientX - left_ rect) * (inject_Z (Z.of_nat (iw c)) / rect_width rect))%Q.

Definition mapY (clientY : Q) (rect : Rect) (c : ImageData) : Q :=
  ((clientY - top_ rect) * (inject_Z (Z.of_nat (ih c)) / rect_height rect))%Q.

(** The inverse maps, from bitmap space back to the display. *)
Definition unmapX (x : Q) (rect : Rect) (c : ImageData) : Q :=
  (x / (inject_Z (Z.of_nat (iw c)) / rect_width rect) + left_ rect)%Q.

Definition unmapY (y : Q) (rect : Rect) (c : ImageData) : Q :=
  (y / (inject_Z (Z.of_nat (ih c)) / rect_height rect) + top_ rect)%Q.

(** *** Mask export *)

(** Rounded [c * a / 255]. *)
Definition premul (c a : Z) : Z := (c * a + 127) / 255.

(** [fillRect] in black followed by [drawImage(canvas, 0, 0)] under
    [source-over], read back with [getImageData]: each canvas pixel blended
    over opaque black. *)
Fixpoint drawOverBlack (data : list Z) : list Z :=
  match data with
  | r :: g :: b :: a :: rest =>
      premul r a :: premul g a :: premul b a :: 255 :: drawOverBlack rest
  | _ => []
  end.

(** The loop of [exportMask]:
    [for (i = 0; i < data.length; i += 4) if (data[i] > 20) {...}].
    A trailing group shorter than four entries cannot occur in an
    [ImageData]; stores past the end of a typed array are dropped. *)
Fixpoint thresholdLoop (data : list Z) : list Z :=
  match data with
  | r :: g :: b :: a :: rest =>
      (if 20 <? r then [255; 255; 255; a] else [r; g; b; a])
        ++ thresholdLoop rest
  | r :: rest =>
      if 20 <? r then map (fun _ => 255) (r :: rest) else r :: rest
  | [] => []
  end.

(** [exportMask]: the image handed to [onMaskReady] (PNG and base64
    encoding are lossless and left out). *)
Definition exportMask (c : ImageData) : ImageData :=
  mkImageData (iw c) (ih c) (thresholdLoop (drawOverBlack (pixels c))).

Definition white : list Z := [255; 255; 255; 255].
Definition black : list Z := [0; 0; 0; 255].

(** The four bytes of pixel number [p]. *)
Definition pixelAt (img : ImageData) (p : nat) : list Z :=
  take 4 (drop (4 * p) (pixels img)).

(** *** Component state and handlers *)

Record State := mkState {
  canvas : ImageData;
  pen : option (Q * Q);
  isDrawing : bool;
  brushSize : Z;
  historyStep : nat;
  historyRef : list ImageData;
  maskReady : option ImageData
}.

(** A snapshot fits the canvas when it has its dimensions and a full byte
    array. *)
Definition fits (c img : ImageData) : Prop :=
  iw img = iw c /\ ih img = ih c /\ wf_image img.

(** The invariant of the component: the cursor points into the history,
    every snapshot fits the canvas, and outside a stroke the canvas shows
    the snapshot under the cursor. *)
Definition wf (st : State) : Prop :=
  wf_image (canvas st)
  /\ Forall (fits (canvas st)) (historyRef st)
  /\ exists snap, historyRef st !! historyStep st = Some snap
                  /\ (isDrawing st = false -> canvas st = snap).

Section Handlers.

(** What [lineTo(x, y); stroke()] does to one byte of the bitmap, given
    the current path point, the target, the line width and the byte index.
    Rasterisation belongs to the browser; any function fits. *)
Variable strokeByte : option (Q * Q) -> Q * Q -> Q -> nat -> Z -> Z.

Definition lineToStroke (from : option (Q * Q)) (to : Q * Q) (lw : Q)
    (c : ImageData) : ImageData :=
  mkImageData (iw c) (ih c) (imap (strokeByte from to lw) (pixels c)).

(** [img.onload] of the set-up effect. *)
Definition onload (w h : nat) (st : State) : State :=
  let initialData := getImageData (clearRect (blank w h)) in
  mkState (clearRect (blank w h)) None (isDrawing st) (brushSize st)
          0 [initialData] (maskReady st).

(** [saveHistoryState], including its call of [exportMask]. *)
Definition saveHistoryState (st : State) : State :=
  let currentData := getImageData (canvas st) in
  let newHistory := take (historyStep st + 1) (historyRef st) ++ [currentData] in
  mkState (canvas st) (pen st) (isDrawing st) (brushSize st)
          (length newHistory - 1) newHistory
          (Some (exportMask (canvas st))).

(** The body of [draw] once the [isDrawing] guard has passed. *)
Definition drawBody (clientX clientY : Q) (rect : Rect) (st : State) : State :=
  let x := mapX clientX rect (canvas st) in
  let y := mapY clientY rect (canvas st) in
  let lineWidth :=
    (inject_Z (brushSize st)
     * (inject_Z (Z.of_nat (iw (canvas st))) / rect_width rect))%Q in
  mkState (lineToStroke (pen st) (x, y) lineWidth (canvas st))
          (Some (x, y)) (isDrawing st) (brushSize st)
          (historyStep st) (historyRef st) (maskReady st).

Definition draw (clientX clientY : Q) (rect : Rect) (st : State) : State :=
  if isDrawing st then drawBody clientX clientY rect st else st.

(** [handleMouseDown] / [handleTouchStart]: [beginPath], then
    [startDrawing], whose call of [draw] still sees the [isDrawing] of the
    current render. *)
Definition handleMouseDown (clientX clientY : Q) (rect : Rect) (st : State)
  : State :=
  let st1 := mkState (canvas st) None (isDrawing st) (brushSize st)
                     (historyStep st) (historyRef st) (maskReady st) in
  let st2 := draw clientX clientY rect st1 in
  mkState (canvas st2) (pen st2) true (brushSize st2)
          (historyStep st2) (historyRef st2) (maskReady st2).

Definition stopDrawing (st : State) : State :=
  if isDrawing st then
    saveHistoryState
      (mkState (canvas st) (pen st) false (brushSize st)
               (historyStep st) (historyRef st) (maskReady st))
  else st.

(** Restoring snapshot number [newStep]; [putImageData(undefined, ...)]
    throws before anything is changed. *)
Definition restore (newStep : nat) (st : State) : State :=
  match historyRef st !! newStep with
  | Some snapshot =>
      let c := putImageData snapshot (canvas st) in
      mkState c (pen st) (isDrawing st) (brushSize st)
              newStep (historyRef st) (Some (exportMask c))
  | None => st
  end.

Definition handleUndo (st : State) : State :=
  if (0 <? historyStep st)%nat then restore (historyStep st - 1) st else st.

Definition handleRedo (st : State) : State :=
  if (historyStep st <? length (historyRef st) - 1)%nat
  then restore (historyStep st + 1) st else st.

Definition clearCanvas (st : State) : State :=
  saveHistoryState
    (mkState (clearRect (canvas st)) (pen st) (isDrawing st) (brushSize st)
             (historyStep st) (historyRef st) (maskReady st)).

Definition setBrushSize (b : Z) (st : State) : State :=
  mkState (canvas st) (pen st) (isDrawing st) b
          (historyStep st) (historyRef st) (maskReady st).

Inductive Event :=
| Down (clientX clientY : Q) (rect : Rect)
| Move (clientX clientY : Q) (rect : Rect)
| Up
| Undo
| Redo
| Clear
| Brush (b : Z).

Definition step (st : State) (e : Event) : State :=
  match e with
  | Down x y r => handleMouseDown x y r st
  | Move x y r => draw x y r st
  | Up => stopDrawing st
  | Undo => handleUndo st
  | Redo => handleRedo st
  | Clear => clearCanvas st
  | Brush b => setBrushSize b st
  end.

(** The component once the base image of size [w] by [h] has loaded. *)
Definition mounted (w h : nat) : State :=
  onload w h (mkState (blank 0 0) None false 30 0 [] None).

Definition run (w h : nat) (es : list Event) : State :=
  fold_left step es (mounted w h).

(** A commit as the history stack sees it: the end of a stroke or a
    clear. *)
Definition commit := saveHistoryState.

End Handlers.

End MaskCanvas.

(** ** [getBestAspectRatio]

    JavaScript numbers are IEEE 754 binary64 values.  They are taken here
    as the Standard Library's [spec_float] at precision 53 and maximal
    exponent 1024, whose operations round to nearest, ties to even. *)

Module AspectRatio.

Definition prec : Z := 53.
Definition emax : Z := 1024.

(** The number that an integer is. *)
Definition ofZ (z : Z) : spec_float := binary_normalize prec emax z 0 false.

(** The number a decimal literal denotes: [decimal 1333 1000] is the
    double nearest to 1.333, the correctly rounded quotient of two
    integers that are doubles themselves. *)
Definition decimal (digits scale : Z) : spec_float :=
  SFdiv prec emax (ofZ digits) (ofZ scale).

Record Target := mkTarget { tid : string; val : spec_float }.

(** The [targets] table, with its decimal literals. *)
Definition targets : list Target :=
  [ mkTarget "1:1" (ofZ 1);
    mkTarget "3:4" (decimal 75 100);
    mkTarget "4:3" (decimal 1333 1000);
    mkTarget "9:16" (decimal 5625 10000);
    mkTarget "16:9" (decimal 1777 1000) ].

(** [arr.reduce(f)] without an initial value: the first element seeds the
    accumulator; an empty array is a [TypeError] ([None]). *)
Definition reduce {A} (f : A -> A -> A) (arr : list A) : option A :=
  match arr with
  | [] => None
  | x :: rest => Some (fold_left f rest x)
  end.

(** [!n] for an optional number. *)
Definition falsy (n : option Z) : bool :=
  match n with
  | None => true
  | Some z => z =? 0
  end.

(** An optional number in arithmetic: [undefined] is a NaN there. *)
Definition number (n : option Z) : spec_float :=
  match n with
  | Some z => ofZ z
  | None => S754_nan
  end.

(** [Math.abs(t.val - ratio)]. *)
Definition distance (ratio : spec_float) (t : Target) : spec_float :=
  SFabs (SFsub prec emax (val t) ratio).

Definition closer (ratio : spec_float) (prev curr : Target) : Target :=
  if SFltb (distance ratio curr) (distance ratio prev) then curr else prev.

Definition getBestAspectRatio (width height : option Z) : string :=
  if falsy width || falsy height then "1:1"%string
  else
    let ratio := SFdiv prec emax (number width) (number height) in
    match reduce (closer ratio) targets with
    | Some best => tid best
    | None => EmptyString
    end.

(** [t], listed at position [i] of [l], has no entry of [l] strictly
    nearer to [ratio] than itself, and is strictly nearer than every entry
    listed before it; distances and comparisons as the code computes
    them. *)
Definition firstNearest (ratio : spec_float) (l : list Target) (i : nat)
    (t : Target) : Prop :=
  l !! i = Some t
  /\ (forall j u, l !! j = Some u ->
                  SFltb (distance ratio u) (distance ratio t) = false)
  /\ (forall j u, l !! j = Some u -> (j < i)%nat ->
                  SFltb (distance ratio t) (distance ratio u) = true).

(** The selection as the specification words it: the nearest of the five
    supported ratios, each taken at its own value ([4:3] is four thirds,
    [16:9] is sixteen ninths) and compared in exact arithmetic, the first
    listed winning a tie. *)
Definition supported : list (string * Q) :=
  [ ("1:1", 1); ("3:4", 3 # 4); ("4:3", 4 # 3); ("9:16", 9 # 16);
    ("16:9", 16 # 9) ]%string%Q.

Definition nearerSupported (ratio : Q) (prev curr : string * Q)
  : string * Q :=
  if Qlt_le_dec (Qabs (snd curr - ratio)) (Qabs (snd prev - ratio))
  then curr else prev.

Definition nearestSupported (w h : Z) : string :=
  let ratio := (inject_Z w / inject_Z h)%Q in
  match reduce (nearerSupported ratio) supported with
  | Some best => fst best
  | None => EmptyString
  end.

End AspectRatio.

(** ** [src/services/geminiService.ts]: the generation pipeline *)

Module Gemini.

(** *** Requests and responses of the remote service *)

Inductive Part :=
| InlineData (data mimeType : string)
| Text (text : string).

Record Config := mkConfig {
  imageConfig : option string;           (* [imageConfig.aspectRatio] *)
  safetySettings : list (string * string)
}.

Definition SAFETY_SETTINGS : list (string * string) :=
  [ ("HARM_CATEGORY_HARASSMENT", "BLOCK_NONE");
    ("HARM_CATEGORY_HATE_SPEECH", "BLOCK_NONE");
    ("HARM_CATEGORY_SEXUALLY_EXPLICIT", "BLOCK_NONE");
    ("HARM_CATEGORY_DANGEROUS_CONTENT", "BLOCK_NONE") ]%string.

(** One part of a returned candidate: [p.inlineData] (with its [data]) and
    [p.text], each possibly undefined. *)
Record ResponsePart := mkResponsePart {
  part_inlineData : option (option string);
  part_text : option string
}.

(** A response, as far as the code reads it: [response.text] and
    [response.candidates?.[0]?.content?.parts]. *)
Record Response := mkResponse {
  response_text : option string;
  candidate_parts : option (list ResponsePart)
}.

Inductive Status := analyzing | generating.

(** *** Programs over the outside world

    Every [await] and every other effect of the pipeline is an event the
    environment answers; [Throw] is a JavaScript exception in flight. *)

Inductive Event : Type -> Type :=
| ReadApiKey : Event string
| ResizeImage (f : File) : Event (JS.Error + string)
| GenerateContent (model : string) (parts : list Part) (config : Config)
  : Event (JS.Error + Response)
| Wait (ms : Z) : Event unit
| StatusUpdate (s : Status) : Event unit
| DateNow : Event Z.

Inductive Prog (A : Type) : Type :=
| Ret (a : A)
| Throw (e : JS.Error)
| Vis {X : Type} (ev : Event X) (k : X -> Prog A).

Arguments Ret {A} a.
Arguments Throw {A} e.
Arguments Vis {A X} ev k.

Fixpoint bind {A B} (p : Prog A) (f : A -> Prog B) : Prog B :=
  match p with
  | Ret a => f a
  | Throw e => Throw e
  | Vis ev k => Vis ev (fun x => bind (k x) f)
  end.

(** [try { p } catch (e) { h e }]. *)
Fixpoint catch {A} (p : Prog A) (h : JS.Error -> Prog A) : Prog A :=
  match p with
  | Ret a => Ret a
  | Throw e => h e
  | Vis ev k => Vis ev (fun x => catch (k x) h)
  end.

(** An effect that cannot fail. *)
Definition perform {X} (ev : Event X) : Prog X := Vis ev Ret.

(** [await] of a call that resolves or rejects. *)
Definition await {X} (ev : Event (JS.Error + X)) : Prog X :=
  Vis ev (fun r => match r with inl e => Throw e | inr x => Ret x end).

Notation "'let!' x ':=' p 'in' q" := (bind p (fun x => q))
  (at level 10, x name, p at level 200, q at level 200).
Notation "'do!' p 'in' q" := (bind p (fun _ => q))
  (at level 10, p at level 200, q at level 200).

Fixpoint forEach {A B} (f : A -> Prog B) (l : list A) : Prog (list B) :=
  match l with
  | [] => Ret []
  | a :: rest => let! b := f a in let! bs := forEach f rest in Ret (b :: bs)
  end.

(** *** Running a program

    The environment answers each event knowing everything that happened
    before it; [run] returns the entries the program added and its
    outcome. *)

Inductive Entry : Type :=
| Log {X : Type} (ev : Event X) (answer : X).

Definition Handler := list Entry -> forall X, Event X -> X.

Fixpoint run {A} (h : Handler) (p : Prog A) (past : list Entry)
  : list Entry * (JS.Error + A) :=
  match p with
  | Ret a => ([], inr a)
  | Throw e => ([], inl e)
  | Vis ev k =>
      let x := h past _ ev in
      let '(tr, r) := run h (k x) (past ++ [Log ev x]) in
      (Log ev x :: tr, r)
  end.

(** *** Helpers of the service *)

Definition dq : string := String (ascii_of_nat 34) EmptyString.

Definition getAIClient : Prog unit :=
  let! apiKey := perform ReadApiKey in
  if JS.truthy (Some apiKey) then Ret tt
  else Throw (JS.newError
                "API Key is missing. Please check your environment variables.").

Definition mimeOf (f : File) : string :=
  if String.eqb (file_type f) "image/png" then "image/png" else "image/jpeg".

Definition fileToPart (f : File) : Prog Part :=
  catch (let! base64Data := await (ResizeImage f) in
         Ret (InlineData base64Data (mimeOf f)))
        (fun _ => Throw (JS.newError "Failed to process image.")).

(** *** Failure classification, as the [catch] block of the retry loop
    tests the message *)

Definition isQuota (msg : string) : bool :=
  JS.includes "429" msg || JS.includes "quota" msg
  || JS.includes "RESOURCE_EXHAUSTED" msg.

Definition isOverloaded (msg : string) : bool :=
  JS.includes "503" msg || JS.includes "Overloaded" msg.

Definition isSafety (msg : string) : bool :=
  JS.includes "Safety" msg || JS.includes "block" msg.

Inductive FailureClass :=
| quota_exceeded | overloaded | safety_blocked | fatal_other.

(** The class of a failure message: the tests above in the order in which
    the code consults them (retry eligibility first, wording second). *)
Definition classify (msg : string) : FailureClass :=
  if isQuota msg then quota_exceeded
  else if isOverloaded msg then overloaded
  else if isSafety msg then safety_blocked
  else fatal_other.

Definition quotaMessage : string :=
  "Daily Quota Exceeded. The free tier for Gemini Image generation is currently exhausted or busy. Please try again later.".

Definition safetyMessage : string :=
  "Safety Block. The model refused the request due to safety guidelines. Try a simpler sketch.".

(** The sanitized message stored in [imageGenerationError]. *)
Definition userMessage (msg : string) : string :=
  if isQuota msg then quotaMessage
  else if isSafety msg then safetyMessage
  else ("Generation Failed: " ++ JS.slice0 100 msg ++ "...")%string.

(** *** The retry loop *)

Definition MAX_RETRIES : Z := 3.

Definition textModel : string := "gemini-2.5-flash".
Definition imageModel : string := "gemini-2.5-flash-image".

(** How one iteration leaves the loop body. *)
Inductive Control :=
| Continue
| Break (generatedImageData imageGenerationError : option string).

(** [parts?.find(p => p.inlineData)]. *)
Definition findInline (parts : option (list ResponsePart))
  : option ResponsePart :=
  match parts with
  | Some ps =>
      List.find (fun p => match part_inlineData p with
                          | Some _ => true | None => false end) ps
  | None => None
  end.

(** [parts?.find(p => p.text)?.text]. *)
Definition findText (parts : option (list ResponsePart)) : option string :=
  match parts with
  | Some ps =>
      match List.find (fun p => JS.truthy (part_text p)) ps with
      | Some p => part_text p
      | None => None
      end
  | None => None
  end.

(** [candidate?.inlineData?.data]. *)
Definition inlineDataOf (candidate : option ResponsePart) : option string :=
  match candidate with
  | Some p => match part_inlineData p with
              | Some d => d
              | None => None
              end
  | None => None
  end.

(** [err.message || JSON.stringify(err)]. *)
Definition messageOf (err : JS.Error) : string :=
  JS.or_else (Some (JS.message err)) (JS.json err).

(** The request of every attempt:
    [ai.models.generateContent({model, contents, config})]. *)
Definition imageEvent (imageGenParts : list Part) (aspectRatio : string)
  : Event (JS.Error + Response) :=
  GenerateContent imageModel imageGenParts
    (mkConfig (Some aspectRatio) SAFETY_SETTINGS).

(** [isQuota || isOverloaded]. *)
Definition retriable (msg : string) : bool := isQuota msg || isOverloaded msg.

(** The [try] block of one attempt. *)
Definition attemptOnce (imageGenParts : list Part) (aspectRatio : string)
  : Prog Control :=
  let! imageResponse := await (imageEvent imageGenParts aspectRatio) in
  let candidate := findInline (candidate_parts imageResponse) in
  if JS.truthy (inlineDataOf candidate)
  then Ret (Break (inlineDataOf candidate) None)
  else
    let refusalText := findText (candidate_parts imageResponse) in
    Throw (JS.newError (JS.or_else refusalText "Model returned no image data.")).

(** The [catch] block of one attempt. *)
Definition onAttemptError (attempt : Z) (err : JS.Error) : Prog Control :=
  let msg := messageOf err in
  if retriable msg && (attempt <? MAX_RETRIES)
  then
    let delay := 2000 * attempt in
    do! perform (Wait delay) in Ret Continue
  else Ret (Break None (Some (userMessage msg))).

(** [for (let attempt = 1; attempt <= MAX_RETRIES; attempt++) { ... }],
    over the values [attempt] takes; running off the end leaves both
    variables undefined. *)
Fixpoint retryLoop (attempts : list Z) (imageGenParts : list Part)
    (aspectRatio : string) : Prog (option string * option string) :=
  match attempts with
  | [] => Ret (None, None)
  | attempt :: later =>
      let! c := catch (attemptOnce imageGenParts aspectRatio)
                 (onAttemptError attempt) in
      match c with
      | Continue => retryLoop later imageGenParts aspectRatio
      | Break data err => Ret (data, err)
      end
  end.

(** The values of the loop counter: [1 .. MAX_RETRIES]. *)
Definition attemptNumbers : list Z :=
  map Z.of_nat (seq 1 (Z.to_nat MAX_RETRIES)).

(** *** The pipeline *)

Definition placeholder : string := "Prompt generation failed.".

Definition analysisPrompt (userPrompt : string) (params : GenerationParams)
  : string :=
  ("
      Analyze these inputs for an architectural visualization.
      User Vision: " ++ dq ++ JS.or_else (Some userPrompt) "Not specified" ++ dq ++ "
      Params: " ++ lighting params ++ ", " ++ sunDirection params ++ ", "
     ++ weather params ++ "
      Output ONLY the final descriptive prompt in " ++ language params ++ ".
    ")%string.

Definition imageGenPrompt (masterStylePrompt : option string)
    (optimizedPrompt : string) : string :=
  ("
        Create a photorealistic architectural rendering.
        " ++ (if JS.truthy masterStylePrompt
              then "STYLE: " ++ default EmptyString masterStylePrompt
              else "Style: Photorealistic, 8k, Unreal Engine 5.") ++ "
        DESCRIPTION: " ++ JS.slice0 800 optimizedPrompt ++ "
        CONSTRAINTS: Use sketch geometry strictly. High fidelity.
      ")%string.

(** [if (onStatusUpdate) onStatusUpdate(s)]. *)
Definition notify (onStatusUpdate : bool) (s : Status) : Prog unit :=
  if onStatusUpdate then perform (StatusUpdate s) else Ret tt.

(** Step 1, the body of the first [try]. *)
Definition analyze (sketch : UploadedImage) (context : option UploadedImage)
    (references : list UploadedImage) (params : GenerationParams)
    (userPrompt : string) : Prog string :=
  let! sketchPart := fileToPart (file sketch) in
  let! contextParts := match context with
                  | Some c => let! p := fileToPart (file c) in Ret [p]
                  | None => Ret []
                  end in
  let! refParts := forEach (fun ref => fileToPart (file ref)) references in
  let textParts :=
    [sketchPart] ++ contextParts ++ refParts
      ++ [Text (analysisPrompt userPrompt params)] in
  let! response :=
    await (GenerateContent textModel textParts (mkConfig None SAFETY_SETTINGS)) in
  Ret (JS.or_else (response_text response) placeholder).

(** Step 2, the body of the second [try]. *)
Definition synthesize (sketch : UploadedImage) (onStatusUpdate : bool)
    (masterStylePrompt : option string) (optimizedPrompt : string)
  : Prog (option string * option string) :=
  let! sketchPart := fileToPart (file sketch) in
  let aspectRatio :=
    AspectRatio.getBestAspectRatio (width sketch) (height sketch) in
  let imageGenParts :=
    [sketchPart; Text (imageGenPrompt masterStylePrompt optimizedPrompt)] in
  do! notify onStatusUpdate generating in
  retryLoop attemptNumbers imageGenParts aspectRatio.

(** The first [try ... catch]: any failure of step 1 is rethrown as an
    analysis failure. *)
Definition analysisStep (sketch : UploadedImage)
    (context : option UploadedImage) (references : list UploadedImage)
    (params : GenerationParams) (userPrompt : string) : Prog string :=
  catch (analyze sketch context references params userPrompt)
        (fun error =>
           Throw (JS.newError
                    ("Analysis failed: "
                     ++ JS.or_else (Some (JS.message error)) "Unknown error"))).

(** The second [try ... catch]: a failure outside the loop is recorded,
    not rethrown. *)
Definition imageStep (sketch : UploadedImage) (onStatusUpdate : bool)
    (masterStylePrompt : option string) (optimizedPrompt : string)
  : Prog (option string * option string) :=
  catch (synthesize sketch onStatusUpdate masterStylePrompt optimizedPrompt)
        (fun setupError =>
           Ret (None,
                Some ("Failed to prepare image data: "
                      ++ JS.message setupError)%string)).

Definition generateArchitecturalPrompt (sketch : UploadedImage)
    (context : option UploadedImage) (references : list UploadedImage)
    (params : GenerationParams) (userPrompt : string)
    (onStatusUpdate : bool) (masterStylePrompt : option string)
  : Prog PromptResult :=
  do! getAIClient in
  do! notify onStatusUpdate analyzing in
  let! optimizedPrompt :=
    analysisStep sketch context references params userPrompt in
  let! image :=
    imageStep sketch onStatusUpdate masterStylePrompt optimizedPrompt in
  let! now_id := perform DateNow in
  let! now_ts := perform DateNow in
  Ret (mkPromptResult (JS.toString now_id) optimizedPrompt
         (fst image) (snd image) now_ts).

(** *** Reading a trace *)

(** The answer to an image-synthesis call, if the entry is one. *)
Definition imageAnswer (e : Entry) : option (JS.Error + Response) :=
  match e with
  | Log ev x =>
      match ev in Event X return X -> option (JS.Error + Response) with
      | GenerateContent model _ _ =>
          fun x => if String.eqb model imageModel then Some x else None
      | _ => fun _ => None
      end x
  end.

(** The answer to a text-analysis call, if the entry is one. *)
Definition textAnswer (e : Entry) : option (JS.Error + Response) :=
  match e with
  | Log ev x =>
      match ev in Event X return X -> option (JS.Error + Response) with
      | GenerateContent model _ _ =>
          fun x => if String.eqb model textModel then Some x else None
      | _ => fun _ => None
      end x
  end.

(** The parts sent with an image-synthesis call, if the entry is one. *)
Definition imageRequest (e : Entry) : option (list Part) :=
  match e with
  | Log (GenerateContent model parts _) _ =>
      if String.eqb model imageModel then Some parts else None
  | Log _ _ => None
  end.

Definition waitOf (e : Entry) : option Z :=
  match e with
  | Log (Wait ms) _ => Some ms
  | Log _ _ => None
  end.

Definition imageAttempts (tr : list Entry) : list (JS.Error + Response) :=
  omap imageAnswer tr.

Definition textCalls (tr : list Entry) : list (JS.Error + Response) :=
  omap textAnswer tr.

Definition imageRequests (tr : list Entry) : list (list Part) :=
  omap imageRequest tr.

Definition waits (tr : list Entry) : list Z := omap waitOf tr.

(** What the retrier is seen doing, entry by entry. *)
Inductive Move := Attempt | Delay (ms : Z) | Other.

Definition moveOf (e : Entry) : Move :=
  match imageAnswer e, waitOf e with
  | Some _, _ => Attempt
  | None, Some ms => Delay ms
  | None, None => Other
  end.

(** An entry that is neither a call of the remote models nor a delay. *)
Definition silent (e : Entry) : Prop :=
  imageAnswer e = None /\ textAnswer e = None
  /\ imageRequest e = None /\ waitOf e = None.

(** The message with which an attempt fails, or [None] when it delivers
    image data. *)
Definition attemptFailure (answer : JS.Error + Response) : option string :=
  match answer with
  | inl err => Some (messageOf err)
  | inr resp =>
      if JS.truthy (inlineDataOf (findInline (candidate_parts resp)))
      then None
      else Some (messageOf
                   (JS.newError (JS.or_else (findText (candidate_parts resp))
                                   "Model returned no image data.")))
  end.

(** The runs of [retryLoop]: over the remaining counter values, the
    entries it adds and the two variables it leaves.  An attempt either
    delivers data, or fails for good, or fails, waits and hands over to the
    next counter value. *)
Inductive LoopRun (parts : list Part) (ar : string)
  : list Z -> list Entry -> option string * option string -> Prop :=
| LoopExhausted : LoopRun parts ar [] [] (None, None)
| LoopSuccess n later ans d :
    attemptFailure ans = None ->
    JS.truthy (Some d) = true ->
    LoopRun parts ar (n :: later)
      [Log (imageEvent parts ar) ans] (Some d, None)
| LoopGiveUp n later ans msg :
    attemptFailure ans = Some msg ->
    retriable msg && (n <? MAX_RETRIES) = false ->
    LoopRun parts ar (n :: later)
      [Log (imageEvent parts ar) ans] (None, Some (userMessage msg))
| LoopRetry n later ans msg u tr out :
    attemptFailure ans = Some msg ->
    retriable msg && (n <? MAX_RETRIES) = true ->
    LoopRun parts ar later tr out ->
    LoopRun parts ar (n :: later)
      (Log (imageEvent parts ar) ans :: Log (Wait (2000 * n)) u :: tr) out.

(** *** A scripted environment

    An environment with a fixed API key, image files that always resize,
    one answer for the text call and an answer for each image attempt by
    its position; and one set of arguments. *)

Definition scripted (apiKey : string) (textAns : JS.Error + Response)
    (imageAns : nat -> JS.Error + Response) : Handler :=
  fun past X ev =>
    match ev in Event X return X with
    | ReadApiKey => apiKey
    | ResizeImage _ => inr "iVBORw0KGgo="%string
    | GenerateContent model _ _ =>
        if String.eqb model textModel then textAns
        else imageAns (length (imageAttempts past))
    | Wait _ => tt
    | StatusUpdate _ => tt
    | DateNow => 1700000000000
    end.

Definition exampleSketch : UploadedImage :=
  mkUploadedImage (mkFile "sketch.png" "image/png") "blob:1" "1"
    (Some 1600) (Some 900).

Definition exampleParams : GenerationParams :=
  mkParams "Sunny" "Top-Left" "Clear" "English".

Definition exampleRun (hd : Handler) : list Entry * (JS.Error + PromptResult) :=
  run hd (generateArchitecturalPrompt exampleSketch None [] exampleParams
            EmptyString true None) [].

End Gemini.

(** ** [src/services/geminiService.ts]: the other entry points *)

Module Service.

Import Gemini.

(** *** [String.prototype.trim]

    White space and line terminators among the code units below 256. *)
Definition isWhiteSpace (c : ascii) : bool :=
  let n := nat_of_ascii c in
  ((n =? 9) || (n =? 10) || (n =? 11) || (n =? 12) || (n =? 13)
   || (n =? 32) || (n =? 160))%nat.

Fixpoint trimStart (s : string) : string :=
  match s with
  | String c rest => if isWhiteSpace c then trimStart rest else s
  | EmptyString => EmptyString
  end.

Definition reverse (s : string) : string :=
  string_of_list_ascii (rev (list_ascii_of_string s)).

Definition trim (s : string) : string :=
  reverse (trimStart (reverse (trimStart s))).

(** *** [optimizeUserPrompt]

    The request's [temperature: 0.7] has no field in [Config] and is left
    out of the event; no safety settings are sent. *)
Definition refineInstruction (inputPrompt language : string) : string :=
  ("Refine this architectural idea into a concise visualization prompt (50 words) in "
   ++ language ++ ". Input: " ++ dq ++ inputPrompt ++ dq)%string.

Definition optimizeUserPrompt (inputPrompt language : string) : Prog string :=
  if negb (JS.truthy (Some (trim inputPrompt))) then Ret EmptyString
  else
    catch (do! getAIClient in
           let! response :=
             await (GenerateContent textModel
                      [Text (refineInstruction inputPrompt language)]
                      (mkConfig None [])) in
           Ret (JS.or_else (option_map trim (response_text response))
                  inputPrompt))
          (fun _ => Ret inputPrompt).

(** *** [applyMasterStyle] and [editArchitecturalImage] *)

(** [response.candidates?.[0]?.content?.parts?.find(p => p.inlineData)
      ?.inlineData?.data]. *)
Definition firstInlineData (response : Response) : option string :=
  inlineDataOf (findInline (candidate_parts response)).

Definition styleInstruction (stylePrompt : string) : string :=
  ("Apply style: " ++ dq ++ stylePrompt ++ dq
   ++ " to this image. Keep geometry. Photorealistic.")%string.

Definition styleParts (currentImageBase64 stylePrompt : string) : list Part :=
  [InlineData currentImageBase64 "image/png";
   Text (styleInstruction stylePrompt)].

Definition applyMasterStyle
    (currentImageBase64 originalPrompt stylePrompt : string) : Prog string :=
  do! getAIClient in
  catch (let! response :=
           await (GenerateContent imageModel
                    (styleParts currentImageBase64 stylePrompt)
                    (mkConfig None SAFETY_SETTINGS)) in
         match firstInlineData response with
         | Some data =>
             if JS.truthy (Some data) then Ret data
             else Throw (JS.newError "No image returned.")
         | None => Throw (JS.newError "No image returned.")
         end)
        (fun error =>
           Throw (JS.newError ("Filter failed: " ++ JS.message error))).

Definition editInstruction (editPrompt : string) : string :=
  ("Edit masked area: " ++ dq ++ editPrompt ++ dq ++ ". Blend seamless.")%string.

Definition editParts (originalImageBase64 maskImageBase64 editPrompt : string)
  : list Part :=
  [InlineData originalImageBase64 "image/png";
   InlineData maskImageBase64 "image/png";
   Text (editInstruction editPrompt)].

Definition editArchitecturalImage
    (originalImageBase64 maskImageBase64 editPrompt : string) : Prog string :=
  do! getAIClient in
  catch (let! response :=
           await (GenerateContent imageModel
                    (editParts originalImageBase64 maskImageBase64 editPrompt)
                    (mkConfig None SAFETY_SETTINGS)) in
         match firstInlineData response with
         | Some data =>
             if JS.truthy (Some data) then Ret data
             else Throw (JS.newError "No edited image returned.")
         | None => Throw (JS.newError "No edited image returned.")
         end)
        (fun error =>
           Throw (JS.newError ("Edit failed: " ++ JS.message error))).

(** *** Reading a trace, continued *)

(** What an entry is, without its payload. *)
Inductive Kind :=
| KKey | KStatus (s : Status) | KResize | KText | KImage
| KWait (ms : Z) | KClock | KOther.

Definition kindOf (e : Entry) : Kind :=
  match e with
  | Log ReadApiKey _ => KKey
  | Log (ResizeImage _) _ => KResize
  | Log (GenerateContent model _ _) _ =>
      if String.eqb model textModel then KText
      else if String.eqb model imageModel then KImage
      else KOther
  | Log (Wait ms) _ => KWait ms
  | Log (StatusUpdate s) _ => KStatus s
  | Log DateNow _ => KClock
  end.

(** The entries of [if (onStatusUpdate) onStatusUpdate(s)]. *)
Definition notified (onStatusUpdate : bool) (s : Status) : list Kind :=
  if onStatusUpdate then [KStatus s] else [].

(** The three courses the retry loop can take. *)
Definition loopShapes : list (list Kind) :=
  [ [KImage];
    [KImage; KWait 2000; KImage];
    [KImage; KWait 2000; KImage; KWait 4000; KImage] ].

(** The parts and configuration sent with an image-model call, if the
    entry is one. *)
Definition imageCallOf (e : Entry) : option (list Part * Config) :=
  match e with
  | Log (GenerateContent model parts config) _ =>
      if String.eqb model imageModel then Some (parts, config) else None
  | Log _ _ => None
  end.

Definition imageCalls (tr : list Entry) : list (list Part * Config) :=
  omap imageCallOf tr.

(** What an answer to an image call delivers:
    [candidate?.inlineData?.data], when there is an answer. *)
Definition deliveredData (answer : JS.Error + Response) : option string :=
  match answer with
  | inl _ => None
  | inr response => firstInlineData response
  end.

(** The error thrown by [getAIClient] when no key is configured. *)
Definition missingKey : JS.Error :=
  JS.newError "API Key is missing. Please check your environment variables.".

(** The number of image files step 1 prepares: the sketch, the context
    image if there is one, and the references. *)
Definition inputs (context : option UploadedImage)
    (references : list UploadedImage) : nat :=
  S (length (option_list context) + length references).

End Service.

(** ** Data URLs

    [dataUrl.split(',')[1]] as [exportMask], [resizeImage] and the first
    revision of [fileToPart] use it, and the
    [`data:image/png;base64,${...}`] template of the components. *)

Module DataUrl.

Definition comma : ascii := ascii_of_nat 44.

(** The text before the first comma. *)
Fixpoint untilComma (s : string) : string :=
  match s with
  | EmptyString => EmptyString
  | String c rest =>
      if Ascii.eqb c comma then EmptyString else String c (untilComma rest)
  end.

(** The text after the first comma, if there is a comma. *)
Fixpoint afterComma (s : string) : option string :=
  match s with
  | EmptyString => None
  | String c rest => if Ascii.eqb c comma then Some rest else afterComma rest
  end.

(** [s.split(',')[1]]: the second field, [undefined] without a comma. *)
Definition splitSecond (s : string) : option string :=
  option_map untilComma (afterComma s).

(** [`data:image/png;base64,${payload}`]. *)
Definition pngDataUrl (payload : string) : string :=
  ("data:image/png;base64," ++ payload)%string.

(** The [onloadend] handler of the first revision of [fileToPart], on the
    reader's result ([None] for a null result) and the file's type: the
    promise rejects or resolves with an inline part. *)
Definition fileToPart_v1 (result : option string) (fileType : string)
  : JS.Error + Gemini.Part :=
  match result with
  | Some base64String =>
      if negb (JS.truthy (Some base64String))
         || negb (JS.includes "," base64String)
      then inl (JS.newError "Failed to process image file.")
      else
        match splitSecond base64String with
        | Some base64Data => inr (Gemini.InlineData base64Data fileType)
        | None => (* no second field: excluded by the test above *)
            inl (JS.newError "Failed to process image file.")
        end
  | None => inl (JS.newError "Failed to process image file.")
  end.

End DataUrl.

(** * Properties *)

(** ** The result history *)

Section HistoryFacts.

Variable errorSketch errorGeneric : string.

Abbreviation step := (App.step errorSketch errorGeneric).
Abbreviation run := (App.run errorSketch errorGeneric).

Lemma pushHistory_cons (r : PromptResult) (prev : list PromptResult) :
  App.pushHistory r prev = r :: take 2 prev.
Proof. reflexivity. Qed.

Lemma pushHistory_length (r : PromptResult) (prev : list PromptResult) :
  (length (App.pushHistory r prev) <= 3)%nat.
Proof. unfold App.pushHistory. rewrite length_take. lia. Qed.

(** Each handler leaves the history alone or pushes the result it also
    stores in one of the two result slots. *)
Lemma step_history (st : App.State) (c : App.Completion) :
  App.history (step st c) = App.history st
  \/ exists r, App.history (step st c) = App.pushHistory r (App.history st)
               /\ (App.result (step st c) = Some r
                   \/ App.styledResult (step st c) = Some r).
Proof.
  assert (Hgen : forall o,
    App.history (App.handleGenerate errorSketch errorGeneric o st)
      = App.history st
    \/ exists r,
        App.history (App.handleGenerate errorSketch errorGeneric o st)
          = App.pushHistory r (App.history st)
        /\ (App.result (App.handleGenerate errorSketch errorGeneric o st)
              = Some r
            \/ App.styledResult
                 (App.handleGenerate errorSketch errorGeneric o st) = Some r)).
  { intros o. unfold App.handleGenerate.
    destruct (App.sketch st); [now left|].
    destruct o as [e|r]; [now left|]. right. exists r. simpl. auto. }
  destruct c as [o|src sp g s n1 n2|o n1 n2|imgs|t|]; simpl;
    try (now left).
  - apply Hgen.
  - unfold App.handleMasterStyleClick.
    destruct (match src with
              | App.original => App.result st
              | App.styled => App.styledResult st
              end) as [r0|]; [|apply Hgen].
    destruct (JS.truthy (imageData r0)); [|apply Hgen].
    destruct s as [e|img]; [now left|].
    right. eexists. simpl. split; [reflexivity|now right].
  - unfold App.handleApplyEdit.
    destruct (App.editingTarget st) as [[|]|];
      match goal with
      | |- context [match ?x with Some _ => _ | None => st end] =>
          destruct x as [tgt|]; [|now left]
      end;
      (destruct (JS.truthy (imageData tgt)); [|now left]);
      (destruct o as [e|img]; [now left|]);
      right; eexists; simpl; (split; [reflexivity|auto]).
Qed.

Lemma run_history_bounded (cs : list App.Completion) :
  (length (App.history (run cs)) <= 3)%nat.
Proof.
  unfold App.run. induction cs as [|c cs IH] using rev_ind.
  - simpl. lia.
  - rewrite fold_left_app. simpl.
    destruct (step_history (fold_left step cs App.init) c) as [E|(r & E & _)];
      rewrite E; [exact IH|apply pushHistory_length].
Qed.

End HistoryFacts.

(** C6. Whatever sequence of generate, style and edit completions has run,
    and whatever completes next: the history holds at most three entries;
    the completion either leaves it untouched or puts its new result in
    front of the two most recent earlier ones, so the order is newest
    first; a generation that succeeds with a sketch present, a style
    application that succeeds on a source with an image (or falls back to
    a successful generation), and an edit that succeeds on a target with
    an image each do put the result they made in front; and on a full
    history that drops the last, oldest entry. *)
Theorem history_capped_newest_first
    (errorSketch errorGeneric : string)
    (cs : list App.Completion) (c : App.Completion) :
  let st := App.run errorSketch errorGeneric cs in
  let st' := App.step errorSketch errorGeneric st c in
  (length (App.history st') <= 3)%nat
  /\ (App.history st' = App.history st
      \/ exists r, App.history st' = r :: take 2 (App.history st)
                   /\ (App.result st' = Some r
                       \/ App.styledResult st' = Some r))
  /\ (forall r,
         c = App.Generate (inr r) -> App.sketch st <> [] ->
         App.history st' = r :: take 2 (App.history st)
         /\ App.result st' = Some r)
  /\ (forall source stylePrompt g d now_id now_ts src,
         c = App.ApplyStyle source stylePrompt g (inr d) now_id now_ts ->
         match source with
         | App.original => App.result st
         | App.styled => App.styledResult st
         end = Some src ->
         JS.truthy (imageData src) = true ->
         let r := mkPromptResult (JS.toString now_id)
                    ("[MASTER FILTER APPLIED] " ++ prompt src)%string
                    (Some d) None now_ts in
         App.history st' = r :: take 2 (App.history st)
         /\ App.styledResult st' = Some r)
  /\ (forall source stylePrompt r s now_id now_ts,
         c = App.ApplyStyle source stylePrompt (inr r) s now_id now_ts ->
         match match source with
               | App.original => App.result st
               | App.styled => App.styledResult st
               end with
         | Some src => JS.truthy (imageData src) = false
         | None => True
         end ->
         App.sketch st <> [] ->
         App.history st' = r :: take 2 (App.history st)
         /\ App.result st' = Some r)
  /\ (forall d now_id now_ts tgt,
         c = App.ApplyEdit (inr d) now_id now_ts ->
         match App.editingTarget st with
         | Some App.original => App.result st
         | _ => App.styledResult st
         end = Some tgt ->
         JS.truthy (imageData tgt) = true ->
         let r := mkPromptResult (JS.toString now_id) (prompt tgt)
                    (Some d) (error tgt) now_ts in
         App.history st' = r :: take 2 (App.history st)
         /\ (App.result st' = Some r \/ App.styledResult st' = Some r))
  /\ (forall r1 r2 r3,
         App.history st = [r1; r2; r3] ->
         App.history st' = [r1; r2; r3]
         \/ exists r, App.history st' = [r; r1; r2])
  /\ (forall r r1 r2 r3 : PromptResult,
         App.pushHistory r [r1; r2; r3] = [r; r1; r2]).
Proof.
  intros st st'.
  assert (Hgen : forall r,
            App.sketch st <> [] ->
            App.history (App.handleGenerate errorSketch errorGeneric
                           (inr r) st)
            = r :: take 2 (App.history st)
            /\ App.result (App.handleGenerate errorSketch errorGeneric
                             (inr r) st) = Some r).
  { intros r Hs. unfold App.handleGenerate.
    destruct (App.sketch st); [congruence|now split]. }
  split; [|split; [|split; [|split; [|split; [|split; [|split]]]]]].
  - destruct (step_history errorSketch errorGeneric st c)
      as [E|(r & E & _)]; subst st'; rewrite E.
    + apply run_history_bounded.
    + apply pushHistory_length.
  - destruct (step_history errorSketch errorGeneric st c)
      as [E|(r & E & Hslot)]; [now left|].
    right. exists r. now rewrite <- pushHistory_cons.
  - intros r -> Hs. subst st'. cbn [App.step]. now apply Hgen.
  - intros source stylePrompt g d now_id now_ts src -> Hsrc Himg r.
    subst st' r. cbn [App.step]. unfold App.handleMasterStyleClick.
    rewrite Hsrc, Himg. now split.
  - intros source stylePrompt r s now_id now_ts -> Hsrc Hs.
    subst st'. cbn [App.step]. unfold App.handleMasterStyleClick.
    destruct (match source with
              | App.original => App.result st
              | App.styled => App.styledResult st
              end) as [src|]; [rewrite Hsrc|]; now apply Hgen.
  - intros d now_id now_ts tgt -> Htgt Himg r.
    subst st' r. cbn [App.step]. unfold App.handleApplyEdit.
    rewrite Htgt, Himg.
    destruct (App.editingTarget st) as [[|]|]; cbn; auto.
  - intros r1 r2 r3 Hfull.
    destruct (step_history errorSketch errorGeneric st c)
      as [E|(r & E & _)]; subst st'; rewrite E, Hfull; [now left|].
    right. now exists r.
  - reflexivity.
Qed.

(** Four generations with a sketch in place: the fourth result goes in
    front and the first is dropped. *)
Lemma history_capped_newest_first_witness :
  let r := fun n : Z => mkPromptResult (JS.toString n) "prompt" None None n in
  let cs := [App.SetSketch [Gemini.exampleSketch];
             App.Generate (inr (r 1)); App.Generate (inr (r 2));
             App.Generate (inr (r 3))] in
  let st := App.run "no sketch" "failed" cs in
  App.history st = [r 3; r 2; r 1]
  /\ App.history (App.step "no sketch" "failed" st (App.Generate (inr (r 4))))
     = [r 4; r 3; r 2].
Proof.
  intros r cs st. split; [reflexivity|].
  destruct (history_capped_newest_first "no sketch" "failed" cs
              (App.Generate (inr (r 4))))
    as (_ & _ & Hgen & _).
  destruct (Hgen (r 4) eq_refl) as (E & _); [discriminate|].
  exact E.
Defined.

(** ** The aspect-ratio selector *)

Section DoubleFacts.

Import AspectRatio.

(** *** The order of absolute values *)

Ltac order_cases :=
  unfold SFltb, SFcompare; cbn [SFabs];
  repeat match goal with
    | |- context [Z.compare ?a ?b] =>
        destruct (Z.compare_spec a b); subst; cbn
    | H : context [Z.compare ?a ?b] |- _ =>
        destruct (Z.compare_spec a b); subst; cbn in H
    | |- context [Pos.compare_cont Eq ?a ?b] =>
        change (Pos.compare_cont Eq a b) with (Pos.compare a b);
        destruct (Pos.compare_spec a b); subst; cbn
    | H : context [Pos.compare_cont Eq ?a ?b] |- _ =>
        change (Pos.compare_cont Eq a b) with (Pos.compare a b) in H;
        destruct (Pos.compare_spec a b); subst; cbn in H
    end;
  try reflexivity; try discriminate; try congruence; try lia.

Lemma abs_ltb_irrefl (a : spec_float) : SFltb (SFabs a) (SFabs a) = false.
Proof. destruct a; order_cases. Qed.

Lemma abs_ltb_trans (a b c : spec_float) :
  SFltb (SFabs a) (SFabs b) = true -> SFltb (SFabs b) (SFabs c) = true ->
  SFltb (SFabs a) (SFabs c) = true.
Proof. destruct a, b, c; intros H1 H2; revert H1 H2; order_cases. Qed.

Lemma abs_ltb_total (a b c : spec_float) :
  SFltb (SFabs a) (SFabs c) = true -> SFltb (SFabs b) (SFabs c) = false ->
  SFabs b <> S754_nan ->
  SFltb (SFabs a) (SFabs b) = true.
Proof.
  destruct a, b, c; intros H1 H2 H3; revert H1 H2 H3; order_cases;
    intros; order_cases.
Qed.


(** *** Rounding never makes a NaN *)

Lemma iter_pos_keeps {A} (P : A -> Prop) (f : A -> A) :
  (forall x, P x -> P (f x)) ->
  forall n x, P x -> P (SpecFloat.iter_pos f n x).
Proof.
  intros Hf. induction n as [n IH|n IH|]; intros x Hx; cbn; auto.
Qed.

Lemma shr_1_nonneg (mrs : shr_record) :
  0 <= shr_m mrs -> 0 <= shr_m (shr_1 mrs).
Proof.
  destruct mrs as [m r s]. cbn [shr_m]. intros Hm.
  destruct m as [|[p|p|]|p]; cbn; lia.
Qed.

Lemma shr_nonneg (mrs : shr_record) (e n : Z) :
  0 <= shr_m mrs -> 0 <= shr_m (fst (shr mrs e n)).
Proof.
  intros Hm. destruct n as [|p|p]; cbn; try exact Hm.
  apply (iter_pos_keeps (fun x => 0 <= shr_m x)); [|exact Hm].
  exact shr_1_nonneg.
Qed.

Lemma shr_fexp_nonneg (m e : Z) (l : location) :
  0 <= m -> 0 <= shr_m (fst (shr_fexp prec emax m e l)).
Proof.
  intros Hm. unfold shr_fexp. apply shr_nonneg.
  destruct l as [|[| |]]; exact Hm.
Qed.

Lemma round_nearest_even_nonneg (m : Z) (l : location) :
  0 <= m -> 0 <= round_nearest_even m l.
Proof.
  intros Hm. destruct l as [|[| |]]; cbn; try lia.
  destruct (Z.even m); lia.
Qed.

Lemma binary_round_aux_not_nan (sx : bool) (mx ex : Z) (lx : location) :
  0 <= mx -> binary_round_aux prec emax sx mx ex lx <> S754_nan.
Proof.
  intros Hm. unfold binary_round_aux.
  pose proof (shr_fexp_nonneg mx ex lx Hm) as H1.
  destruct (shr_fexp prec emax mx ex lx) as [mrs' e']. cbn [fst] in H1.
  pose proof (shr_fexp_nonneg
                (round_nearest_even (shr_m mrs') (loc_of_shr_record mrs'))
                e' loc_Exact
                (round_nearest_even_nonneg _ _ H1)) as H2.
  destruct (shr_fexp prec emax _ e' loc_Exact) as [mrs'' e''].
  cbn [fst] in H2.
  destruct (shr_m mrs'') as [|p|p]; [discriminate| |lia].
  destruct (e'' <=? emax - prec); discriminate.
Qed.

Lemma binary_normalize_not_nan (m e : Z) (szero : bool) :
  binary_normalize prec emax m e szero <> S754_nan.
Proof.
  destruct m as [|p|p]; cbn [binary_normalize]; [discriminate| |];
    unfold binary_round;
    destruct (shl_align p e _) as [mz ez];
    apply binary_round_aux_not_nan; lia.
Qed.

(** Subtracting from a finite number gives a NaN only for a NaN. *)
Lemma SFsub_finite_not_nan (s : bool) (m : positive) (e : Z)
    (y : spec_float) :
  y <> S754_nan -> SFsub prec emax (S754_finite s m e) y <> S754_nan.
Proof.
  intros Hy. destruct y as [sy|sy| |sy my ey]; cbn [SFsub];
    try discriminate; [congruence|].
  apply binary_normalize_not_nan.
Qed.

Lemma spec_float_nan_dec (x : spec_float) :
  {x = S754_nan} + {x <> S754_nan}.
Proof. destruct x; (now left) || (right; discriminate). Qed.

Lemma distance_nan (t : Target) : distance S754_nan t = S754_nan.
Proof. unfold distance. now destruct (val t). Qed.

Lemma abs_not_nan (x : spec_float) : x <> S754_nan -> SFabs x <> S754_nan.
Proof. destruct x; cbn; congruence. Qed.

Lemma targets_finite :
  Forall (fun t => exists s m e, val t = S754_finite s m e) targets.
Proof. repeat constructor; do 3 eexists; vm_compute; reflexivity. Qed.

Lemma distance_not_nan (ratio : spec_float) (j : nat) (u : Target) :
  ratio <> S754_nan -> targets !! j = Some u ->
  distance ratio u <> S754_nan.
Proof.
  intros Hr Hu.
  destruct (Forall_lookup_1 _ _ _ _ targets_finite Hu) as (s & m & e & E).
  unfold distance. rewrite E. apply abs_not_nan.
  now apply SFsub_finite_not_nan.
Qed.

End DoubleFacts.

Section NearestFacts.

Import AspectRatio.

Variable ratio : spec_float.

(** One step of the reduction keeps the accumulator first-nearest among
    the entries seen so far. *)
Lemma closer_firstNearest (pre : list Target) (i : nat) (acc x : Target) :
  (forall j u, pre !! j = Some u -> distance ratio u <> S754_nan) ->
  firstNearest ratio pre i acc ->
  exists i', firstNearest ratio (pre ++ [x]) i' (closer ratio acc x).
Proof.
  intros Hnn (Hi & Hle & Hlt).
  assert (Hbound : (i < length pre)%nat) by (eapply lookup_lt_Some; eauto).
  unfold closer.
  destruct (SFltb (distance ratio x) (distance ratio acc)) eqn:E.
  - exists (length pre). repeat split.
    + rewrite lookup_app_r by lia. now rewrite Nat.sub_diag.
    + intros j u Hj. apply lookup_app_Some in Hj as [Hj|[_ Hj]].
      * destruct (SFltb (distance ratio u) (distance ratio x)) eqn:F;
          [|reflexivity].
        rewrite <- (Hle j u Hj). symmetry. unfold distance in *.
        eapply abs_ltb_trans; eauto.
      * destruct (j - length pre)%nat; [|discriminate].
        injection Hj as <-. apply abs_ltb_irrefl.
    + intros j u Hj Hjlt. rewrite lookup_app_l in Hj by lia.
      pose proof (Hle j u Hj) as Hu. pose proof (Hnn j u Hj) as Hn.
      unfold distance in *. eapply abs_ltb_total; eauto.
  - exists i. repeat split.
    + now rewrite lookup_app_l by lia.
    + intros j u Hj. apply lookup_app_Some in Hj as [Hj|[_ Hj]]; [eauto|].
      destruct (j - length pre)%nat; [|discriminate].
      now injection Hj as <-.
    + intros j u Hj Hjlt. rewrite lookup_app_l in Hj by lia. eauto.
Qed.

Lemma fold_closer_firstNearest (rest pre : list Target) (i : nat)
    (acc : Target) :
  (forall j u, (pre ++ rest) !! j = Some u ->
               distance ratio u <> S754_nan) ->
  firstNearest ratio pre i acc ->
  exists i',
    firstNearest ratio (pre ++ rest) i' (fold_left (closer ratio) rest acc).
Proof.
  revert pre i acc. induction rest as [|x rest IH]; intros pre i acc Hnn H.
  - exists i. now rewrite app_nil_r.
  - simpl. destruct (closer_firstNearest pre i acc x) as (i1 & H1).
    + intros j u Hj. apply (Hnn j u).
      rewrite lookup_app_l; [exact Hj|]. eapply lookup_lt_Some; eauto.
    + exact H.
    + destruct (IH (pre ++ [x]) i1 (closer ratio acc x)) as (i2 & H2).
      * intros j u Hj. apply (Hnn j u). now rewrite <- app_assoc in Hj.
      * exact H1.
      * exists i2. now rewrite <- app_assoc in H2.
Qed.

(** With a NaN for a ratio every distance is a NaN, no comparison
    succeeds, and the seed stays. *)
Lemma fold_closer_nan (rest : list Target) (acc : Target) :
  ratio = S754_nan -> fold_left (closer ratio) rest acc = acc.
Proof.
  intros ->. revert acc. induction rest as [|x rest IH]; intros acc;
    [reflexivity|].
  cbn [fold_left]. unfold closer at 2. rewrite !distance_nan. cbn.
  apply IH.
Qed.

Lemma reduce_closer_firstNearest :
  exists i best,
    reduce (closer ratio) targets = Some best
    /\ firstNearest ratio targets i best.
Proof.
  destruct targets as [|x rest] eqn:Et; [discriminate Et|].
  assert (Hseed : firstNearest ratio [x] 0 x).
  { repeat split.
    - intros j u Hj. destruct j; [|discriminate].
      injection Hj as <-. apply abs_ltb_irrefl.
    - intros j u _ Hj. lia. }
  destruct (spec_float_nan_dec ratio) as [Hn|Hn].
  - exists 0%nat, x. cbn [reduce]. rewrite (fold_closer_nan rest x Hn).
    split; [reflexivity|]. subst ratio. repeat split.
    + intros j u _. rewrite !distance_nan. reflexivity.
    + intros j u _ Hj. lia.
  - destruct (fold_closer_firstNearest rest [x] 0 x) as (i & H).
    + intros j u Hj. apply (distance_not_nan ratio j u Hn).
      now rewrite Et.
    + exact Hseed.
    + exists i, (fold_left (closer ratio) rest x).
      split; [reflexivity|exact H].
Qed.

End NearestFacts.

(** The table as doubles; its two three-decimal entries lie within half a
    unit in the last place of 1.333 and 1.777. *)
Lemma targets_doubles :
  map AspectRatio.val AspectRatio.targets
  = [ S754_finite false 4503599627370496 (-52);
      S754_finite false 6755399441055744 (-53);
      S754_finite false 6003298303284871 (-52);
      S754_finite false 5066549580791808 (-53);
      S754_finite false 8002896537837371 (-52) ]
  /\ (Qabs ((6003298303284871 # 4503599627370496) - (1333 # 1000))
      <= 1 # 9007199254740992)%Q
  /\ (Qabs ((8002896537837371 # 4503599627370496) - (1777 # 1000))
      <= 1 # 9007199254740992)%Q.
Proof. repeat split; vm_compute; congruence. Qed.

(** C5, as the claim words it, fails: a 451 by 290 image has ratio 1.5552,
    which is nearer to four thirds (0.2218 away) than to sixteen ninths
    (0.2226 away), yet the selector answers 16:9, because its table holds
    1.333 and 1.777. *)
Lemma getBestAspectRatio_not_true_nearest :
  AspectRatio.getBestAspectRatio (Some 451) (Some 290) = "16:9"%string
  /\ AspectRatio.nearestSupported 451 290 = "4:3"%string
  /\ (Qabs ((4 # 3) - (451 # 290)) < Qabs ((16 # 9) - (451 # 290)))%Q
  /\ ~ (forall w h : Z, 0 < w -> 0 < h ->
          AspectRatio.getBestAspectRatio (Some w) (Some h)
          = AspectRatio.nearestSupported w h).
Proof.
  split; [vm_compute; reflexivity|].
  split; [vm_compute; reflexivity|].
  split; [vm_compute; reflexivity|].
  intros H. specialize (H 451 290 eq_refl eq_refl).
  vm_compute in H. discriminate H.
Qed.

(** C5, amended. For positive width and height the selector returns the
    entry of its table (1:1 at 1, 3:4 at 0.75, 4:3 at 1.333, 9:16 at 0.5625,
    16:9 at 1.777) that is nearest to width/height, where the quotient,
    the five absolute differences and their comparisons are those of
    double arithmetic: no entry has a smaller computed distance, and every
    entry listed before it has a larger one.  It returns 1:1 when either
    dimension is zero or unknown; 1000x1000, 1600x900 and 900x1600 give
    1:1, 16:9 and 9:16; and 2333x2000, which is equally far from 1 and
    from 1.333 over the reals, gives 4:3, its computed distance to 1.333
    being the smaller. *)
Theorem getBestAspectRatio_nearest_table_value (w h : Z)
    (Hw : 0 < w) (Hh : 0 < h) :
  (exists i t,
      AspectRatio.firstNearest
        (SFdiv AspectRatio.prec AspectRatio.emax
           (AspectRatio.ofZ w) (AspectRatio.ofZ h))
        AspectRatio.targets i t
      /\ AspectRatio.getBestAspectRatio (Some w) (Some h) = AspectRatio.tid t)
  /\ (forall x : option Z,
         AspectRatio.getBestAspectRatio None x = "1:1"%string
         /\ AspectRatio.getBestAspectRatio x None = "1:1"%string
         /\ AspectRatio.getBestAspectRatio (Some 0) x = "1:1"%string
         /\ AspectRatio.getBestAspectRatio x (Some 0) = "1:1"%string)
  /\ AspectRatio.getBestAspectRatio (Some 1000) (Some 1000) = "1:1"%string
  /\ AspectRatio.getBestAspectRatio (Some 1600) (Some 900) = "16:9"%string
  /\ AspectRatio.getBestAspectRatio (Some 900) (Some 1600) = "9:16"%string
  /\ AspectRatio.getBestAspectRatio (Some 2333) (Some 2000) = "4:3"%string.
Proof.
  split; [|split; [|repeat split; vm_compute; reflexivity]].
  - unfold AspectRatio.getBestAspectRatio.
    assert (E : AspectRatio.falsy (Some w) || AspectRatio.falsy (Some h)
                = false).
    { simpl. apply orb_false_iff. split; apply Z.eqb_neq; lia. }
    rewrite E. cbn [AspectRatio.number].
    destruct (reduce_closer_firstNearest
                (SFdiv AspectRatio.prec AspectRatio.emax
                   (AspectRatio.ofZ w) (AspectRatio.ofZ h)))
      as (i & best & Hred & Hbest).
    rewrite Hred. now exists i, best.
  - intros x. unfold AspectRatio.getBestAspectRatio.
    repeat split; simpl; try reflexivity;
      destruct x as [z|]; simpl; try reflexivity;
      now rewrite orb_true_r.
Qed.

Lemma getBestAspectRatio_nearest_table_value_witness :
  (exists i t,
      AspectRatio.firstNearest
        (SFdiv AspectRatio.prec AspectRatio.emax
           (AspectRatio.ofZ 1600) (AspectRatio.ofZ 900))
        AspectRatio.targets i t
      /\ AspectRatio.getBestAspectRatio (Some 1600) (Some 900)
         = AspectRatio.tid t).
Proof.
  apply (getBestAspectRatio_nearest_table_value 1600 900); lia.
Defined.

(** ** The mask canvas *)

Section CanvasFacts.

Import MaskCanvas.

(** *** Coordinate mapping *)

Lemma scale_roundtrip (p lo n d : Q) :
  ~ (n == 0)%Q -> ~ (d == 0)%Q ->
  ((p - lo) * (n / d) / (n / d) + lo == p)%Q.
Proof. intros Hn Hd. field. split; assumption. Qed.

Lemma positive_dimension (n : nat) :
  (0 < n)%nat -> ~ (inject_Z (Z.of_nat n) == 0)%Q.
Proof.
  intros Hn E. unfold Qeq in E. simpl in E. lia.
Qed.

(** *** Export *)

Lemma exportMask_dimensions (c : ImageData) :
  iw (exportMask c) = iw c /\ ih (exportMask c) = ih c.
Proof. split; reflexivity. Qed.

(** What the export makes of one pixel. *)
Lemma export_pixel (r g b a : Z) :
  thresholdLoop (drawOverBlack [r; g; b; a])
  = if 20 <? premul r a then white
    else [premul r a; premul g a; premul b a; 255].
Proof. simpl. destruct (20 <? premul r a); reflexivity. Qed.

Lemma export_pixelwise (n : nat) :
  forall (l : list Z) (p : nat),
    length l = (4 * n)%nat -> (p < n)%nat ->
    take 4 (drop (4 * p) (thresholdLoop (drawOverBlack l)))
    = thresholdLoop (drawOverBlack (take 4 (drop (4 * p) l))).
Proof.
  induction n as [|n IH]; intros l p Hlen Hp; [lia|].
  destruct l as [|r [|g [|b [|a rest]]]]; simpl in Hlen; try lia.
  destruct p as [|p].
  - change (take 4 (drop (4 * 0) (r :: g :: b :: a :: rest)))
      with [r; g; b; a].
    rewrite export_pixel. simpl.
    destruct (20 <? premul r a); reflexivity.
  - replace (4 * S p)%nat with (4 + 4 * p)%nat by lia.
    change (drop (4 + 4 * p) (r :: g :: b :: a :: rest))
      with (drop (4 * p) rest).
    rewrite <- (IH rest p) by lia.
    change (thresholdLoop (drawOverBlack (r :: g :: b :: a :: rest)))
      with ((if 20 <? premul r a then [255; 255; 255; 255]
             else [premul r a; premul g a; premul b a; 255])
            ++ thresholdLoop (drawOverBlack rest)).
    destruct (20 <? premul r a); reflexivity.
Qed.

(** Every pixel of the exported mask is the export of the canvas pixel at
    the same place. *)
Lemma exportMask_pixelAt (c : ImageData) (p : nat) :
  wf_image c -> (p < iw c * ih c)%nat ->
  pixelAt (exportMask c) p = thresholdLoop (drawOverBlack (pixelAt c p)).
Proof.
  intros Hwf Hp. unfold pixelAt, exportMask. simpl.
  now apply export_pixelwise with (n := (iw c * ih c)%nat).
Qed.

(** A composited pixel whose red byte is at most 20 leaves the loop as it
    entered it, whatever its green and blue bytes. *)
Lemma threshold_reads_red_only (r g b a : Z) :
  r <= 20 -> thresholdLoop [r; g; b; a] = [r; g; b; a].
Proof.
  intros Hr. simpl. destruct (20 <? r) eqn:E; [|reflexivity].
  apply Z.ltb_lt in E. lia.
Qed.

Lemma premul_le (c a : Z) : 0 <= c -> 0 <= a <= 255 -> premul c a <= c.
Proof.
  intros Hc Ha. unfold premul.
  apply Z.lt_succ_r, Z.div_lt_upper_bound; nia.
Qed.

(** C1, at a pixel painted with the brush colour rgba(6, 182, 212, 0.7):
    blended over black it becomes (4, 128, 149, 255); its red byte is not
    above 20, so the loop leaves it alone and the exported pixel is neither
    white nor black, although its green and blue bytes are far above the
    threshold.  At no opacity does a pixel of that colour come out white. *)
Theorem exportMask_brush_pixel_not_binary :
  let painted := mkImageData 1 1 [6; 182; 212; 179] in
  pixelAt (exportMask painted) 0 = [4; 128; 149; 255]
  /\ pixelAt (exportMask painted) 0 <> white
  /\ pixelAt (exportMask painted) 0 <> black
  /\ (forall a : Z,
         0 <= a <= 255 ->
         pixelAt (exportMask (mkImageData 1 1 [6; 182; 212; a])) 0 <> white).
Proof.
  split; [reflexivity|]. split; [vm_compute; congruence|].
  split; [vm_compute; congruence|].
  intros a Ha. rewrite exportMask_pixelAt; [|reflexivity|simpl; lia].
  change (pixelAt (mkImageData 1 1 [6; 182; 212; a]) 0)
    with [6; 182; 212; a].
  rewrite export_pixel. pose proof (premul_le 6 a ltac:(lia) Ha) as Hr.
  destruct (20 <? premul 6 a) eqn:E.
  - apply Z.ltb_lt in E. lia.
  - unfold white. intros Heq. injection Heq as Heq _ _. lia.
Qed.

(** *** Snapshots *)

Lemma putImageData_fits (img c : ImageData) :
  wf_image c -> fits c img -> putImageData img c = img.
Proof.
  intros Hc (Hw & Hh & Himg). unfold wf_image in *.
  rewrite Hw, Hh in Himg.
  destruct img as [w h px]. simpl in *. subst w h.
  unfold putImageData. cbn [iw ih pixels]. f_equal.
  apply list_eq. intros i. rewrite list_lookup_imap.
  destruct (decide (i < 4 * (iw c * ih c))%nat) as [Hi|Hi].
  - destruct (lookup_lt_is_Some_2 (pixels c) i ltac:(lia)) as [old Hold].
    destruct (lookup_lt_is_Some_2 px i ltac:(lia)) as [v Hv].
    rewrite Hold, Hv. cbn [fmap option_fmap option_map]. f_equal.
    assert (Hw0 : (0 < iw c)%nat) by nia.
    assert (Hp : (i / 4 < iw c * ih c)%nat)
      by (apply Nat.Div0.div_lt_upper_bound; lia).
    assert (Hx : ((i / 4) mod iw c < iw c)%nat)
      by (apply Nat.mod_upper_bound; lia).
    assert (Hy : (i / 4 / iw c < ih c)%nat)
      by (apply Nat.Div0.div_lt_upper_bound; lia).
    apply Nat.ltb_lt in Hx. apply Nat.ltb_lt in Hy.
    rewrite Hx, Hy. cbn [andb].
    replace (4 * (i / 4 / iw c * iw c + (i / 4) mod iw c) + i mod 4)%nat
      with i.
    + now rewrite Hv.
    + pose proof (Nat.div_mod_eq i 4).
      pose proof (Nat.div_mod_eq (i / 4) (iw c)) as Hq.
      rewrite (Nat.mul_comm (iw c)) in Hq. lia.
  - rewrite (lookup_ge_None_2 (pixels c)) by lia.
    symmetry. apply lookup_ge_None_2. lia.
Qed.

Lemma clearRect_wf (c : ImageData) : wf_image c -> wf_image (clearRect c).
Proof. unfold wf_image, clearRect. simpl. now rewrite length_map. Qed.

Lemma blank_wf (w h : nat) : wf_image (blank w h).
Proof. unfold wf_image, blank. simpl. now rewrite repeat_length. Qed.

Lemma fits_same_size (c c' img : ImageData) :
  iw c' = iw c -> ih c' = ih c -> fits c img -> fits c' img.
Proof. intros Hw Hh (? & ? & ?). unfold fits. repeat split; congruence. Qed.

Lemma fits_self (c : ImageData) : wf_image c -> fits c c.
Proof. intros H. repeat split. exact H. Qed.

Variable strokeByte : option (Q * Q) -> Q * Q -> Q -> nat -> Z -> Z.

Abbreviation step := (MaskCanvas.step strokeByte).

Lemma wf_saveHistoryState (st : State) :
  wf_image (canvas st) -> Forall (fits (canvas st)) (historyRef st) ->
  (historyStep st < length (historyRef st))%nat ->
  wf (saveHistoryState st)
  /\ historyRef (saveHistoryState st)
     = take (S (historyStep st)) (historyRef st) ++ [canvas st]
  /\ historyStep (saveHistoryState st) = S (historyStep st).
Proof.
  intros Hc Hfit Hlt. unfold saveHistoryState, getImageData.
  replace (historyStep st + 1)%nat with (S (historyStep st)) by lia.
  assert (Hlen : length (take (S (historyStep st)) (historyRef st)
                         ++ [canvas st]) = S (S (historyStep st))).
  { rewrite length_app, length_take. cbn [length]. lia. }
  split; [|split]; simpl.
  - repeat split; simpl.
    + exact Hc.
    + apply Forall_app. split.
      * now apply Forall_take.
      * constructor; [now apply fits_self|constructor].
    + exists (canvas st). split; [|reflexivity].
      rewrite Hlen.
      rewrite lookup_app_r by (rewrite length_take; lia).
      rewrite length_take.
      replace (S (S (historyStep st)) - 1 - _)%nat with 0%nat by lia.
      reflexivity.
  - reflexivity.
  - rewrite Hlen. simpl. lia.
Qed.

Lemma wf_cursor (st : State) :
  wf st -> (historyStep st < length (historyRef st))%nat.
Proof. intros (_ & _ & snap & Hs & _). eapply lookup_lt_Some; eauto. Qed.

Lemma restore_spec (n : nat) (snap : ImageData) (st : State) :
  wf_image (canvas st) -> Forall (fits (canvas st)) (historyRef st) ->
  historyRef st !! n = Some snap ->
  restore n st
  = mkState snap (pen st) (isDrawing st) (brushSize st) n (historyRef st)
            (Some (exportMask snap)).
Proof.
  intros Hc Hfit Hn. unfold restore. rewrite Hn.
  rewrite putImageData_fits; [reflexivity|exact Hc|].
  eapply Forall_lookup_1; eauto.
Qed.

Lemma wf_restore (n : nat) (snap : ImageData) (st : State) :
  wf st -> historyRef st !! n = Some snap -> wf (restore n st).
Proof.
  intros (Hc & Hfit & _) Hn.
  rewrite (restore_spec n snap st Hc Hfit Hn).
  pose proof (Forall_lookup_1 _ _ _ _ Hfit Hn) as (Hw & Hh & Hs).
  repeat split; simpl.
  - exact Hs.
  - eapply Forall_impl; [exact Hfit|].
    intros img. now apply fits_same_size.
  - exists snap. split; [exact Hn|reflexivity].
Qed.

Lemma wf_step (st : State) (e : Event) : wf st -> wf (step st e).
Proof.
  intros Hwf. pose proof (wf_cursor st Hwf) as Hlt.
  destruct Hwf as (Hc & Hfit & snap & Hsnap & Hshow).
  assert (Hwf : wf st) by (repeat split; eauto).
  assert (Hdraw : forall x y r st0,
            wf_image (canvas st0) ->
            Forall (fits (canvas st0)) (historyRef st0) ->
            wf_image (canvas (draw strokeByte x y r st0))
            /\ Forall (fits (canvas (draw strokeByte x y r st0)))
                      (historyRef st0)
            /\ historyRef (draw strokeByte x y r st0) = historyRef st0
            /\ historyStep (draw strokeByte x y r st0) = historyStep st0
            /\ isDrawing (draw strokeByte x y r st0) = isDrawing st0
            /\ (isDrawing st0 = false ->
                canvas (draw strokeByte x y r st0) = canvas st0)).
  { intros x y r st0 Hc0 Hfit0. unfold draw.
    destruct (isDrawing st0) eqn:Ed; [|repeat split; assumption].
    simpl. repeat split; try assumption; try discriminate.
    unfold wf_image, lineToStroke. simpl. now rewrite length_imap. }
  destruct e as [x y r|x y r| | | | |b]; simpl.
  - unfold handleMouseDown.
    destruct (Hdraw x y r
                (mkState (canvas st) None (isDrawing st) (brushSize st)
                   (historyStep st) (historyRef st) (maskReady st)) Hc Hfit)
      as (H1 & H2 & H3 & H4 & _).
    simpl in *. repeat split; simpl; [exact H1|now rewrite H3|].
    rewrite H3, H4. exists snap. split; [exact Hsnap|discriminate].
  - destruct (Hdraw x y r st Hc Hfit) as (H1 & H2 & H3 & H4 & H5 & H6).
    repeat split; [exact H1|now rewrite H3|].
    rewrite H3, H4, H5. exists snap. split; [exact Hsnap|].
    intros Hd. rewrite (H6 Hd). now apply Hshow.
  - unfold stopDrawing. destruct (isDrawing st); [|exact Hwf].
    now apply wf_saveHistoryState.
  - unfold handleUndo. destruct (0 <? historyStep st)%nat; [|exact Hwf].
    destruct (lookup_lt_is_Some_2 (historyRef st) (historyStep st - 1)
                ltac:(lia)) as [s0 Hs0].
    now apply wf_restore with (snap := s0).
  - unfold handleRedo.
    destruct (historyStep st <? length (historyRef st) - 1)%nat eqn:E;
      [|exact Hwf].
    apply Nat.ltb_lt in E.
    destruct (lookup_lt_is_Some_2 (historyRef st) (historyStep st + 1)
                ltac:(lia)) as [s0 Hs0].
    now apply wf_restore with (snap := s0).
  - unfold clearCanvas. apply wf_saveHistoryState; simpl.
    + now apply clearRect_wf.
    + eapply Forall_impl; [exact Hfit|]. intros img.
      now apply fits_same_size.
    + exact Hlt.
  - unfold setBrushSize. repeat split; simpl; eauto.
Qed.

Lemma wf_mounted (w h : nat) : wf (mounted w h).
Proof.
  unfold mounted, onload, getImageData. repeat split; simpl.
  - apply clearRect_wf, blank_wf.
  - constructor; [|constructor]. apply fits_self, clearRect_wf, blank_wf.
  - eexists. split; reflexivity.
Qed.

Lemma wf_run (w h : nat) (es : list Event) : wf (run strokeByte w h es).
Proof.
  unfold run. induction es as [|e es IH] using rev_ind.
  - apply wf_mounted.
  - rewrite fold_left_app. simpl. now apply wf_step.
Qed.

End CanvasFacts.

Section HistoryStackFacts.

Import MaskCanvas.

Variable strokeByte : option (Q * Q) -> Q * Q -> Q -> nat -> Z -> Z.

Lemma undo_after_save (st : State) (snap : ImageData) :
  wf_image (canvas st) -> Forall (fits (canvas st)) (historyRef st) ->
  historyRef st !! historyStep st = Some snap ->
  canvas (handleUndo (saveHistoryState st)) = snap
  /\ historyStep (handleUndo (saveHistoryState st)) = historyStep st.
Proof.
  intros Hc Hfit Hsnap.
  assert (Hlt : (historyStep st < length (historyRef st))%nat)
    by (eapply lookup_lt_Some; eauto).
  destruct (wf_saveHistoryState st Hc Hfit Hlt)
    as ((Hc' & Hfit' & _) & Hhist & Hstep).
  unfold handleUndo. rewrite Hstep. cbn [Nat.ltb Nat.leb].
  replace (S (historyStep st) - 1)%nat with (historyStep st) by lia.
  rewrite (restore_spec _ snap); [split; reflexivity|exact Hc'|exact Hfit'|].
  rewrite Hhist, lookup_app_l by (rewrite length_take; lia).
  rewrite lookup_take_lt by lia. exact Hsnap.
Qed.

Lemma redo_after_undo (st : State) (snap : ImageData) :
  wf st -> historyRef st !! historyStep st = Some snap ->
  (0 < historyStep st)%nat ->
  canvas (handleRedo (handleUndo st)) = snap
  /\ historyStep (handleRedo (handleUndo st)) = historyStep st.
Proof.
  intros Hwf Hsnap Hpos. pose proof (wf_cursor st Hwf) as Hlt.
  destruct Hwf as (Hc & Hfit & _).
  destruct (lookup_lt_is_Some_2 (historyRef st) (historyStep st - 1)
              ltac:(lia)) as [s0 Hs0].
  unfold handleUndo.
  destruct (Nat.ltb_spec 0 (historyStep st)) as [_|]; [|lia].
  rewrite (restore_spec _ s0 st Hc Hfit Hs0).
  pose proof (Forall_lookup_1 _ _ _ _ Hfit Hs0) as (Hw & Hh & Hs).
  unfold handleRedo. cbn [historyStep historyRef].
  destruct (Nat.ltb_spec (historyStep st - 1) (length (historyRef st) - 1))
    as [_|]; [|lia].
  replace (historyStep st - 1 + 1)%nat with (historyStep st) by lia.
  rewrite (restore_spec _ snap); [split; reflexivity|exact Hs| |exact Hsnap].
  eapply Forall_impl; [exact Hfit|]. intros img. now apply fits_same_size.
Qed.

(** After a save the cursor is at the tip, there is nothing to redo, and
    undo and redo only ever show snapshots of the new history. *)
Lemma undo_redo_keep_history (ops : list Event) :
  Forall (fun e => e = Undo \/ e = Redo) ops ->
  forall st : State,
    wf st -> In (canvas st) (historyRef st) ->
    historyRef (fold_left (step strokeByte) ops st) = historyRef st
    /\ In (canvas (fold_left (step strokeByte) ops st)) (historyRef st).
Proof.
  induction 1 as [|e ops He _ IH]; intros st Hwf Hin; [now split|].
  simpl.
  assert (Hstep : wf (step strokeByte st e)
                  /\ historyRef (step strokeByte st e) = historyRef st
                  /\ In (canvas (step strokeByte st e)) (historyRef st)).
  { split; [now apply wf_step|].
    pose proof (wf_cursor st Hwf) as Hlt.
    destruct Hwf as (Hc & Hfit & _).
    destruct He as [-> | ->]; simpl.
    - unfold handleUndo.
      destruct (0 <? historyStep st)%nat; [|now split].
      destruct (lookup_lt_is_Some_2 (historyRef st) (historyStep st - 1)
                  ltac:(lia)) as [s0 Hs0].
      rewrite (restore_spec _ s0 st Hc Hfit Hs0). simpl.
      split; [reflexivity|]. apply list_elem_of_In.
      eapply list_elem_of_lookup_2; eauto.
    - unfold handleRedo.
      destruct (Nat.ltb_spec (historyStep st)
                  (length (historyRef st) - 1)); [|now split].
      destruct (lookup_lt_is_Some_2 (historyRef st) (historyStep st + 1)
                  ltac:(lia)) as [s0 Hs0].
      rewrite (restore_spec _ s0 st Hc Hfit Hs0). simpl.
      split; [reflexivity|]. apply list_elem_of_In.
      eapply list_elem_of_lookup_2; eauto. }
  destruct Hstep as (Hwf' & Hh & Hin').
  destruct (IH (step strokeByte st e) Hwf') as (E1 & E2).
  - now rewrite Hh.
  - rewrite Hh in E1, E2. now split.
Qed.

Lemma redo_at_tip (st : State) :
  S (historyStep st) = length (historyRef st) -> handleRedo st = st.
Proof.
  intros E. unfold handleRedo.
  destruct (Nat.ltb_spec (historyStep st) (length (historyRef st) - 1));
    [lia|reflexivity].
Qed.

End HistoryStackFacts.

(** C7. In every state the component can reach, the snapshot under the
    cursor is what the canvas shows outside a stroke; undoing right after a
    commit (the end of a stroke, or a clear) puts exactly that snapshot back
    on the canvas and the cursor back where it was; and, when there is
    something to undo, redoing right after the undo does the same (with
    the cursor at 0 undo changes nothing).  The restored bitmap equals the
    snapshot byte for byte. *)
Theorem undo_redo_restore_snapshots
    (strokeByte : option (Q * Q) -> Q * Q -> Q -> nat -> Z -> Z)
    (w h : nat) (es : list MaskCanvas.Event) :
  let st := MaskCanvas.run strokeByte w h es in
  exists snap : MaskCanvas.ImageData,
    MaskCanvas.historyRef st !! MaskCanvas.historyStep st = Some snap
    /\ (MaskCanvas.isDrawing st = false -> MaskCanvas.canvas st = snap)
    /\ MaskCanvas.canvas (MaskCanvas.handleUndo (MaskCanvas.commit st)) = snap
    /\ MaskCanvas.historyStep (MaskCanvas.handleUndo (MaskCanvas.commit st))
       = MaskCanvas.historyStep st
    /\ MaskCanvas.canvas (MaskCanvas.handleUndo (MaskCanvas.clearCanvas st))
       = snap
    /\ (MaskCanvas.isDrawing st = true ->
        MaskCanvas.canvas (MaskCanvas.handleUndo (MaskCanvas.stopDrawing st))
        = snap)
    /\ ((0 < MaskCanvas.historyStep st)%nat ->
        MaskCanvas.canvas (MaskCanvas.handleRedo (MaskCanvas.handleUndo st))
        = snap
        /\ MaskCanvas.historyStep
             (MaskCanvas.handleRedo (MaskCanvas.handleUndo st))
           = MaskCanvas.historyStep st)
    /\ (MaskCanvas.historyStep st = 0%nat -> MaskCanvas.handleUndo st = st).
Proof.
  intros st. pose proof (wf_run strokeByte w h es) as Hwf. fold st in Hwf.
  destruct Hwf as (Hc & Hfit & snap & Hsnap & Hshow).
  assert (Hwf : MaskCanvas.wf st) by (repeat split; eauto).
  exists snap. split; [exact Hsnap|]. split; [exact Hshow|].
  destruct (undo_after_save st snap Hc Hfit Hsnap) as (E1 & E2).
  split; [exact E1|]. split; [exact E2|]. split; [|split].
  - unfold MaskCanvas.clearCanvas. apply undo_after_save; simpl.
    + now apply clearRect_wf.
    + eapply Forall_impl; [exact Hfit|]. intros img.
      now apply fits_same_size.
    + exact Hsnap.
  - intros Hd. unfold MaskCanvas.stopDrawing. rewrite Hd.
    now apply undo_after_save.
  - split; [intros Hpos; now apply redo_after_undo|].
    intros Hzero. unfold MaskCanvas.handleUndo. now rewrite Hzero.
Qed.

Lemma undo_redo_restore_snapshots_witness :
  let paint := fun (_ : option (Q * Q)) (_ : Q * Q) (_ : Q) (_ : nat)
                   (_ : Z) => 200 in
  let r := MaskCanvas.mkRect 0 0 1 1 in
  let st := MaskCanvas.run paint 1 1
              [MaskCanvas.Down 0 0 r; MaskCanvas.Move 0 0 r; MaskCanvas.Up] in
  (0 < MaskCanvas.historyStep st)%nat
  /\ MaskCanvas.canvas (MaskCanvas.handleRedo (MaskCanvas.handleUndo st))
     = MaskCanvas.mkImageData 1 1 [200; 200; 200; 200]
  /\ MaskCanvas.canvas (MaskCanvas.handleUndo st) = MaskCanvas.blank 1 1.
Proof.
  intros paint r st.
  destruct (undo_redo_restore_snapshots paint 1 1
              [MaskCanvas.Down 0 0 r; MaskCanvas.Move 0 0 r; MaskCanvas.Up])
    as (snap & Hsnap & _ & _ & _ & _ & _ & Hredo & _).
  assert (Hpos : (0 < MaskCanvas.historyStep st)%nat)
    by (vm_compute; lia).
  split; [exact Hpos|]. split.
  - destruct (Hredo Hpos) as (E & _). subst st. rewrite E.
    vm_compute in Hsnap. now injection Hsnap as <-.
  - vm_compute. reflexivity.
Defined.

(** C8. In every reachable state, cursor at the tip or not, a commit
    (and likewise a clear) keeps the snapshots up to the cursor, drops all
    later ones and appends the current canvas; the cursor then points at
    that new last entry, redo does nothing, and no sequence of undo and
    redo changes the history or shows anything but its entries. *)
Theorem commit_discards_redo_branch
    (strokeByte : option (Q * Q) -> Q * Q -> Q -> nat -> Z -> Z)
    (w h : nat) (es ops : list MaskCanvas.Event)
    (Hops : Forall (fun e => e = MaskCanvas.Undo \/ e = MaskCanvas.Redo) ops) :
  let st := MaskCanvas.run strokeByte w h es in
  let st' := MaskCanvas.commit st in
  let cleared := MaskCanvas.clearCanvas st in
  MaskCanvas.historyRef st'
  = take (S (MaskCanvas.historyStep st)) (MaskCanvas.historyRef st)
    ++ [MaskCanvas.canvas st]
  /\ MaskCanvas.historyRef cleared
     = take (S (MaskCanvas.historyStep st)) (MaskCanvas.historyRef st)
       ++ [MaskCanvas.clearRect (MaskCanvas.canvas st)]
  /\ MaskCanvas.historyStep st' = S (MaskCanvas.historyStep st)
  /\ S (MaskCanvas.historyStep st') = length (MaskCanvas.historyRef st')
  /\ S (MaskCanvas.historyStep cleared)
     = length (MaskCanvas.historyRef cleared)
  /\ MaskCanvas.handleRedo st' = st'
  /\ MaskCanvas.handleRedo cleared = cleared
  /\ MaskCanvas.historyRef
       (fold_left (MaskCanvas.step strokeByte) ops st')
     = MaskCanvas.historyRef st'
  /\ In (MaskCanvas.canvas (fold_left (MaskCanvas.step strokeByte) ops st'))
        (MaskCanvas.historyRef st').
Proof.
  intros st st' cleared.
  pose proof (wf_run strokeByte w h es) as Hwf. fold st in Hwf.
  pose proof (wf_cursor st Hwf) as Hlt.
  destruct Hwf as (Hc & Hfit & _).
  destruct (wf_saveHistoryState st Hc Hfit Hlt) as (Hwf' & Hh & Hs).
  fold (MaskCanvas.commit st) in Hwf', Hh, Hs. fold st' in Hwf', Hh, Hs.
  assert (Hfitc : Forall (MaskCanvas.fits
                            (MaskCanvas.clearRect (MaskCanvas.canvas st)))
                         (MaskCanvas.historyRef st)).
  { eapply Forall_impl; [exact Hfit|]. intros img.
    now apply fits_same_size. }
  assert (Hcl : MaskCanvas.historyRef cleared
                = take (S (MaskCanvas.historyStep st))
                       (MaskCanvas.historyRef st)
                  ++ [MaskCanvas.clearRect (MaskCanvas.canvas st)]
                /\ MaskCanvas.historyStep cleared
                   = S (MaskCanvas.historyStep st)).
  { subst cleared. unfold MaskCanvas.clearCanvas.
    match goal with
    | |- context [MaskCanvas.saveHistoryState ?s] =>
        destruct (wf_saveHistoryState s (clearRect_wf _ Hc) Hfitc Hlt)
          as (_ & E1 & E2)
    end.
    split; [exact E1|exact E2]. }
  destruct Hcl as (Hhc & Hsc).
  assert (Htip : S (MaskCanvas.historyStep st')
                 = length (MaskCanvas.historyRef st')).
  { rewrite Hs, Hh, length_app, length_take. cbn [length]. lia. }
  assert (Htipc : S (MaskCanvas.historyStep cleared)
                  = length (MaskCanvas.historyRef cleared)).
  { rewrite Hsc, Hhc, length_app, length_take. cbn [length]. lia. }
  repeat split; try assumption.
  - now apply redo_at_tip.
  - now apply redo_at_tip.
  - apply undo_redo_keep_history; try assumption.
    rewrite Hh. apply in_or_app. right. now left.
  - apply undo_redo_keep_history; try assumption.
    rewrite Hh. apply in_or_app. right. now left.
Qed.

Lemma commit_discards_redo_branch_witness :
  let paint := fun (_ : option (Q * Q)) (_ : Q * Q) (_ : Q) (_ : nat)
                   (_ : Z) => 200 in
  let r := MaskCanvas.mkRect 0 0 1 1 in
  let es := [MaskCanvas.Down 0 0 r; MaskCanvas.Move 0 0 r; MaskCanvas.Up;
             MaskCanvas.Undo] in
  let st := MaskCanvas.run paint 1 1 es in
  (MaskCanvas.historyStep st < length (MaskCanvas.historyRef st) - 1)%nat
  /\ MaskCanvas.handleRedo (MaskCanvas.commit st) = MaskCanvas.commit st
  /\ MaskCanvas.historyRef (MaskCanvas.commit st)
     = [MaskCanvas.blank 1 1; MaskCanvas.blank 1 1].
Proof.
  intros paint r es st.
  destruct (commit_discards_redo_branch paint 1 1 es
              [MaskCanvas.Undo; MaskCanvas.Redo])
    as (Hh & _ & _ & _ & _ & Hredo & _).
  - constructor; [now left|]. constructor; [now right|constructor].
  - split; [vm_compute; lia|]. split; [exact Hredo|].
    fold st in Hh. rewrite Hh. vm_compute. reflexivity.
Defined.

(** C9. With a display box and a bitmap of positive size, [draw] sends the
    pointer position to
    ((clientX - left) * (width / box width),
     (clientY - top) * (height / box height)),
    and the inverse map brings that point back to the pointer position
    (over exact rational arithmetic), whatever the scale factors
    width / box width and height / box height. *)
Theorem coordinate_mapper_roundtrip
    (strokeByte : option (Q * Q) -> Q * Q -> Q -> nat -> Z -> Z)
    (clientX clientY : Q) (rect : MaskCanvas.Rect) (st : MaskCanvas.State)
    (Hw : (0 < MaskCanvas.rect_width rect)%Q)
    (Hh : (0 < MaskCanvas.rect_height rect)%Q)
    (Hcw : (0 < MaskCanvas.iw (MaskCanvas.canvas st))%nat)
    (Hch : (0 < MaskCanvas.ih (MaskCanvas.canvas st))%nat) :
  let c := MaskCanvas.canvas st in
  let sx := (inject_Z (Z.of_nat (MaskCanvas.iw c))
             / MaskCanvas.rect_width rect)%Q in
  let sy := (inject_Z (Z.of_nat (MaskCanvas.ih c))
             / MaskCanvas.rect_height rect)%Q in
  MaskCanvas.pen (MaskCanvas.drawBody strokeByte clientX clientY rect st)
  = Some (MaskCanvas.mapX clientX rect c, MaskCanvas.mapY clientY rect c)
  /\ MaskCanvas.mapX clientX rect c
     = ((clientX - MaskCanvas.left_ rect) * sx)%Q
  /\ MaskCanvas.mapY clientY rect c
     = ((clientY - MaskCanvas.top_ rect) * sy)%Q
  /\ (0 < sx)%Q /\ (0 < sy)%Q
  /\ (MaskCanvas.unmapX (MaskCanvas.mapX clientX rect c) rect c == clientX)%Q
  /\ (MaskCanvas.unmapY (MaskCanvas.mapY clientY rect c) rect c == clientY)%Q.
Proof.
  intros c sx sy.
  assert (Hnx := positive_dimension _ Hcw).
  assert (Hny := positive_dimension _ Hch).
  assert (Hpx : (0 < inject_Z (Z.of_nat (MaskCanvas.iw c)))%Q).
  { unfold Qlt. simpl. subst c. lia. }
  assert (Hpy : (0 < inject_Z (Z.of_nat (MaskCanvas.ih c)))%Q).
  { unfold Qlt. simpl. subst c. lia. }
  repeat split.
  - subst sx. apply Qlt_shift_div_l; [exact Hw|]. now rewrite Qmult_0_l.
  - subst sy. apply Qlt_shift_div_l; [exact Hh|]. now rewrite Qmult_0_l.
  - unfold MaskCanvas.unmapX, MaskCanvas.mapX.
    apply scale_roundtrip; [exact Hnx|].
    intros E. rewrite E in Hw. now apply Qlt_irrefl in Hw.
  - unfold MaskCanvas.unmapY, MaskCanvas.mapY.
    apply scale_roundtrip; [exact Hny|].
    intros E. rewrite E in Hh. now apply Qlt_irrefl in Hh.
Qed.

Lemma coordinate_mapper_roundtrip_witness :
  let paint := fun (_ : option (Q * Q)) (_ : Q * Q) (_ : Q) (_ : nat)
                   (_ : Z) => 200 in
  let rect := MaskCanvas.mkRect 10 20 400 300 in
  let st := MaskCanvas.mounted 800 600 in
  (MaskCanvas.unmapX
     (MaskCanvas.mapX 110 rect (MaskCanvas.canvas st))
     rect (MaskCanvas.canvas st) == 110)%Q
  /\ (MaskCanvas.mapX 110 rect (MaskCanvas.canvas st) == 200)%Q.
Proof.
  intros paint rect st.
  destruct (coordinate_mapper_roundtrip paint 110 50 rect st)
    as (_ & _ & _ & _ & _ & Hx & _).
  - reflexivity.
  - reflexivity.
  - simpl. lia.
  - simpl. lia.
  - split; [exact Hx|]. vm_compute. reflexivity.
Defined.

(** ** The generation pipeline *)

Section ProgramFacts.

Import Gemini.

Variable h : Handler.

Lemma run_bind {A B} (p : Prog A) (f : A -> Prog B) (past : list Entry) :
  run h (bind p f) past
  = match run h p past with
    | (t1, inl e) => (t1, inl e)
    | (t1, inr a) =>
        (t1 ++ fst (run h (f a) (past ++ t1)),
         snd (run h (f a) (past ++ t1)))
    end.
Proof.
  revert past. induction p as [a|e|X ev k IH]; intros past; simpl.
  - rewrite app_nil_r. now destruct (run h (f a) past).
  - reflexivity.
  - rewrite IH.
    destruct (run h (k (h past X ev)) (past ++ [Log ev (h past X ev)]))
      as [t1 [e|a]]; [reflexivity|].
    now rewrite <- app_assoc.
Qed.

Lemma run_catch {A} (p : Prog A) (hd : JS.Error -> Prog A)
    (past : list Entry) :
  run h (catch p hd) past
  = match run h p past with
    | (t1, inr a) => (t1, inr a)
    | (t1, inl e) =>
        (t1 ++ fst (run h (hd e) (past ++ t1)),
         snd (run h (hd e) (past ++ t1)))
    end.
Proof.
  revert past. induction p as [a|e|X ev k IH]; intros past; simpl.
  - reflexivity.
  - rewrite app_nil_r. now destruct (run h (hd e) past).
  - rewrite IH.
    destruct (run h (k (h past X ev)) (past ++ [Log ev (h past X ev)]))
      as [t1 [e|a]]; [|reflexivity].
    now rewrite <- app_assoc.
Qed.

(** *** Observations of a trace *)

Lemma silent_observations (tr : list Entry) :
  Forall silent tr ->
  imageAttempts tr = [] /\ textCalls tr = []
  /\ imageRequests tr = [] /\ waits tr = [].
Proof.
  induction 1 as [|e tr (H1 & H2 & H3 & H4) _ (I1 & I2 & I3 & I4)].
  - repeat split.
  - unfold imageAttempts, textCalls, imageRequests, waits in *.
    cbn [omap list_omap]. rewrite H1, H2, H3, H4. auto.
Qed.

Lemma imageAttempts_call (parts : list Part) (ar : string)
    (ans : JS.Error + Response) (tr : list Entry) :
  imageAttempts (Log (imageEvent parts ar) ans :: tr)
  = ans :: imageAttempts tr.
Proof. reflexivity. Qed.

Lemma imageAttempts_wait (ms : Z) (u : unit) (tr : list Entry) :
  imageAttempts (Log (Wait ms) u :: tr) = imageAttempts tr.
Proof. reflexivity. Qed.

Lemma imageAttempts_nil : imageAttempts [] = [].
Proof. reflexivity. Qed.

Lemma moveOf_call (parts : list Part) (ar : string)
    (ans : JS.Error + Response) :
  moveOf (Log (imageEvent parts ar) ans) = Attempt.
Proof. reflexivity. Qed.

Lemma moveOf_wait (ms : Z) (u : unit) : moveOf (Log (Wait ms) u) = Delay ms.
Proof. reflexivity. Qed.

Lemma textCalls_call (parts : list Part) (ar : string)
    (ans : JS.Error + Response) (tr : list Entry) :
  textCalls (Log (imageEvent parts ar) ans :: tr) = textCalls tr.
Proof. reflexivity. Qed.

Lemma textCalls_wait (ms : Z) (u : unit) (tr : list Entry) :
  textCalls (Log (Wait ms) u :: tr) = textCalls tr.
Proof. reflexivity. Qed.

Lemma imageRequests_call (parts : list Part) (ar : string)
    (ans : JS.Error + Response) (tr : list Entry) :
  imageRequests (Log (imageEvent parts ar) ans :: tr)
  = parts :: imageRequests tr.
Proof. reflexivity. Qed.

Lemma imageRequests_wait (ms : Z) (u : unit) (tr : list Entry) :
  imageRequests (Log (Wait ms) u :: tr) = imageRequests tr.
Proof. reflexivity. Qed.

Lemma observations_app (t1 t2 : list Entry) :
  imageAttempts (t1 ++ t2) = imageAttempts t1 ++ imageAttempts t2
  /\ textCalls (t1 ++ t2) = textCalls t1 ++ textCalls t2
  /\ imageRequests (t1 ++ t2) = imageRequests t1 ++ imageRequests t2.
Proof.
  unfold imageAttempts, textCalls, imageRequests.
  now rewrite !omap_app.
Qed.

Lemma retriable_class (msg : string) :
  retriable msg = true
  <-> (classify msg = quota_exceeded \/ classify msg = overloaded).
Proof.
  unfold retriable, classify.
  destruct (isQuota msg), (isOverloaded msg), (isSafety msg); simpl;
    split; intros H; try tauto; try discriminate;
    destruct H; discriminate.
Qed.

Lemma safety_class (msg : string) :
  classify msg = safety_blocked ->
  retriable msg = false /\ userMessage msg = safetyMessage.
Proof.
  unfold retriable, classify, userMessage.
  destruct (isQuota msg), (isOverloaded msg), (isSafety msg); simpl;
    intros H; try discriminate; now split.
Qed.

(** The wording is chosen by the class, except that an overload message
    that also reads as a refusal gets the refusal wording. *)
Lemma userMessage_by_class (msg : string) :
  match classify msg with
  | quota_exceeded => userMessage msg = quotaMessage
  | safety_blocked => userMessage msg = safetyMessage
  | fatal_other =>
      userMessage msg
      = ("Generation Failed: " ++ JS.slice0 100 msg ++ "...")%string
  | overloaded =>
      userMessage msg = safetyMessage
      \/ userMessage msg
         = ("Generation Failed: " ++ JS.slice0 100 msg ++ "...")%string
  end.
Proof.
  unfold classify, userMessage.
  destruct (isQuota msg), (isOverloaded msg), (isSafety msg); simpl; auto.
Qed.

(** *** One attempt *)

Lemma run_attempt (past : list Entry) (parts : list Part) (ar : string)
    (n : Z) :
  let ans := h past _ (imageEvent parts ar) in
  exists (tr : list Entry) (ctl : Control),
    run h (catch (attemptOnce parts ar) (onAttemptError n)) past
    = (Log (imageEvent parts ar) ans :: tr, inr ctl)
    /\ ((attemptFailure ans = None /\ tr = []
         /\ exists d, ctl = Break (Some d) None
                      /\ JS.truthy (Some d) = true)
        \/ (exists msg,
              attemptFailure ans = Some msg
              /\ retriable msg && (n <? MAX_RETRIES) = true
              /\ ctl = Continue
              /\ exists u, tr = [Log (Wait (2000 * n)) u])
        \/ (exists msg,
              attemptFailure ans = Some msg
              /\ retriable msg && (n <? MAX_RETRIES) = false
              /\ tr = []
              /\ ctl = Break None (Some (userMessage msg)))).
Proof.
  intros ans.
  assert (Herr : forall err past',
            exists tr ctl,
              run h (onAttemptError n err) past' = (tr, inr ctl)
              /\ ((retriable (messageOf err) && (n <? MAX_RETRIES) = true
                   /\ ctl = Continue
                   /\ exists u, tr = [Log (Wait (2000 * n)) u])
                  \/ (retriable (messageOf err) && (n <? MAX_RETRIES) = false
                      /\ tr = []
                      /\ ctl = Break None
                                 (Some (userMessage (messageOf err)))))).
  { intros err past'. unfold onAttemptError.
    destruct (retriable (messageOf err) && (n <? MAX_RETRIES)).
    - do 2 eexists. split; [reflexivity|]. left. repeat split. eauto.
    - do 2 eexists. split; [reflexivity|]. right. repeat split. }
  unfold attemptOnce, await. cbn [bind catch run]. fold ans.
  destruct ans as [err|resp] eqn:Eans.
  - cbn [bind catch].
    destruct (Herr err (past ++ [Log (imageEvent parts ar) (inl err)]))
      as (tr & ctl & Hrun & Hcase).
    rewrite Hrun. exists tr, ctl. split; [reflexivity|].
    right. destruct Hcase as [(H1 & H2 & H3)|(H1 & H2 & H3)];
      [left|right]; exists (messageOf err); auto.
  - cbn [bind catch attemptFailure].
    destruct (JS.truthy (inlineDataOf (findInline (candidate_parts resp))))
      eqn:Et.
    + cbn [catch run]. do 2 eexists. split; [reflexivity|].
      left. repeat split.
      destruct (inlineDataOf (findInline (candidate_parts resp))) as [d|];
        [|discriminate]. now exists d.
    + cbn [catch].
      destruct (Herr
                  (JS.newError
                     (JS.or_else (findText (candidate_parts resp))
                        "Model returned no image data."))
                  (past ++ [Log (imageEvent parts ar) (inr resp)]))
        as (tr & ctl & Hrun & Hcase).
      rewrite Hrun. exists tr, ctl. split; [reflexivity|].
      right. destruct Hcase as [(H1 & H2 & H3)|(H1 & H2 & H3)];
        [left|right]; eexists; eauto.
Qed.

End ProgramFacts.

Section RetryFacts.

Import Gemini.

Variable h : Handler.

(** The loop never throws, and what it does is a [LoopRun]. *)
Lemma retryLoop_runs (parts : list Part) (ar : string) (attempts : list Z) :
  forall past : list Entry,
  exists tr out,
    run h (retryLoop attempts parts ar) past = (tr, inr out)
    /\ LoopRun parts ar attempts tr out.
Proof.
  induction attempts as [|n later IH]; intros past.
  - exists [], (None, None). split; [reflexivity|constructor].
  - cbn [retryLoop]. rewrite run_bind.
    destruct (run_attempt h past parts ar n)
      as (t1 & ctl & Hrun & [(Hf & -> & d & -> & Hd)
                            |[(msg & Hf & Hr & -> & u & ->)
                             |(msg & Hf & Hr & -> & ->)]]);
      rewrite Hrun.
    + exists [Log (imageEvent parts ar) (h past _ (imageEvent parts ar))],
        (Some d, None).
      split; [reflexivity|]. now apply LoopSuccess.
    + destruct (IH (past ++ [Log (imageEvent parts ar)
                               (h past _ (imageEvent parts ar));
                             Log (Wait (2000 * n)) u]))
        as (tr & out & Hloop & Hrel).
      rewrite Hloop. cbn [fst snd].
      exists (Log (imageEvent parts ar) (h past _ (imageEvent parts ar))
                :: Log (Wait (2000 * n)) u :: tr), out.
      split; [reflexivity|]. now apply LoopRetry with (msg := msg).
    + exists [Log (imageEvent parts ar) (h past _ (imageEvent parts ar))],
        (None, Some (userMessage msg)).
      split; [reflexivity|]. now apply LoopGiveUp.
Qed.

End RetryFacts.

Section RetrierSchedule.

Import Gemini.

Create Rewrite HintDb trace.

#[local] Hint Rewrite imageAttempts_call imageAttempts_wait imageAttempts_nil
  moveOf_call moveOf_wait : trace.

Lemma attemptNumbers_eq : attemptNumbers = [1; 2; 3].
Proof. reflexivity. Qed.

(** Normalising what an inversion of [LoopRun] leaves behind. *)
Ltac loop_facts :=
  repeat match goal with
    | H : _ && _ = true |- _ => apply andb_true_iff in H as [? ?]
    | H : (_ <? MAX_RETRIES) = true |- _ => apply Z.ltb_lt in H
    | H : _ && (1 <? MAX_RETRIES) = false |- _ =>
        change (1 <? MAX_RETRIES) with true in H; rewrite andb_true_r in H
    | H : _ && (2 <? MAX_RETRIES) = false |- _ =>
        change (2 <? MAX_RETRIES) with true in H; rewrite andb_true_r in H
    | H : _ && (3 <? MAX_RETRIES) = false |- _ => clear H
    end;
  change (2000 * 1) with 2000 in *; change (2000 * 2) with 4000 in *;
  autorewrite with trace; cbn [map].

(** Closing one index of the attempt list. *)
Ltac close_index :=
  split;
  [ intros Hlt; cbn [length] in Hlt;
    first [ lia
          | eexists; split; [eassumption|];
            split; [assumption|unfold MAX_RETRIES; lia] ]
  | intros (msg' & Hf' & Hr' & Hlt'); cbn [length];
    first [ lia
          | congruence
          | unfold MAX_RETRIES in Hlt'; lia ] ].

(** C3. However the image calls are answered, the retry loop ends without
    throwing; it makes one, two or three attempts, with a 2000 ms wait
    before the second and a 4000 ms wait before the third and nothing else
    in between; attempt number n+1 is made exactly when attempt n failed
    with a message classified quota_exceeded or overloaded and n is below
    MAX_RETRIES = 3; and an attempt that fails with a message classified
    safety_blocked is the last one, leaves no image and sets the
    policy-refusal message, so that a first attempt failing that way gives
    a single attempt. *)
Theorem retrier_attempts_and_delays
    (h : Handler) (past : list Entry) (parts : list Part) (ar : string) :
  let R := run h (retryLoop attemptNumbers parts ar) past in
  let tr := fst R in
  let atts := imageAttempts tr in
  exists data err,
    snd R = inr (data, err)
    /\ (map moveOf tr = [Attempt]
        \/ map moveOf tr = [Attempt; Delay 2000; Attempt]
        \/ map moveOf tr
           = [Attempt; Delay 2000; Attempt; Delay 4000; Attempt])
    /\ (1 <= length atts <= 3)%nat
    /\ (forall (n : nat) (ans : JS.Error + Response),
           atts !! n = Some ans ->
           ((S n < length atts)%nat
            <-> exists msg,
                  attemptFailure ans = Some msg
                  /\ (classify msg = quota_exceeded
                      \/ classify msg = overloaded)
                  /\ Z.of_nat (S n) < MAX_RETRIES))
    /\ (forall (n : nat) (ans : JS.Error + Response) (msg : string),
           atts !! n = Some ans ->
           attemptFailure ans = Some msg ->
           classify msg = safety_blocked ->
           length atts = S n /\ data = None /\ err = Some safetyMessage).
Proof.
  intros R tr atts.
  destruct (retryLoop_runs h parts ar attemptNumbers past)
    as (tr0 & [data err] & Hrun & Hloop).
  subst atts tr R. rewrite Hrun. cbn [fst snd].
  exists data, err. split; [reflexivity|].
  rewrite attemptNumbers_eq in Hloop.
  assert (Hsafe : forall ans msg msg0,
            attemptFailure ans = Some msg0 ->
            attemptFailure ans = Some msg ->
            classify msg = safety_blocked ->
            retriable msg0 = false
            /\ userMessage msg0 = safetyMessage).
  { intros ans msg msg0 H0 H1 Hc. rewrite H0 in H1. injection H1 as ->.
    now apply safety_class. }
  setoid_rewrite <- retriable_class.
  inversion Hloop as [|n1 l1 a1 d1 Hf1 Hd1|n1 l1 a1 m1 Hf1 Hr1
                      |n1 l1 a1 m1 u1 tr1 out1 Hf1 Hr1 Hloop1]; subst;
    loop_facts.
  - (* one attempt, with data *)
    split; [now left|]. split; [cbn; lia|]. split.
    + intros [|n] ans Hn; [|discriminate]. injection Hn as <-. close_index.
    + intros [|n] ans msg Hn Hf Hc; [|discriminate].
      injection Hn as <-. congruence.
  - (* one attempt, failed for good *)
    split; [now left|]. split; [cbn; lia|]. split.
    + intros [|n] ans Hn; [|discriminate]. injection Hn as <-. close_index.
    + intros [|n] ans msg Hn Hf Hc; [|discriminate].
      injection Hn as <-.
      destruct (Hsafe _ _ _ Hf1 Hf Hc) as (_ & ->). now repeat split.
  - inversion Hloop1 as [|n2 l2 a2 d2 Hf2 Hd2|n2 l2 a2 m2 Hf2 Hr2
                         |n2 l2 a2 m2 u2 tr2 out2 Hf2 Hr2 Hloop2]; subst;
      loop_facts.
    + (* two attempts, the second with data *)
      split; [right; now left|]. split; [cbn; lia|]. split.
      * intros [|[|n]] ans Hn; try discriminate; injection Hn as <-;
          close_index.
      * intros [|[|n]] ans msg Hn Hf Hc; try discriminate;
          injection Hn as <-; [|congruence].
        destruct (Hsafe _ _ _ Hf1 Hf Hc) as (E & _). congruence.
    + (* two attempts, the second failed for good *)
      split; [right; now left|]. split; [cbn; lia|]. split.
      * intros [|[|n]] ans Hn; try discriminate; injection Hn as <-;
          close_index.
      * intros [|[|n]] ans msg Hn Hf Hc; try discriminate;
          injection Hn as <-.
        -- destruct (Hsafe _ _ _ Hf1 Hf Hc) as (E & _). congruence.
        -- destruct (Hsafe _ _ _ Hf2 Hf Hc) as (_ & ->). now repeat split.
    + inversion Hloop2 as [|n3 l3 a3 d3 Hf3 Hd3|n3 l3 a3 m3 Hf3 Hr3
                           |n3 l3 a3 m3 u3 tr3 out3 Hf3 Hr3 Hloop3]; subst;
        loop_facts.
      * (* three attempts, the third with data *)
        split; [right; now right|]. split; [cbn; lia|]. split.
        -- intros [|[|[|n]]] ans Hn; try discriminate; injection Hn as <-;
             close_index.
        -- intros [|[|[|n]]] ans msg Hn Hf Hc; try discriminate;
             injection Hn as <-; [| |congruence].
           ++ destruct (Hsafe _ _ _ Hf1 Hf Hc) as (E & _). congruence.
           ++ destruct (Hsafe _ _ _ Hf2 Hf Hc) as (E & _). congruence.
      * (* three attempts, all failed *)
        split; [right; now right|]. split; [cbn; lia|]. split.
        -- intros [|[|[|n]]] ans Hn; try discriminate; injection Hn as <-;
             close_index.
        -- intros [|[|[|n]]] ans msg Hn Hf Hc; try discriminate;
             injection Hn as <-.
           ++ destruct (Hsafe _ _ _ Hf1 Hf Hc) as (E & _). congruence.
           ++ destruct (Hsafe _ _ _ Hf2 Hf Hc) as (E & _). congruence.
           ++ destruct (Hsafe _ _ _ Hf3 Hf Hc) as (_ & ->).
              now repeat split.
      * (* a fourth attempt is never due *)
        unfold MAX_RETRIES in *. lia.
Qed.

End RetrierSchedule.

Section PipelineFacts.

Import Gemini.

Variable h : Handler.

Lemma silent_prefix (t1 t2 : list Entry) :
  Forall silent t1 ->
  imageAttempts (t1 ++ t2) = imageAttempts t2
  /\ textCalls (t1 ++ t2) = textCalls t2
  /\ imageRequests (t1 ++ t2) = imageRequests t2
  /\ waits (t1 ++ t2) = waits t2.
Proof.
  intros H. destruct (silent_observations t1 H) as (E1 & E2 & E3 & E4).
  unfold imageAttempts, textCalls, imageRequests, waits in *.
  rewrite !omap_app, E1, E2, E3, E4. auto.
Qed.

Lemma silent_suffix (t1 t2 : list Entry) :
  Forall silent t2 ->
  imageAttempts (t1 ++ t2) = imageAttempts t1
  /\ textCalls (t1 ++ t2) = textCalls t1
  /\ imageRequests (t1 ++ t2) = imageRequests t1
  /\ waits (t1 ++ t2) = waits t1.
Proof.
  intros H. destruct (silent_observations t2 H) as (E1 & E2 & E3 & E4).
  unfold imageAttempts, textCalls, imageRequests, waits in *.
  rewrite !omap_app, E1, E2, E3, E4, !app_nil_r. auto.
Qed.

Lemma run_fileToPart (f : File) (past : list Entry) :
  exists ans,
    run h (fileToPart f) past
    = ([Log (ResizeImage f) ans],
       match ans with
       | inl _ => inl (JS.newError "Failed to process image.")
       | inr d => inr (InlineData d (mimeOf f))
       end).
Proof.
  exists (h past _ (ResizeImage f)). unfold fileToPart, await.
  cbn [bind catch run]. now destruct (h past _ (ResizeImage f)).
Qed.

Lemma fileToPart_silent (f : File) (past : list Entry) :
  Forall silent (fst (run h (fileToPart f) past)).
Proof.
  destruct (run_fileToPart f past) as (ans & ->).
  constructor; [repeat split|constructor].
Qed.

Lemma forEach_silent (l : list UploadedImage) :
  forall past,
    Forall silent
      (fst (run h (forEach (fun ref => fileToPart (file ref)) l) past)).
Proof.
  induction l as [|x l IH]; intros past; [constructor|].
  cbn [forEach]. rewrite run_bind.
  pose proof (fileToPart_silent (file x) past) as H1.
  destruct (run h (fileToPart (file x)) past) as [t1 [e|a]]; [exact H1|].
  cbn [fst snd] in *. rewrite run_bind.
  pose proof (IH (past ++ t1)) as H2.
  destruct (run h (forEach (fun ref => fileToPart (file ref)) l) (past ++ t1))
    as [t2 [e|bs]]; cbn [fst snd] in *.
  - now apply Forall_app.
  - rewrite app_nil_r. now apply Forall_app.
Qed.

Lemma context_silent (context : option UploadedImage) (past : list Entry) :
  Forall silent
    (fst (run h (match context with
                 | Some c => let! p := fileToPart (file c) in Ret [p]
                 | None => Ret []
                 end) past)).
Proof.
  destruct context as [c|]; [|constructor].
  rewrite run_bind. pose proof (fileToPart_silent (file c) past) as H1.
  destruct (run h (fileToPart (file c)) past) as [t1 [e|a]]; [exact H1|].
  cbn [fst snd run] in *. now rewrite app_nil_r.
Qed.

Lemma notify_run (b : bool) (s : Status) (past : list Entry) :
  exists tr, run h (notify b s) past = (tr, inr tt) /\ Forall silent tr.
Proof.
  destruct b; cbn.
  - destruct (h past unit (StatusUpdate s)).
    eexists. split; [reflexivity|]. constructor; [repeat split|constructor].
  - exists []. split; [reflexivity|constructor].
Qed.

Lemma getAIClient_run (past : list Entry) :
  exists tr r, run h getAIClient past = (tr, r) /\ Forall silent tr.
Proof.
  unfold getAIClient, perform. cbn [bind run].
  destruct (JS.truthy (Some (h past _ ReadApiKey)));
    do 2 eexists; (split; [reflexivity|]);
    (constructor; [repeat split|constructor]).
Qed.

Lemma run_textCall (parts : list Part) (past : list Entry) :
  let ev := GenerateContent textModel parts (mkConfig None SAFETY_SETTINGS) in
  run h (let! response := await ev in
         Ret (JS.or_else (response_text response) placeholder)) past
  = ([Log ev (h past _ ev)],
     match h past _ ev with
     | inl e => inl e
     | inr resp => inr (JS.or_else (response_text resp) placeholder)
     end).
Proof.
  intros ev. unfold await. cbn [bind run]. fold ev.
  now destruct (h past _ ev).
Qed.

(** Step 1 ends in one of three ways: an input image could not be
    prepared and no call was made; the text call was made and failed; the
    text call was made and answered. *)
Lemma run_analyze (sketch : UploadedImage) (context : option UploadedImage)
    (references : list UploadedImage) (params : GenerationParams)
    (userPrompt : string) (past : list Entry) :
  exists tr r,
    run h (analyze sketch context references params userPrompt) past = (tr, r)
    /\ imageAttempts tr = [] /\ imageRequests tr = []
    /\ ((textCalls tr = [] /\ exists e, r = inl e)
        \/ (exists e, textCalls tr = [inl e] /\ r = inl e)
        \/ (exists resp,
              textCalls tr = [inr resp]
              /\ r = inr (JS.or_else (response_text resp) placeholder))).
Proof.
  unfold analyze. rewrite run_bind.
  pose proof (fileToPart_silent (file sketch) past) as S1.
  destruct (run h (fileToPart (file sketch)) past) as [t1 [e|sketchPart]];
    cbn [fst snd] in *.
  { destruct (silent_observations _ S1) as (E1 & E2 & E3 & _).
    exists t1, (inl e). repeat split; auto. left. eauto. }
  rewrite run_bind.
  pose proof (context_silent context (past ++ t1)) as S2.
  destruct (run h _ (past ++ t1)) as [t2 [e|contextParts]] eqn:R2;
    cbn [fst snd] in *.
  { assert (S12 : Forall silent (t1 ++ t2)) by now apply Forall_app.
    destruct (silent_observations _ S12) as (E1 & E2 & E3 & _).
    exists (t1 ++ t2), (inl e). repeat split; auto. left. eauto. }
  rewrite run_bind.
  pose proof (forEach_silent references ((past ++ t1) ++ t2)) as S3.
  destruct (run h (forEach _ references) ((past ++ t1) ++ t2))
    as [t3 [e|refParts]]; cbn [fst snd] in *.
  { assert (S123 : Forall silent (t1 ++ t2 ++ t3))
      by (repeat apply Forall_app_2; assumption).
    destruct (silent_observations _ S123) as (E1 & E2 & E3 & _).
    exists (t1 ++ t2 ++ t3), (inl e). repeat split; auto. left. eauto. }
  assert (S123 : Forall silent (t1 ++ t2 ++ t3))
    by (repeat apply Forall_app_2; assumption).
  rewrite run_textCall. cbn [fst snd].
  match goal with
  | |- context [Log ?ev ?x] => set (ans := x) in *; set (event := ev) in *
  end.
  destruct (silent_prefix (t1 ++ t2 ++ t3) [Log event ans] S123)
    as (E1 & E2 & E3 & _).
  rewrite <- !app_assoc in E1, E2, E3.
  do 2 eexists. split; [reflexivity|]. rewrite E1, E2, E3.
  split; [reflexivity|]. split; [reflexivity|]. right.
  destruct ans as [e|resp]; [left|right]; eexists; split; reflexivity.
Qed.

End PipelineFacts.

Section OutcomeFacts.

Import Gemini.

Variable h : Handler.

(** What a run of the loop leaves, whatever the counter values. *)
Lemma loop_outcome (parts : list Part) (ar : string) (attempts : list Z)
    (tr : list Entry) (out : option string * option string) :
  LoopRun parts ar attempts tr out ->
  textCalls tr = []
  /\ Forall (eq parts) (imageRequests tr)
  /\ ((out = (None, None) /\ imageAttempts tr = []
       /\ attempts = [])
      \/ (out = (None, None) /\ Forall (fun n => n < MAX_RETRIES) attempts)
      \/ (imageRequests tr <> []
          /\ exists d ans,
               out = (Some d, None) /\ JS.truthy (Some d) = true
               /\ last (imageAttempts tr) = Some ans
               /\ attemptFailure ans = None)
      \/ (imageRequests tr <> []
          /\ exists ans msg,
               out = (None, Some (userMessage msg))
               /\ last (imageAttempts tr) = Some ans
               /\ attemptFailure ans = Some msg)).
Proof.
  induction 1 as [|n later ans d Hf Hd|n later ans msg Hf Hr
                  |n later ans msg u tr out Hf Hr Hloop IH].
  - repeat split; [constructor|]. left. now repeat split.
  - rewrite textCalls_call, imageRequests_call, imageAttempts_call.
    repeat split; [repeat constructor|].
    right. right. left. split; [discriminate|]. now exists d, ans.
  - rewrite textCalls_call, imageRequests_call, imageAttempts_call.
    repeat split; [repeat constructor|].
    right. right. right. split; [discriminate|]. now exists ans, msg.
  - destruct IH as (Ht & Hreq & Hcase).
    rewrite textCalls_call, textCalls_wait, imageRequests_call,
      imageRequests_wait, imageAttempts_call, imageAttempts_wait.
    apply andb_true_iff in Hr as (_ & Hn). apply Z.ltb_lt in Hn.
    split; [exact Ht|]. split; [now constructor|].
    destruct Hcase as [(-> & _ & ->)|[(-> & Hall)
                      |[(_ & d & a & -> & Hd & Hl & Ha)
                       |(_ & a & m & -> & Hl & Ha)]]].
    + right. left. split; [reflexivity|]. now repeat constructor.
    + right. left. split; [reflexivity|]. now constructor.
    + right. right. left. split; [discriminate|]. exists d, a.
      repeat split; auto. now rewrite last_cons, Hl.
    + right. right. right. split; [discriminate|]. exists a, m.
      repeat split; auto. now rewrite last_cons, Hl.
Qed.

(** With the counter running from 1 to 3 the loop always ends in success
    or in a recorded failure of its last attempt. *)
Lemma loop_outcome_three (parts : list Part) (ar : string)
    (tr : list Entry) (out : option string * option string) :
  LoopRun parts ar attemptNumbers tr out ->
  textCalls tr = []
  /\ Forall (eq parts) (imageRequests tr)
  /\ imageRequests tr <> []
  /\ ((exists d ans,
         out = (Some d, None) /\ JS.truthy (Some d) = true
         /\ last (imageAttempts tr) = Some ans
         /\ attemptFailure ans = None)
      \/ (exists ans msg,
            out = (None, Some (userMessage msg))
            /\ last (imageAttempts tr) = Some ans
            /\ attemptFailure ans = Some msg)).
Proof.
  intros Hloop. destruct (loop_outcome _ _ _ _ _ Hloop) as (Ht & Hreq & Hcase).
  split; [exact Ht|]. split; [exact Hreq|].
  destruct Hcase as [(_ & _ & E)|[(_ & Hall)|[(Hne & Hs)|(Hne & Hf)]]].
  - discriminate E.
  - exfalso. rewrite attemptNumbers_eq in Hall.
    inversion Hall as [|? ? _ H2]; subst.
    inversion H2 as [|? ? _ H3]; subst.
    inversion H3 as [|? ? H4 _]; subst.
    unfold MAX_RETRIES in H4. lia.
  - split; [exact Hne|now left].
  - split; [exact Hne|now right].
Qed.

Lemma run_imageStep (sketch : UploadedImage) (onStatusUpdate : bool)
    (masterStylePrompt : option string) (optimizedPrompt : string)
    (past : list Entry) :
  exists tr data err,
    run h (imageStep sketch onStatusUpdate masterStylePrompt optimizedPrompt)
      past = (tr, inr (data, err))
    /\ textCalls tr = []
    /\ Forall (fun parts =>
                 In (Text (imageGenPrompt masterStylePrompt optimizedPrompt))
                    parts)
              (imageRequests tr)
    /\ ((imageAttempts tr = [] /\ imageRequests tr = [] /\ data = None
         /\ err = Some "Failed to prepare image data: Failed to process image."%string)
        \/ (imageRequests tr <> []
            /\ exists d ans,
                 data = Some d /\ err = None /\ JS.truthy (Some d) = true
                 /\ last (imageAttempts tr) = Some ans
                 /\ attemptFailure ans = None)
        \/ (imageRequests tr <> []
            /\ exists ans msg,
                 data = None /\ err = Some (userMessage msg)
                 /\ last (imageAttempts tr) = Some ans
                 /\ attemptFailure ans = Some msg)).
Proof.
  unfold imageStep, synthesize. rewrite run_catch, run_bind.
  destruct (run_fileToPart h (file sketch) past) as ([e|d] & ->).
  - (* the sketch could not be prepared *)
    cbn [run fst snd]. rewrite app_nil_r.
    do 3 eexists. split; [reflexivity|].
    split; [reflexivity|]. split; [constructor|]. left. now repeat split.
  - cbn [fst snd]. rewrite run_bind.
    destruct (notify_run h onStatusUpdate generating
                (past ++ [Log (ResizeImage (file sketch)) (inr d)]))
      as (tn & -> & Hn).
    cbn [fst snd].
    match goal with
    | |- context [run h (retryLoop attemptNumbers ?parts ?ar) ?p] =>
        destruct (retryLoop_runs h parts ar attemptNumbers p)
          as (tl & [data err] & -> & Hloop);
        destruct (loop_outcome_three parts ar tl (data, err) Hloop)
          as (Ht & Hreq & Hne & Hcase)
    end.
    cbn [fst snd].
    assert (Hs : Forall silent
                   (Log (ResizeImage (file sketch)) (inr d) :: tn)).
    { constructor; [repeat split|exact Hn]. }
    destruct (silent_prefix _ tl Hs) as (E1 & E2 & E3 & _).
    change ([Log (ResizeImage (file sketch)) (inr d)] ++ tn ++ tl)
      with ((Log (ResizeImage (file sketch)) (inr d) :: tn) ++ tl).
    exists ((Log (ResizeImage (file sketch)) (inr d) :: tn) ++ tl), data, err.
    split; [reflexivity|]. rewrite E1, E2, E3.
    split; [exact Ht|]. split.
    + eapply Forall_impl; [exact Hreq|]. intros parts <-. right. now left.
    + right. destruct Hcase as [(d0 & ans & E & Hd & Hl & Ha)
                               |(ans & msg & E & Hl & Ha)];
        injection E as -> ->; [left|right]; (split; [exact Hne|]).
      * now exists d0, ans.
      * now exists ans, msg.
Qed.

Lemma run_analysisStep (sketch : UploadedImage)
    (context : option UploadedImage) (references : list UploadedImage)
    (params : GenerationParams) (userPrompt : string) (past : list Entry) :
  exists tr r,
    run h (analysisStep sketch context references params userPrompt) past
    = (tr, r)
    /\ imageAttempts tr = [] /\ imageRequests tr = []
    /\ ((textCalls tr = [] /\ exists e, r = inl e)
        \/ (exists e,
              textCalls tr = [inl e]
              /\ r = inl (JS.newError
                            ("Analysis failed: "
                             ++ JS.or_else (Some (JS.message e))
                                  "Unknown error")))
        \/ (exists resp,
              textCalls tr = [inr resp]
              /\ r = inr (JS.or_else (response_text resp) placeholder))).
Proof.
  unfold analysisStep. rewrite run_catch.
  destruct (run_analyze h sketch context references params userPrompt past)
    as (tr & r & -> & E1 & E2 & Hcase).
  destruct Hcase as [(Et & e & ->)|[(e & Et & ->)|(resp & Et & ->)]];
    cbn [run fst snd]; rewrite ?app_nil_r;
    do 2 eexists; (split; [reflexivity|]);
    (split; [exact E1|]); (split; [exact E2|]).
  - left. split; [exact Et|]. eauto.
  - right. left. exists e. split; [exact Et|reflexivity].
  - right. right. exists resp. split; [exact Et|reflexivity].
Qed.

End OutcomeFacts.

Section GenerateFacts.

Import Gemini.

Variable h : Handler.

(** The three ways a run of the pipeline can go: it stops before the text
    call is made; the text call fails; the text call is answered. *)
Lemma generate_cases (sketch : UploadedImage)
    (context : option UploadedImage) (references : list UploadedImage)
    (params : GenerationParams) (userPrompt : string)
    (onStatusUpdate : bool) (masterStylePrompt : option string)
    (past : list Entry) :
  exists tr r,
    run h (generateArchitecturalPrompt sketch context references params
             userPrompt onStatusUpdate masterStylePrompt) past = (tr, r)
    /\ ((textCalls tr = [] /\ imageAttempts tr = []
         /\ imageRequests tr = [] /\ exists e, r = inl e)
        \/ (exists e,
              textCalls tr = [inl e] /\ imageAttempts tr = []
              /\ imageRequests tr = []
              /\ r = inl (JS.newError
                            ("Analysis failed: "
                             ++ JS.or_else (Some (JS.message e))
                                  "Unknown error")))
        \/ (exists resp res,
              textCalls tr = [inr resp] /\ r = inr res
              /\ prompt res = JS.or_else (response_text resp) placeholder
              /\ Forall (fun parts =>
                           In (Text (imageGenPrompt masterStylePrompt
                                       (prompt res))) parts)
                        (imageRequests tr)
              /\ ((imageAttempts tr = [] /\ imageRequests tr = []
                   /\ imageData res = None
                   /\ error res
                      = Some "Failed to prepare image data: Failed to process image."%string)
                  \/ (imageRequests tr <> []
                      /\ exists d ans,
                           imageData res = Some d /\ error res = None
                           /\ JS.truthy (Some d) = true
                           /\ last (imageAttempts tr) = Some ans
                           /\ attemptFailure ans = None)
                  \/ (imageRequests tr <> []
                      /\ exists ans msg,
                           imageData res = None
                           /\ error res = Some (userMessage msg)
                           /\ last (imageAttempts tr) = Some ans
                           /\ attemptFailure ans = Some msg)))).
Proof.
  unfold generateArchitecturalPrompt. rewrite run_bind.
  destruct (getAIClient_run h past) as (t0 & r0 & -> & S0).
  destruct (silent_observations _ S0) as (A0 & B0 & C0 & _).
  destruct r0 as [e|[]].
  { do 2 eexists. split; [reflexivity|]. left. repeat split; eauto. }
  cbn [fst snd]. rewrite run_bind.
  destruct (notify_run h onStatusUpdate analyzing (past ++ t0))
    as (t1 & -> & S1).
  cbn [fst snd]. rewrite run_bind.
  assert (S01 : Forall silent (t0 ++ t1)) by now apply Forall_app.
  destruct (run_analysisStep h sketch context references params userPrompt
              ((past ++ t0) ++ t1)) as (t2 & r2 & -> & A2 & C2 & Hcase).
  destruct (silent_prefix (t0 ++ t1) t2 S01) as (A02 & B02 & C02 & _).
  rewrite <- app_assoc in A02, B02, C02.
  destruct Hcase as [(B2 & e & ->)|[(e & B2 & ->)|(resp & B2 & ->)]];
    cbn [fst snd].
  { (* an input image could not be prepared *)
    do 2 eexists. split; [reflexivity|]. left.
    rewrite A02, B02, C02. repeat split; eauto. }
  { (* the text call failed *)
    do 2 eexists. split; [reflexivity|]. right. left. exists e.
    rewrite A02, B02, C02. now repeat split. }
  (* the text call was answered *)
  cbn [fst snd]. rewrite run_bind.
  set (optimizedPrompt := JS.or_else (response_text resp) placeholder).
  destruct (run_imageStep h sketch onStatusUpdate masterStylePrompt
              optimizedPrompt (((past ++ t0) ++ t1) ++ t2))
    as (t3 & data & err & -> & B3 & Hreq & Himg).
  cbn [fst snd bind perform run].
  set (n1 := h _ Z DateNow). set (n2 := h _ Z DateNow).
  set (tail := [Log DateNow n1; Log DateNow n2]).
  assert (St : Forall silent tail) by (repeat constructor).
  destruct (silent_suffix t3 tail St) as (A3 & B3' & C3 & _).
  destruct (observations_app (t0 ++ t1 ++ t2) (t3 ++ tail))
    as (OA & OB & OC).
  rewrite A3, B3', C3, A02, B02, C02, A2, B2, C2, B3 in *.
  cbn [app] in OA, OB, OC.
  replace (t0 ++ t1 ++ t2 ++ t3 ++ tail)
    with ((t0 ++ t1 ++ t2) ++ t3 ++ tail) by now rewrite <- !app_assoc.
  do 2 eexists. split; [reflexivity|]. right. right.
  exists resp. eexists. rewrite OA, OB, OC.
  split; [reflexivity|]. split; [reflexivity|]. split; [reflexivity|].
  split; [exact Hreq|]. cbn [imageData error fst snd]. exact Himg.
Qed.

End GenerateFacts.

Section PipelineTheorems.

Import Gemini.

Lemma or_else_falsy (s : option string) (d : string) :
  JS.truthy s = false -> JS.or_else s d = d.
Proof. destruct s as [[|c s]|]; simpl; intros H; congruence. Qed.

Variables (h : Handler) (past : list Entry).
Variables (sketch : UploadedImage) (context : option UploadedImage)
  (references : list UploadedImage) (params : GenerationParams)
  (userPrompt : string) (onStatusUpdate : bool)
  (masterStylePrompt : option string).

Let R :=
  run h (generateArchitecturalPrompt sketch context references params
           userPrompt onStatusUpdate masterStylePrompt) past.

(** C2. When the text call of a run is answered, the pipeline returns a
    result and does not throw, whatever the image calls do.  The result's
    prompt is the refined text.  It carries either image data and no
    error, or no image and an error; when the last image attempt failed
    with message [msg], the image is absent and the error is the wording
    the code chooses for [msg]: the quota wording for a quota message, the
    refusal wording for a safety message, and otherwise the first hundred
    characters of [msg] behind the words Generation Failed. *)
Theorem generate_partial_success (resp : Response)
    (Htext : In (inr resp) (textCalls (fst R))) :
  exists res : PromptResult,
    snd R = inr res
    /\ prompt res = JS.or_else (response_text resp) placeholder
    /\ ((exists d, imageData res = Some d /\ error res = None)
        \/ (imageData res = None /\ exists m, error res = Some m))
    /\ (forall ans msg,
           last (imageAttempts (fst R)) = Some ans ->
           attemptFailure ans = Some msg ->
           imageData res = None
           /\ error res = Some (userMessage msg)
           /\ match classify msg with
              | quota_exceeded => userMessage msg = quotaMessage
              | safety_blocked => userMessage msg = safetyMessage
              | fatal_other =>
                  userMessage msg
                  = ("Generation Failed: " ++ JS.slice0 100 msg ++ "...")%string
              | overloaded =>
                  userMessage msg = safetyMessage
                  \/ userMessage msg
                     = ("Generation Failed: " ++ JS.slice0 100 msg
                        ++ "...")%string
              end)
    /\ (imageAttempts (fst R) = [] ->
        imageData res = None
        /\ error res
           = Some "Failed to prepare image data: Failed to process image."%string).
Proof.
  subst R.
  destruct (generate_cases h sketch context references params userPrompt
              onStatusUpdate masterStylePrompt past)
    as (tr & r & E & Hcase).
  rewrite E in *. cbn [fst snd] in *.
  destruct Hcase as [(Ht & _)|[(e & Ht & _)
                    |(resp' & res & Ht & -> & Hp & _ & Himg)]];
    rewrite Ht in Htext; cbn [In] in Htext.
  - contradiction.
  - destruct Htext as [Htext|[]]. discriminate Htext.
  - destruct Htext as [Htext|[]]. injection Htext as ->.
    exists res. split; [reflexivity|]. split; [exact Hp|].
    destruct Himg as [(Ha & _ & Hd & He)
                     |[(_ & d & ans0 & Hd & He & _ & Hl & Hf)
                      |(_ & ans0 & msg0 & Hd & He & Hl & Hf)]].
    + split; [right; eauto|]. split.
      * intros ans msg Hlast. rewrite Ha in Hlast. discriminate Hlast.
      * intros _. now split.
    + split; [left; eauto|]. split.
      * intros ans msg Hlast Hfail. rewrite Hl in Hlast.
        injection Hlast as <-. congruence.
      * intros Hnil. rewrite Hnil in Hl. discriminate Hl.
    + split; [right; eauto|]. split.
      * intros ans msg Hlast Hfail. rewrite Hl in Hlast.
        injection Hlast as <-. rewrite Hf in Hfail. injection Hfail as <-.
        split; [exact Hd|]. split; [exact He|].
        apply userMessage_by_class.
      * intros Hnil. rewrite Hnil in Hl. discriminate Hl.
Qed.

(** C4. When the text call of a run fails, the pipeline throws an
    analysis-failure error carrying the failure's message, returns no
    result, partial or whole, and the run contains no image-synthesis
    call. *)
Theorem analysis_failure_aborts (e : JS.Error)
    (Htext : In (inl e) (textCalls (fst R))) :
  snd R
  = inl (JS.newError
           ("Analysis failed: "
            ++ JS.or_else (Some (JS.message e)) "Unknown error"))
  /\ imageAttempts (fst R) = []
  /\ imageRequests (fst R) = []
  /\ (forall res, snd R <> inr res).
Proof.
  subst R.
  destruct (generate_cases h sketch context references params userPrompt
              onStatusUpdate masterStylePrompt past)
    as (tr & r & E & Hcase).
  rewrite E in *. cbn [fst snd] in *.
  destruct Hcase as [(Ht & _)|[(e' & Ht & Ha & Hq & ->)
                    |(resp' & res & Ht & _)]];
    rewrite Ht in Htext; cbn [In] in Htext.
  - contradiction.
  - destruct Htext as [Htext|[]]. injection Htext as ->.
    repeat split; auto; intros res; discriminate.
  - destruct Htext as [Htext|[]]. discriminate Htext.
Qed.

(** C10. When the text call of a run is answered with empty or missing
    text, the pipeline does not throw: the result's prompt is the
    placeholder; every image-synthesis call of the run carries the
    instruction built from the placeholder, whose description line reads
    the placeholder in full, it being shorter than 800 characters; and
    such a call is made unless the sketch could not be prepared for it. *)
Theorem empty_analysis_uses_placeholder (resp : Response)
    (Htext : In (inr resp) (textCalls (fst R)))
    (Hempty : JS.truthy (response_text resp) = false) :
  exists res : PromptResult,
    snd R = inr res
    /\ prompt res = "Prompt generation failed."%string
    /\ Forall (fun parts =>
                 In (Text (imageGenPrompt masterStylePrompt
                             "Prompt generation failed.")) parts)
              (imageRequests (fst R))
    /\ JS.slice0 800 "Prompt generation failed."
       = "Prompt generation failed."%string
    /\ imageGenPrompt masterStylePrompt "Prompt generation failed."
       = ("
        Create a photorealistic architectural rendering.
        " ++ (if JS.truthy masterStylePrompt
              then "STYLE: " ++ default EmptyString masterStylePrompt
              else "Style: Photorealistic, 8k, Unreal Engine 5.") ++ "
        DESCRIPTION: Prompt generation failed.
        CONSTRAINTS: Use sketch geometry strictly. High fidelity.
      ")%string
    /\ (imageRequests (fst R) <> []
        \/ error res
           = Some "Failed to prepare image data: Failed to process image."%string).
Proof.
  subst R.
  destruct (generate_cases h sketch context references params userPrompt
              onStatusUpdate masterStylePrompt past)
    as (tr & r & E & Hcase).
  rewrite E in *. cbn [fst snd] in *.
  destruct Hcase as [(Ht & _)|[(e & Ht & _)
                    |(resp' & res & Ht & -> & Hp & Hreq & Himg)]];
    rewrite Ht in Htext; cbn [In] in Htext.
  - contradiction.
  - destruct Htext as [Htext|[]]. discriminate Htext.
  - destruct Htext as [Htext|[]]. injection Htext as ->.
    rewrite (or_else_falsy _ _ Hempty) in Hp. unfold placeholder in Hp.
    exists res. split; [reflexivity|]. split; [exact Hp|].
    split; [now rewrite Hp in Hreq|].
    split; [reflexivity|]. split; [reflexivity|].
    destruct Himg as [(_ & _ & _ & He)|[(Hne & _)|(Hne & _)]]; auto.
Qed.

End PipelineTheorems.

(** *** The theorems on scripted runs *)

Section ScriptedRuns.

Import Gemini.

(** The text call answers with a description; every image attempt is
    turned away as overloaded. *)
Lemma generate_partial_success_witness :
  let answer := mkResponse (Some "A glass tower at dusk."%string) None in
  let busy := inl (JS.mkError "503 Service Unavailable" "{}") in
  let R := exampleRun (scripted "key" (inr answer) (fun _ => busy)) in
  In (inr answer) (textCalls (fst R))
  /\ exists res,
       snd R = inr res
       /\ prompt res = "A glass tower at dusk."%string
       /\ imageData res = None
       /\ error res
          = Some "Generation Failed: 503 Service Unavailable..."%string
       /\ length (imageAttempts (fst R)) = 3%nat.
Proof.
  intros answer busy R.
  assert (Htext : In (inr answer) (textCalls (fst R)))
    by (vm_compute; now left).
  split; [exact Htext|].
  destruct (generate_partial_success
              (scripted "key" (inr answer) (fun _ => busy)) []
              exampleSketch None [] exampleParams EmptyString true None
              answer Htext) as (res & E & Hp & _ & Hlast & _).
  exists res. split; [exact E|]. split; [exact Hp|].
  destruct (Hlast busy "503 Service Unavailable"%string)
    as (Hd & He & _); [vm_compute; reflexivity|reflexivity|].
  split; [exact Hd|]. split; [exact He|]. vm_compute. reflexivity.
Defined.

(** The text call is refused. *)
Lemma analysis_failure_aborts_witness :
  let refused := JS.mkError "401 Unauthorized" "{}" in
  let R := exampleRun
             (scripted "key" (inl refused)
                (fun _ => inr (mkResponse None None))) in
  In (inl refused) (textCalls (fst R))
  /\ snd R = inl (JS.newError "Analysis failed: 401 Unauthorized")
  /\ imageAttempts (fst R) = [].
Proof.
  intros refused R.
  assert (Htext : In (inl refused) (textCalls (fst R)))
    by (vm_compute; now left).
  split; [exact Htext|].
  destruct (analysis_failure_aborts
              (scripted "key" (inl refused)
                 (fun _ => inr (mkResponse None None))) []
              exampleSketch None [] exampleParams EmptyString true None
              refused Htext) as (E & Ha & _).
  split; [exact E|exact Ha].
Defined.

(** The text call answers with no text; the first image attempt delivers
    data. *)
Lemma empty_analysis_uses_placeholder_witness :
  let answer := mkResponse None None in
  let image :=
    inr (mkResponse None
           (Some [mkResponsePart (Some (Some "AAAA"%string)) None])) in
  let R := exampleRun (scripted "key" (inr answer) (fun _ => image)) in
  In (inr answer) (textCalls (fst R))
  /\ JS.truthy (response_text answer) = false
  /\ exists res,
       snd R = inr res
       /\ prompt res = "Prompt generation failed."%string
       /\ imageData res = Some "AAAA"%string
       /\ length (imageRequests (fst R)) = 1%nat.
Proof.
  intros answer image R.
  assert (Htext : In (inr answer) (textCalls (fst R)))
    by (vm_compute; now left).
  split; [exact Htext|]. split; [reflexivity|].
  destruct (empty_analysis_uses_placeholder
              (scripted "key" (inr answer) (fun _ => image)) []
              exampleSketch None [] exampleParams EmptyString true None
              answer Htext eq_refl) as (res & E & Hp & _).
  exists res. split; [exact E|]. split; [exact Hp|].
  assert (Eres : snd R = inr (mkPromptResult "1700000000000"
                                "Prompt generation failed."
                                (Some "AAAA"%string) None 1700000000000))
    by (vm_compute; reflexivity).
  change (snd R = inr res) in E.
  rewrite Eres in E. injection E as <-.
  split; [reflexivity|]. vm_compute. reflexivity.
Defined.

(** A first attempt refused on safety grounds is the only attempt. *)
Lemma retrier_attempts_and_delays_witness :
  let refusal :=
    inl (JS.mkError "Safety filter: request blocked" "{}") in
  let R := run (scripted "key" (inl (JS.newError "unused"))
                  (fun _ => refusal))
             (retryLoop attemptNumbers [] "16:9") [] in
  length (imageAttempts (fst R)) = 1%nat
  /\ snd R = inr (None, Some safetyMessage).
Proof.
  intros refusal R.
  destruct (retrier_attempts_and_delays
              (scripted "key" (inl (JS.newError "unused"))
                 (fun _ => refusal)) [] [] "16:9")
    as (data & err & E & _ & _ & _ & Hsafe).
  destruct (Hsafe 0%nat refusal "Safety filter: request blocked"%string)
    as (Hlen & -> & ->); [vm_compute; reflexivity|reflexivity
                         |vm_compute; reflexivity|].
  split; [exact Hlen|exact E].
Defined.

End ScriptedRuns.

(** * Further properties *)

(** ** Data URLs *)

Section DataUrlFacts.
Import DataUrl.

Lemma afterComma_app_free (header rest : string) :
  afterComma header = None ->
  afterComma (header ++ String comma rest) = Some rest
  /\ untilComma (header ++ String comma rest) = header.
Proof.
  induction header as [|c header IH]; simpl; intros H.
  - split; reflexivity.
  - destruct (Ascii.eqb c comma); [discriminate|].
    destruct (IH H) as (-> & ->). split; reflexivity.
Qed.

Lemma untilComma_free (s : string) : afterComma s = None -> untilComma s = s.
Proof.
  induction s as [|c s IH]; simpl; intros H; [reflexivity|].
  destruct (Ascii.eqb c comma); [discriminate|]. now rewrite IH.
Qed.

Lemma untilComma_has_none (s : string) : afterComma (untilComma s) = None.
Proof.
  induction s as [|c s IH]; simpl; [reflexivity|].
  destruct (Ascii.eqb c comma) eqn:E; simpl; [reflexivity|]. now rewrite E.
Qed.

Lemma includes_comma (s : string) :
  JS.includes "," s = true <-> afterComma s <> None.
Proof.
  induction s as [|c s IH].
  - simpl. split; [discriminate|congruence].
  - cbn [JS.includes String.prefix afterComma].
    change (ascii_dec "," c) with (ascii_dec comma c).
    destruct (ascii_dec comma c) as [<-|Hne].
    + rewrite Ascii.eqb_refl.
      replace (String.prefix EmptyString s) with true by now destruct s.
      split; [discriminate|reflexivity].
    + assert (E : Ascii.eqb c comma = false)
        by (apply Ascii.eqb_neq; congruence).
      rewrite E. exact IH.
Qed.

(** X4. Taking the second comma-separated field of a data URL gives back
    its payload: for any header and payload without a comma, and in
    particular for the [data:image/png;base64,] header the components put
    in front of a base64 payload. *)
Theorem data_url_payload_roundtrip (header payload : string)
    (Hheader : afterComma header = None)
    (Hpayload : afterComma payload = None) :
  splitSecond (header ++ "," ++ payload) = Some payload
  /\ splitSecond (pngDataUrl payload) = Some payload
  /\ splitSecond header = None.
Proof.
  assert (Hgen : forall hd, afterComma hd = None ->
            splitSecond (hd ++ String comma payload) = Some payload).
  { intros hd Hhd. unfold splitSecond.
    destruct (afterComma_app_free hd payload Hhd) as (-> & _).
    simpl. now rewrite untilComma_free. }
  split; [exact (Hgen header Hheader)|]. split.
  - exact (Hgen "data:image/png;base64"%string eq_refl).
  - unfold splitSecond. now rewrite Hheader.
Qed.

(** X5. The first revision of [fileToPart] resolves exactly when the
    reader's result contains a comma; the part it resolves with carries
    the file's type and the text between the first and the second comma,
    which for a data URL is the payload; every other result, a missing one
    included, is rejected with the message Failed to process image
    file. *)
Theorem fileToPart_v1_outcome (result : option string) (fileType : string) :
  (forall part,
      fileToPart_v1 result fileType = inr part ->
      exists s d,
        result = Some s /\ afterComma s <> None
        /\ splitSecond s = Some d /\ afterComma d = None
        /\ part = Gemini.InlineData d fileType)
  /\ (forall s,
         result = Some s -> afterComma s <> None ->
         exists d, fileToPart_v1 result fileType
                   = inr (Gemini.InlineData d fileType))
  /\ (forall e,
         fileToPart_v1 result fileType = inl e ->
         e = JS.newError "Failed to process image file."
         /\ (result = None
             \/ exists s, result = Some s /\ afterComma s = None))
  /\ (forall header payload,
         afterComma header = None -> afterComma payload = None ->
         result = Some (header ++ "," ++ payload)%string ->
         fileToPart_v1 result fileType
         = inr (Gemini.InlineData payload fileType)).
Proof.
  assert (Hcase : forall s,
            (afterComma s = None
             /\ fileToPart_v1 (Some s) fileType
                = inl (JS.newError "Failed to process image file."))
            \/ (exists rest,
                  afterComma s = Some rest
                  /\ fileToPart_v1 (Some s) fileType
                     = inr (Gemini.InlineData (untilComma rest) fileType))).
  { intros s. unfold fileToPart_v1, splitSecond.
    destruct (afterComma s) as [rest|] eqn:E.
    - right. exists rest. split; [reflexivity|].
      assert (Hinc : JS.includes "," s = true)
        by (apply includes_comma; congruence).
      rewrite Hinc.
      assert (Ht : JS.truthy (Some s) = true)
        by (destruct s; [discriminate E|reflexivity]).
      rewrite Ht. reflexivity.
    - left. split; [reflexivity|].
      assert (Hinc : JS.includes "," s = false).
      { destruct (JS.includes "," s) eqn:Ei; [|reflexivity].
        apply includes_comma in Ei. congruence. }
      rewrite Hinc. now rewrite orb_true_r. }
  repeat split.
  - intros part H. destruct result as [s|]; [|discriminate H].
    destruct (Hcase s) as [(_ & E)|(rest & Ea & E)];
      rewrite E in H; [discriminate H|]. injection H as <-.
    exists s, (untilComma rest). repeat split.
    + congruence.
    + unfold splitSecond. now rewrite Ea.
    + apply untilComma_has_none.
  - intros s -> Hs.
    destruct (Hcase s) as [(Ea & _)|(rest & _ & E)]; [congruence|].
    eexists. exact E.
  - destruct result as [s|]; [|now injection H as <-].
    destruct (Hcase s) as [(_ & E)|(rest & _ & E)]; rewrite E in H;
      [now injection H as <-|discriminate H].
  - destruct result as [s|]; [|now left].
    destruct (Hcase s) as [(Ea & _)|(rest & _ & E)];
      [right; now exists s|]. rewrite E in H. discriminate H.
  - intros header payload Hh Hp ->.
    destruct (afterComma_app_free header payload Hh) as (Ea & _).
    destruct (Hcase (header ++ String comma payload)%string)
      as [(En & _)|(rest & Er & E)].
    + change ("," ++ payload)%string with (String comma payload) in *.
      congruence.
    + change ("," ++ payload)%string with (String comma payload).
      rewrite E. rewrite Ea in Er. injection Er as <-.
      now rewrite untilComma_free.
Qed.

Lemma data_url_payload_roundtrip_witness :
  splitSecond (pngDataUrl "iVBORw0KGgo=") = Some "iVBORw0KGgo="%string.
Proof.
  now destruct (data_url_payload_roundtrip "data:image/png;base64"
                  "iVBORw0KGgo=" eq_refl eq_refl) as (_ & H & _).
Defined.

End DataUrlFacts.

(** ** The other entry points of the service *)

Section ServiceFacts.

Import Gemini Service.

Variable h : Handler.

(** X7. [optimizeUserPrompt] never throws.  For an input that is empty
    or white space only it returns the empty string without reading the
    key or calling the model.  Otherwise it returns either the input as it
    was given, or the trimmed, non-empty text of the one answer the text
    model gave; it returns the input whenever the key is missing (and then
    makes no call) and whenever the call fails.  It makes at most one text
    call, no image call, and never waits. *)
Theorem optimizeUserPrompt_never_fails (past : list Entry)
    (inputPrompt language : string) :
  let R := run h (optimizeUserPrompt inputPrompt language) past in
  exists out,
    snd R = inr out
    /\ (trim inputPrompt = EmptyString -> fst R = [] /\ out = EmptyString)
    /\ (trim inputPrompt <> EmptyString ->
        (out = inputPrompt
         \/ exists resp t,
              textCalls (fst R) = [inr resp]
              /\ response_text resp = Some t
              /\ out = trim t /\ out <> EmptyString)
        /\ (h past _ ReadApiKey = EmptyString ->
            out = inputPrompt /\ textCalls (fst R) = [])
        /\ (forall e, In (inl e) (textCalls (fst R)) -> out = inputPrompt))
    /\ imageAttempts (fst R) = [] /\ waits (fst R) = []
    /\ (length (textCalls (fst R)) <= 1)%nat.
Proof.
  intros R. subst R. unfold optimizeUserPrompt.
  destruct (trim inputPrompt) as [|c0 s0] eqn:Etrim.
  { cbn. exists EmptyString. repeat split; auto; try congruence. }
  cbn [JS.truthy negb]. unfold getAIClient, perform, await.
  cbn [bind catch run].
  destruct (h past _ ReadApiKey) as [|k0 ks] eqn:Ekey.
  { cbn. exists inputPrompt. repeat split; auto; try congruence;
      try (now intros e []). }
  cbn [JS.truthy bind catch run].
  match goal with
  | |- context [Log (GenerateContent ?m ?p ?c) ?x] =>
      set (ans := x) in *
  end.
  destruct ans as [e|resp] eqn:Eans.
  { cbn. exists inputPrompt. repeat split; auto; try congruence; lia. }
  cbn. exists (JS.or_else (option_map trim (response_text resp)) inputPrompt).
  repeat split; auto; try congruence.
  - destruct (response_text resp) as [t|] eqn:Et; [|now left].
    cbn [option_map]. destruct (trim t) as [|c1 s1] eqn:Ett; [now left|].
    right. exists resp, t. repeat split; auto.
  - intros e [He|[]]. discriminate He.
Qed.

(** One image-model call guarded by the key check, with its failures
    rewrapped: the common shape of the style and edit entry points. *)
Lemma run_guarded_call (past : list Entry) (parts : list Part)
    (noData prefix : string) :
  let p :=
    do! getAIClient in
    catch (let! response :=
             await (GenerateContent imageModel parts
                      (mkConfig None SAFETY_SETTINGS)) in
           match firstInlineData response with
           | Some data =>
               if JS.truthy (Some data) then Ret data
               else Throw (JS.newError noData)
           | None => Throw (JS.newError noData)
           end)
          (fun error => Throw (JS.newError (prefix ++ JS.message error))) in
  let key := h past _ ReadApiKey in
  let ev := GenerateContent imageModel parts (mkConfig None SAFETY_SETTINGS) in
  let ans := h (past ++ [Log ReadApiKey key]) _ ev in
  run h p past
  = if JS.truthy (Some key) then
      ([Log ReadApiKey key; Log ev ans],
       match ans with
       | inl e => inl (JS.newError (prefix ++ JS.message e))
       | inr resp =>
           if JS.truthy (firstInlineData resp)
           then inr (default EmptyString (firstInlineData resp))
           else inl (JS.newError (prefix ++ noData))
       end)
    else ([Log ReadApiKey key], inl missingKey).
Proof.
  intros p key ev ans. subst p. unfold getAIClient, perform, await.
  cbn [bind catch run]. fold key.
  destruct (JS.truthy (Some key)); [|reflexivity].
  cbn [bind catch run]. fold ev. fold ans.
  destruct ans as [e|resp]; [reflexivity|]. cbn [bind].
  destruct (firstInlineData resp) as [d|]; [|reflexivity].
  destruct d; reflexivity.
Qed.


Lemma guarded_call_outcome (past : list Entry) (parts : list Part)
    (noData prefix : string) :
  let R :=
    run h
      (do! getAIClient in
       catch (let! response :=
                await (GenerateContent imageModel parts
                         (mkConfig None SAFETY_SETTINGS)) in
              match firstInlineData response with
              | Some data =>
                  if JS.truthy (Some data) then Ret data
                  else Throw (JS.newError noData)
              | None => Throw (JS.newError noData)
              end)
             (fun error => Throw (JS.newError (prefix ++ JS.message error))))
      past in
  let request := (parts, mkConfig None SAFETY_SETTINGS) in
  (imageCalls (fst R) = [] \/ imageCalls (fst R) = [request])
  /\ waits (fst R) = [] /\ textCalls (fst R) = []
  /\ (forall d,
         snd R = inr d ->
         d <> EmptyString
         /\ exists resp,
              imageAttempts (fst R) = [inr resp]
              /\ firstInlineData resp = Some d)
  /\ (forall resp d,
         imageAttempts (fst R) = [inr resp] ->
         firstInlineData resp = Some d -> d <> EmptyString ->
         snd R = inr d)
  /\ (forall e,
         snd R = inl e ->
         (e = missingKey /\ imageCalls (fst R) = [])
         \/ (exists err,
               imageAttempts (fst R) = [inl err]
               /\ e = JS.newError (prefix ++ JS.message err))
         \/ (exists resp,
               imageAttempts (fst R) = [inr resp]
               /\ JS.truthy (firstInlineData resp) = false
               /\ e = JS.newError (prefix ++ noData))).
Proof.
  intros R request. subst R request. rewrite run_guarded_call.
  destruct (JS.truthy (Some (h past _ ReadApiKey))).
  2:{ cbn. repeat split; auto; try discriminate.
      intros e [= <-]. now left. }
  match goal with
  | |- context [Log (GenerateContent ?m ?p ?c) ?x] => set (ans := x) in *
  end.
  split; [now right|]. split; [reflexivity|]. split; [reflexivity|].
  change (imageAttempts (fst ([Log ReadApiKey (h past _ ReadApiKey);
            Log (GenerateContent imageModel parts
                   (mkConfig None SAFETY_SETTINGS)) ans], ?[r])))
    with [ans].
  cbn [fst snd].
  destruct ans as [err|resp].
  - split; [intros d Hd; discriminate Hd|].
    split; [intros resp d Hr; discriminate Hr|].
    intros e [= <-]. right. left. now exists err.
  - destruct (firstInlineData resp) as [[|c d0]|] eqn:Ed; cbn.
    + split; [intros d Hd; discriminate Hd|].
      split; [intros resp' d [= <-]; congruence|].
      intros e [= <-]. right. right. exists resp. now rewrite Ed.
    + split.
      { intros d [= <-]. split; [discriminate|]. now exists resp. }
      split; [intros resp' d [= <-]; congruence|].
      intros e He. discriminate He.
    + split; [intros d Hd; discriminate Hd|].
      split; [intros resp' d [= <-]; congruence|].
      intros e [= <-]. right. right. exists resp. now rewrite Ed.
Qed.

(** X8. [applyMasterStyle] makes at most one call of the image model,
    with the current image as a PNG part followed by the style
    instruction and with the safety settings and no aspect ratio; it makes
    no text call and never waits or retries.  A value it returns is the
    non-empty data of the first inline part of the answer, and such an
    answer is always returned.  An error it throws is either the
    missing-key error, thrown before any call, or Filter failed: followed
    by the message of the failed call, or Filter failed: No image
    returned. when the answer has no inline data. *)
Theorem applyMasterStyle_outcome (past : list Entry)
    (currentImageBase64 originalPrompt stylePrompt : string) :
  let R := run h (applyMasterStyle currentImageBase64 originalPrompt
                    stylePrompt) past in
  let request :=
    ([InlineData currentImageBase64 "image/png";
      Text (styleInstruction stylePrompt)],
     mkConfig None SAFETY_SETTINGS) in
  (imageCalls (fst R) = [] \/ imageCalls (fst R) = [request])
  /\ waits (fst R) = [] /\ textCalls (fst R) = []
  /\ (forall d,
         snd R = inr d ->
         d <> EmptyString
         /\ exists resp,
              imageAttempts (fst R) = [inr resp]
              /\ firstInlineData resp = Some d)
  /\ (forall resp d,
         imageAttempts (fst R) = [inr resp] ->
         firstInlineData resp = Some d -> d <> EmptyString ->
         snd R = inr d)
  /\ (forall e,
         snd R = inl e ->
         (e = missingKey /\ imageCalls (fst R) = [])
         \/ (exists err,
               imageAttempts (fst R) = [inl err]
               /\ e = JS.newError ("Filter failed: " ++ JS.message err))
         \/ (exists resp,
               imageAttempts (fst R) = [inr resp]
               /\ JS.truthy (firstInlineData resp) = false
               /\ e = JS.newError "Filter failed: No image returned.")).
Proof.
  exact (guarded_call_outcome past
           (styleParts currentImageBase64 stylePrompt)
           "No image returned." "Filter failed: ").
Qed.

(** X9. [editArchitecturalImage] makes at most one call of the image
    model, with the original image, then the mask, both as PNG parts, then
    the edit instruction, and with the safety settings and no aspect
    ratio; it makes no text call and never waits or retries.  A value it
    returns is the non-empty data of the first inline part of the answer,
    and such an answer is always returned.  An error it throws is either
    the missing-key error, thrown before any call, or Edit failed:
    followed by the message of the failed call, or Edit failed: No edited
    image returned. when the answer has no inline data. *)
Theorem editArchitecturalImage_outcome (past : list Entry)
    (originalImageBase64 maskImageBase64 editPrompt : string) :
  let R := run h (editArchitecturalImage originalImageBase64
                    maskImageBase64 editPrompt) past in
  let request :=
    ([InlineData originalImageBase64 "image/png";
      InlineData maskImageBase64 "image/png";
      Text (editInstruction editPrompt)],
     mkConfig None SAFETY_SETTINGS) in
  (imageCalls (fst R) = [] \/ imageCalls (fst R) = [request])
  /\ waits (fst R) = [] /\ textCalls (fst R) = []
  /\ (forall d,
         snd R = inr d ->
         d <> EmptyString
         /\ exists resp,
              imageAttempts (fst R) = [inr resp]
              /\ firstInlineData resp = Some d)
  /\ (forall resp d,
         imageAttempts (fst R) = [inr resp] ->
         firstInlineData resp = Some d -> d <> EmptyString ->
         snd R = inr d)
  /\ (forall e,
         snd R = inl e ->
         (e = missingKey /\ imageCalls (fst R) = [])
         \/ (exists err,
               imageAttempts (fst R) = [inl err]
               /\ e = JS.newError ("Edit failed: " ++ JS.message err))
         \/ (exists resp,
               imageAttempts (fst R) = [inr resp]
               /\ JS.truthy (firstInlineData resp) = false
               /\ e = JS.newError "Edit failed: No edited image returned.")).
Proof.
  exact (guarded_call_outcome past
           (editParts originalImageBase64 maskImageBase64 editPrompt)
           "No edited image returned." "Edit failed: ").
Qed.

End ServiceFacts.

(** ** A pipeline run, effect by effect *)

Section ProtocolFacts.

Import Gemini Service.

Variable h : Handler.

(** *** Kinds and calls of a trace *)

Lemma imageCall_request (e : Entry) :
  imageRequest e = None -> imageCallOf e = None.
Proof.
  destruct e as [X ev x]. destruct ev; cbn; try reflexivity.
  now destruct (String.eqb model imageModel).
Qed.

Lemma silent_imageCalls (tr : list Entry) :
  Forall silent tr -> imageCalls tr = [].
Proof.
  induction 1 as [|e tr (_ & _ & H3 & _) _ IH]; [reflexivity|].
  unfold imageCalls in *. cbn [omap list_omap].
  now rewrite (imageCall_request e H3), IH.
Qed.

Lemma requests_imageCalls (tr : list Entry) :
  imageRequests tr = [] -> imageCalls tr = [].
Proof.
  unfold imageRequests, imageCalls.
  induction tr as [|e tr IH]; [reflexivity|]. cbn [omap list_omap].
  destruct (imageRequest e) eqn:E; [discriminate|].
  rewrite (imageCall_request e E). exact IH.
Qed.

Lemma imageCalls_app (t1 t2 : list Entry) :
  imageCalls (t1 ++ t2) = imageCalls t1 ++ imageCalls t2.
Proof. unfold imageCalls. now rewrite omap_app. Qed.

Lemma kinds_repeat_app (a b : nat) :
  repeat KResize a ++ repeat KResize b = repeat KResize (a + b).
Proof. now rewrite repeat_app. Qed.

(** *** The segments of a run *)

Lemma notify_kinds (b : bool) (s : Status) (past : list Entry) :
  map kindOf (fst (run h (notify b s) past)) = notified b s
  /\ snd (run h (notify b s) past) = inr tt.
Proof. destruct b; cbn; [now destruct (h past unit (StatusUpdate s))|auto]. Qed.

Lemma fileToPart_kinds (f : File) (past : list Entry) :
  map kindOf (fst (run h (fileToPart f) past)) = [KResize].
Proof. now destruct (run_fileToPart h f past) as (ans & ->). Qed.

Lemma forEach_kinds (l : list UploadedImage) :
  forall past,
    let R := run h (forEach (fun ref => fileToPart (file ref)) l) past in
    exists k,
      map kindOf (fst R) = repeat KResize k
      /\ match snd R with
         | inr _ => k = length l
         | inl _ => (1 <= k <= length l)%nat
         end.
Proof.
  induction l as [|x l IH]; intros past R; subst R.
  { exists 0%nat. now split. }
  cbn [forEach]. rewrite run_bind.
  pose proof (fileToPart_kinds (file x) past) as K1.
  destruct (run h (fileToPart (file x)) past) as [t1 [e|a]];
    cbn [fst snd] in *.
  { exists 1%nat. split; [exact K1|]. cbn [length]. lia. }
  rewrite run_bind.
  destruct (IH (past ++ t1)) as (k & K2 & Hk).
  destruct (run h (forEach (fun ref => fileToPart (file ref)) l) (past ++ t1))
    as [t2 [e|bs]]; cbn [fst snd run] in *;
    rewrite ?app_nil_r, map_app, K1, K2; exists (S k);
    (split; [reflexivity|]); cbn [length]; lia.
Qed.

Lemma analyze_kinds (sketch : UploadedImage) (context : option UploadedImage)
    (references : list UploadedImage) (params : GenerationParams)
    (userPrompt : string) (past : list Entry) :
  let R := run h (analyze sketch context references params userPrompt) past in
  let n := inputs context references in
  (exists e k, snd R = inl e /\ (1 <= k <= n)%nat
               /\ map kindOf (fst R) = repeat KResize k)
  \/ (exists e, snd R = inl e
                /\ map kindOf (fst R) = repeat KResize n ++ [KText])
  \/ (exists p, snd R = inr p
                /\ map kindOf (fst R) = repeat KResize n ++ [KText]).
Proof.
  intros R n. subst R n. unfold analyze, inputs. rewrite run_bind.
  pose proof (fileToPart_kinds (file sketch) past) as K1.
  destruct (run h (fileToPart (file sketch)) past) as [t1 [e|sketchPart]];
    cbn [fst snd] in *.
  { left. exists e, 1%nat. repeat split; auto; lia. }
  rewrite run_bind.
  assert (K2 : let C := run h (match context with
                               | Some c => let! p := fileToPart (file c) in
                                           Ret [p]
                               | None => Ret []
                               end) (past ++ t1) in
               map kindOf (fst C)
               = repeat KResize (length (option_list context))).
  { destruct context as [c|]; [|reflexivity]. cbn zeta.
    rewrite run_bind.
    pose proof (fileToPart_kinds (file c) (past ++ t1)) as Kc.
    destruct (run h (fileToPart (file c)) (past ++ t1)) as [tc [e|a]];
      cbn [fst snd run] in *; rewrite ?app_nil_r; exact Kc. }
  cbn zeta in K2.
  destruct (run h _ (past ++ t1)) as [t2 [e|contextParts]] eqn:R2;
    cbn [fst snd] in *.
  { left. exists e, (1 + length (option_list context))%nat.
    split; [reflexivity|]. split; [lia|].
    now rewrite map_app, K1, K2. }
  rewrite run_bind.
  destruct (forEach_kinds references ((past ++ t1) ++ t2)) as (k & K3 & Hk).
  destruct (run h (forEach _ references) ((past ++ t1) ++ t2))
    as [t3 [e|refParts]]; cbn [fst snd] in *.
  { left. exists e, (1 + length (option_list context) + k)%nat.
    split; [reflexivity|]. split; [lia|].
    rewrite !map_app, K1, K2, K3. change [KResize] with (repeat KResize 1).
    now rewrite !kinds_repeat_app, Nat.add_assoc. }
  subst k. rewrite run_textCall. cbn [fst snd].
  match goal with
  | |- context [Log ?ev ?x] => set (ans := x) in *; set (event := ev) in *
  end.
  assert (K : map kindOf (t1 ++ t2 ++ t3 ++ [Log event ans])
              = repeat KResize
                  (S (length (option_list context) + length references))
                ++ [KText]).
  { rewrite !map_app, K1, K2, K3. change [KResize] with (repeat KResize 1).
    now rewrite !app_assoc, !kinds_repeat_app. }
  destruct ans as [e|resp]; [right; left|right; right]; eexists;
    (split; [reflexivity|exact K]).
Qed.


(** *** The retry loop, attempt by attempt *)

Lemma run_attempt_exact (past : list Entry) (parts : list Part) (ar : string)
    (n : Z) :
  let ev := imageEvent parts ar in
  let ans := h past _ ev in
  run h (catch (attemptOnce parts ar) (onAttemptError n)) past
  = match attemptFailure ans with
    | None => ([Log ev ans], inr (Break (deliveredData ans) None))
    | Some msg =>
        if retriable msg && (n <? MAX_RETRIES)
        then ([Log ev ans;
               Log (Wait (2000 * n))
                 (h (past ++ [Log ev ans]) unit (Wait (2000 * n)))],
              inr Continue)
        else ([Log ev ans], inr (Break None (Some (userMessage msg))))
    end.
Proof.
  intros ev ans. unfold attemptOnce, await. cbn [bind catch run].
  fold ev. fold ans.
  assert (Herr : forall err past',
            run h (onAttemptError n err) past'
            = if retriable (messageOf err) && (n <? MAX_RETRIES)
              then ([Log (Wait (2000 * n)) (h past' unit (Wait (2000 * n)))],
                    inr Continue)
              else ([], inr (Break None (Some (userMessage (messageOf err)))))).
  { intros err past'. unfold onAttemptError.
    now destruct (retriable (messageOf err) && (n <? MAX_RETRIES)). }
  destruct ans as [err|resp].
  - cbn [bind catch attemptFailure]. rewrite Herr.
    now destruct (retriable (messageOf err) && (n <? MAX_RETRIES)).
  - cbn [bind catch attemptFailure deliveredData]. unfold firstInlineData.
    destruct (JS.truthy (inlineDataOf (findInline (candidate_parts resp)))).
    + reflexivity.
    + cbn [catch]. rewrite Herr.
      now destruct (retriable _ && (n <? MAX_RETRIES)).
Qed.

Lemma delivered_truthy (ans : JS.Error + Response) :
  attemptFailure ans = None ->
  exists d, deliveredData ans = Some d /\ d <> EmptyString.
Proof.
  destruct ans as [e|resp]; [discriminate|].
  cbn [attemptFailure deliveredData]. unfold firstInlineData.
  destruct (inlineDataOf (findInline (candidate_parts resp))) as [[|c d]|];
    cbn; try discriminate. intros _. eexists. split; [reflexivity|discriminate].
Qed.

(** Whatever the counter values: when the last attempt of the loop
    delivers data, the loop leaves exactly that data and no error. *)
Lemma loop_delivery (parts : list Part) (ar : string) (attempts : list Z) :
  forall past,
    let R := run h (retryLoop attempts parts ar) past in
    forall ans,
      last (imageAttempts (fst R)) = Some ans ->
      attemptFailure ans = None ->
      snd R = inr (deliveredData ans, None).
Proof.
  induction attempts as [|n later IH]; intros past R ans; subst R.
  { discriminate. }
  cbn [retryLoop]. rewrite run_bind, run_attempt_exact.
  set (ev := imageEvent parts ar). set (ans0 := h past _ ev).
  destruct (attemptFailure ans0) as [msg|] eqn:Ef.
  - destruct (retriable msg && (n <? MAX_RETRIES)).
    + cbn [fst snd]. specialize (IH (past ++ [Log ev ans0;
          Log (Wait (2000 * n)) (h (past ++ [Log ev ans0]) unit
                                   (Wait (2000 * n)))]) ans).
      cbn zeta in IH.
      destruct (run h (retryLoop later parts ar) _) as [tl out].
      cbn [fst snd app] in *. subst ev.
      rewrite imageAttempts_call, imageAttempts_wait.
      destruct (imageAttempts tl) as [|a l] eqn:El.
      * cbn. intros [= <-] Hf. congruence.
      * rewrite last_cons. intros Hl. apply IH.
        destruct (last (a :: l)) eqn:E; [exact Hl|].
        apply last_None in E. discriminate E.
    + cbn. intros [= <-] Hf. congruence.
  - cbn. intros [= <-] _. reflexivity.
Qed.

Lemma loop_courses (parts : list Part) (ar : string) (tr : list Entry)
    (out : option string * option string) :
  LoopRun parts ar attemptNumbers tr out ->
  In (map kindOf tr) loopShapes
  /\ Forall (eq (parts, mkConfig (Some ar) SAFETY_SETTINGS)) (imageCalls tr).
Proof.
  rewrite attemptNumbers_eq. intros H1.
  inversion H1 as [|? ? a1 ? ? ?|? ? a1 ? ? ?|? ? a1 ? u1 t1 ? ? Hr1 H2];
    subst.
  - split; [now left|repeat constructor].
  - split; [now left|repeat constructor].
  - inversion H2 as [|? ? a2 ? ? ?|? ? a2 ? ? ?|? ? a2 ? u2 t2 ? ? Hr2 H3];
      subst.
    + split; [right; now left|repeat constructor].
    + split; [right; now left|repeat constructor].
    + inversion H3 as [|? ? a3 ? ? ?|? ? a3 ? ? ?|? ? a3 ? u3 t3 ? ? Hr3 H4];
        subst.
      * split; [right; right; now left|repeat constructor].
      * split; [right; right; now left|repeat constructor].
      * apply andb_true_iff in Hr3 as (_ & Hn). discriminate Hn.
Qed.

(** Step 2, whole: it never throws; either the sketch could not be
    prepared and nothing else was done, or the status was reported and
    the loop ran with the prepared sketch and the instruction. *)
Lemma imageStep_runs (sketch : UploadedImage) (onStatusUpdate : bool)
    (masterStylePrompt : option string) (optimizedPrompt : string)
    (past : list Entry) :
  let R := run h (imageStep sketch onStatusUpdate masterStylePrompt
                    optimizedPrompt) past in
  exists img,
    snd R = inr img
    /\ ((map kindOf (fst R) = [KResize] /\ imageCalls (fst R) = []
         /\ imageAttempts (fst R) = [])
        \/ exists d shape,
             In shape loopShapes
             /\ map kindOf (fst R)
                = KResize :: notified onStatusUpdate generating ++ shape
             /\ Forall
                  (eq ([InlineData d (mimeOf (file sketch));
                        Text (imageGenPrompt masterStylePrompt
                                optimizedPrompt)],
                       mkConfig
                         (Some (AspectRatio.getBestAspectRatio
                                  (width sketch) (height sketch)))
                         SAFETY_SETTINGS))
                  (imageCalls (fst R))
             /\ (forall ans,
                    last (imageAttempts (fst R)) = Some ans ->
                    attemptFailure ans = None ->
                    img = (deliveredData ans, None))).
Proof.
  intros R. subst R. unfold imageStep, synthesize.
  rewrite run_catch, run_bind.
  destruct (run_fileToPart h (file sketch) past) as ([e|d] & ->).
  { cbn [run fst snd]. rewrite app_nil_r. eexists. split; [reflexivity|].
    left. now repeat split. }
  cbn [fst snd]. rewrite run_bind.
  set (t0 := [Log (ResizeImage (file sketch)) (inr d)]).
  destruct (notify_kinds onStatusUpdate generating (past ++ t0)) as (Kn & Rn).
  destruct (notify_run h onStatusUpdate generating (past ++ t0))
    as (tn & En & Sn).
  rewrite En in *. cbn [fst snd] in *.
  match goal with
  | |- context [run h (retryLoop attemptNumbers ?parts ?ar) ?p] =>
      destruct (retryLoop_runs h parts ar attemptNumbers p)
        as (tl & out & El & Hloop);
      pose proof (loop_delivery parts ar attemptNumbers p) as Hdel;
      destruct (loop_courses parts ar tl out Hloop) as (Hshape & Hcalls)
  end.
  cbn zeta in Hdel. rewrite El in *. cbn [fst snd] in *.
  exists out. split; [reflexivity|]. right. exists d, (map kindOf tl).
  assert (S0 : Forall silent (t0 ++ tn)).
  { apply Forall_app. split; [|exact Sn].
    constructor; [repeat split|constructor]. }
  split; [exact Hshape|]. split.
  { now rewrite !map_app, Kn. }
  split.
  { rewrite app_assoc, imageCalls_app, (silent_imageCalls _ S0). exact Hcalls. }
  intros ans Hl Hf.
  destruct (silent_prefix (t0 ++ tn) tl S0) as (E1 & _).
  rewrite <- app_assoc in E1. rewrite E1 in Hl.
  specialize (Hdel ans Hl Hf). congruence.
Qed.


Lemma getAIClient_exact (past : list Entry) :
  run h getAIClient past
  = ([Log ReadApiKey (h past _ ReadApiKey)],
     if JS.truthy (Some (h past _ ReadApiKey)) then inr tt
     else inl missingKey).
Proof.
  unfold getAIClient, perform. cbn [bind run].
  now destruct (JS.truthy (Some (h past _ ReadApiKey))).
Qed.

Lemma imageCalls_attempts (tr : list Entry) :
  imageCalls tr = [] -> imageAttempts tr = [].
Proof.
  unfold imageCalls, imageAttempts.
  induction tr as [|e tr IH]; [reflexivity|]. cbn [omap list_omap].
  destruct e as [X ev x]. destruct ev; cbn; try exact IH.
  destruct (String.eqb model imageModel); [discriminate|exact IH].
Qed.

Lemma analysisStep_kinds (sketch : UploadedImage)
    (context : option UploadedImage) (references : list UploadedImage)
    (params : GenerationParams) (userPrompt : string) (past : list Entry) :
  let R := run h (analysisStep sketch context references params userPrompt)
             past in
  let n := inputs context references in
  imageCalls (fst R) = []
  /\ ((exists e k, snd R = inl e /\ (1 <= k <= n)%nat
                   /\ map kindOf (fst R) = repeat KResize k)
      \/ (exists e, snd R = inl e
                    /\ map kindOf (fst R) = repeat KResize n ++ [KText])
      \/ (exists p, snd R = inr p
                    /\ map kindOf (fst R) = repeat KResize n ++ [KText])).
Proof.
  intros R n. subst R n.
  destruct (run_analysisStep h sketch context references params userPrompt
              past) as (tr & r & E & _ & Hreq & _).
  pose proof (analyze_kinds sketch context references params userPrompt past)
    as K. cbn zeta in K.
  unfold analysisStep in *. rewrite run_catch in *.
  destruct (run h (analyze sketch context references params userPrompt) past)
    as [ta [e|p]]; cbn [run fst snd] in *; rewrite ?app_nil_r in *;
    injection E as <- <-; (split; [now apply requests_imageCalls|]).
  - destruct K as [(e' & k & _ & Hk & K)|[(e' & _ & K)|(p & Hp & _)]].
    + left. eauto 6.
    + right. left. eauto.
    + discriminate Hp.
  - destruct K as [(e' & k & He & _)|[(e' & He & _)|(p' & _ & K)]];
      try discriminate He. right. right. eauto.
Qed.

(** A run of the pipeline, whole. *)
Lemma generate_run (sketch : UploadedImage)
    (context : option UploadedImage) (references : list UploadedImage)
    (params : GenerationParams) (userPrompt : string)
    (onStatusUpdate : bool) (masterStylePrompt : option string)
    (past : list Entry) :
  let R := run h (generateArchitecturalPrompt sketch context references
                    params userPrompt onStatusUpdate masterStylePrompt)
             past in
  let key := h past _ ReadApiKey in
  let n := inputs context references in
  let opening := KKey :: notified onStatusUpdate analyzing in
  (key = EmptyString /\ R = ([Log ReadApiKey key], inl missingKey))
  \/ (key <> EmptyString
      /\ exists e k,
           snd R = inl e /\ (1 <= k <= n)%nat
           /\ map kindOf (fst R) = opening ++ repeat KResize k
           /\ imageCalls (fst R) = [])
  \/ (key <> EmptyString
      /\ exists e,
           snd R = inl e
           /\ map kindOf (fst R) = opening ++ repeat KResize n ++ [KText]
           /\ imageCalls (fst R) = [])
  \/ (key <> EmptyString
      /\ exists res n1 n2 body,
           snd R = inr res
           /\ fst R = body ++ [Log DateNow n1; Log DateNow n2]
           /\ id res = JS.toString n1 /\ timestamp res = n2
           /\ ((map kindOf body
                = opening ++ repeat KResize n ++ [KText; KResize]
                /\ imageCalls (fst R) = [])
               \/ exists d shape,
                    In shape loopShapes
                    /\ map kindOf body
                       = opening ++ repeat KResize n ++ [KText; KResize]
                         ++ notified onStatusUpdate generating ++ shape
                    /\ Forall
                         (eq ([InlineData d (mimeOf (file sketch));
                               Text (imageGenPrompt masterStylePrompt
                                       (prompt res))],
                              mkConfig
                                (Some (AspectRatio.getBestAspectRatio
                                         (width sketch) (height sketch)))
                                SAFETY_SETTINGS))
                         (imageCalls (fst R))
                    /\ (forall ans,
                           last (imageAttempts (fst R)) = Some ans ->
                           attemptFailure ans = None ->
                           imageData res = deliveredData ans
                           /\ error res = None))).
Proof.
  intros R key n opening. subst R.
  unfold generateArchitecturalPrompt. rewrite run_bind, getAIClient_exact.
  fold key. destruct key as [|k0 ks] eqn:Ekey.
  { left. now split. }
  right. cbn [JS.truthy fst snd]. rewrite <- Ekey.
  set (t0 := [Log ReadApiKey key]).
  assert (Hkey : key <> EmptyString) by (rewrite Ekey; discriminate).
  clear Ekey. rewrite run_bind.
  destruct (notify_kinds onStatusUpdate analyzing (past ++ t0)) as (K1 & _).
  destruct (notify_run h onStatusUpdate analyzing (past ++ t0))
    as (t1 & E1 & S1).
  rewrite E1 in *. cbn [fst snd] in *. rewrite run_bind.
  assert (S01 : Forall silent (t0 ++ t1)).
  { apply Forall_app. split; [|exact S1].
    constructor; [repeat split|constructor]. }
  assert (K01 : map kindOf (t0 ++ t1) = opening).
  { now rewrite map_app, K1. }
  destruct (analysisStep_kinds sketch context references params userPrompt
              ((past ++ t0) ++ t1)) as (C2 & K2).
  cbn zeta in K2.
  destruct (run h (analysisStep sketch context references params userPrompt)
              ((past ++ t0) ++ t1)) as [t2 r2].
  cbn [fst snd] in *.
  assert (C02 : imageCalls (t0 ++ t1 ++ t2) = []).
  { now rewrite app_assoc, imageCalls_app, (silent_imageCalls _ S01), C2. }
  assert (K02 : map kindOf (t0 ++ t1 ++ t2) = opening ++ map kindOf t2).
  { now rewrite app_assoc, map_app, K01. }
  destruct K2 as [(e & k & -> & Hk & K2)|[(e & -> & K2)|(p & -> & K2)]].
  { left. split; [exact Hkey|]. exists e, k. cbn [fst snd].
    rewrite K02, K2. now repeat split. }
  { right. left. split; [exact Hkey|]. exists e. cbn [fst snd].
    rewrite K02, K2. now repeat split. }
  right. right. split; [exact Hkey|]. cbn [fst snd]. rewrite run_bind.
  destruct (imageStep_runs sketch onStatusUpdate masterStylePrompt p
              (((past ++ t0) ++ t1) ++ t2)) as (img & E3 & H3).
  destruct (run h (imageStep sketch onStatusUpdate masterStylePrompt p)
              (((past ++ t0) ++ t1) ++ t2)) as [t3 r3].
  cbn [fst snd] in *. subst r3. cbn [fst snd bind perform run].
  set (n1 := h _ Z DateNow). set (n2 := h _ Z DateNow).
  set (tail := [Log DateNow n1; Log DateNow n2]).
  assert (St : Forall silent tail) by (repeat constructor).
  eexists _, n1, n2, (t0 ++ t1 ++ t2 ++ t3).
  split; [reflexivity|]. split; [now rewrite <- !app_assoc|].
  split; [reflexivity|]. split; [reflexivity|].
  assert (Ecalls : imageCalls (t0 ++ t1 ++ t2 ++ t3 ++ tail) = imageCalls t3).
  { replace (t0 ++ t1 ++ t2 ++ t3 ++ tail)
      with ((t0 ++ t1 ++ t2) ++ t3 ++ tail) by now rewrite <- !app_assoc.
    rewrite (imageCalls_app (t0 ++ t1 ++ t2)), C02, (imageCalls_app t3).
    now rewrite (silent_imageCalls _ St), app_nil_r. }
  assert (Ekinds : map kindOf (t0 ++ t1 ++ t2 ++ t3)
                   = opening ++ repeat KResize n ++ [KText] ++ map kindOf t3).
  { replace (t0 ++ t1 ++ t2 ++ t3) with ((t0 ++ t1 ++ t2) ++ t3)
      by now rewrite <- !app_assoc.
    now rewrite map_app, K02, K2, <- !app_assoc. }
  assert (Eatt : imageAttempts (t0 ++ t1 ++ t2 ++ t3 ++ tail)
                 = imageAttempts t3).
  { replace (t0 ++ t1 ++ t2 ++ t3 ++ tail)
      with ((t0 ++ t1 ++ t2) ++ t3 ++ tail) by now rewrite <- !app_assoc.
    destruct (observations_app (t0 ++ t1 ++ t2) (t3 ++ tail)) as (-> & _).
    destruct (silent_suffix t3 tail St) as (-> & _).
    now rewrite (imageCalls_attempts _ C02). }
  cbn [fst snd]. rewrite Ecalls, Ekinds, Eatt. cbn [prompt imageData error].
  destruct H3 as [(K3 & C3 & _)|(d & shape & Hs & K3 & C3 & D3)].
  - left. rewrite K3. now split.
  - right. exists d, shape. rewrite K3. repeat split; auto;
      now rewrite (D3 ans).
Qed.

End ProtocolFacts.

Section ProtocolTheorems.

Import Gemini Service.

Variables (h : Handler) (past : list Entry).
Variables (sketch : UploadedImage) (context : option UploadedImage)
  (references : list UploadedImage) (params : GenerationParams)
  (userPrompt : string) (onStatusUpdate : bool)
  (masterStylePrompt : option string).

Let R :=
  run h (generateArchitecturalPrompt sketch context references params
           userPrompt onStatusUpdate masterStylePrompt) past.

(** X10. The order of effects of a pipeline run.  A run that throws did
    one of three things: it read the key and stopped; or it read the key,
    reported the analyzing status if asked to, and resized between one and
    all of the input images (sketch, context, references, in that order);
    or it went on to resize all of them and make the text call.  A run
    that returns did all of that, resized the sketch once more, and then
    either stopped there, or reported the generating status if asked to
    and ran the retry loop in one of its three courses (one attempt; two
    with a 2000 ms wait between; three with waits of 2000 and 4000 ms);
    in both cases it ends by reading the clock twice, the first reading
    giving the result's id in decimal and the second its timestamp. *)
Theorem generate_order_of_effects :
  let kinds := map kindOf (fst R) in
  let n := inputs context references in
  let opening := KKey :: notified onStatusUpdate analyzing in
  (exists e,
      snd R = inl e
      /\ (kinds = [KKey]
          \/ (exists k, (1 <= k <= n)%nat
                        /\ kinds = opening ++ repeat KResize k)
          \/ kinds = opening ++ repeat KResize n ++ [KText]))
  \/ (exists res n1 n2 body,
        snd R = inr res
        /\ fst R = body ++ [Log DateNow n1; Log DateNow n2]
        /\ id res = JS.toString n1 /\ timestamp res = n2
        /\ (map kindOf body = opening ++ repeat KResize n ++ [KText; KResize]
            \/ exists shape,
                 In shape loopShapes
                 /\ map kindOf body
                    = opening ++ repeat KResize n ++ [KText; KResize]
                      ++ notified onStatusUpdate generating ++ shape)).
Proof.
  intros kinds n opening. subst kinds R.
  destruct (generate_run h sketch context references params userPrompt
              onStatusUpdate masterStylePrompt past)
    as [(_ & ->)|[(_ & e & k & E & Hk & K & _)|[(_ & e & E & K & _)
       |(_ & res & n1 & n2 & body & E & Eb & Hid & Hts & H)]]].
  - left. eexists. split; [reflexivity|]. now left.
  - left. exists e. split; [exact E|]. right. left. now exists k.
  - left. exists e. split; [exact E|]. right. now right.
  - right. exists res, n1, n2, body. repeat split; auto.
    destruct H as [(K & _)|(d & shape & Hs & K & _)]; [now left|].
    right. now exists shape.
Qed.


(** X12. When the last image attempt of a run delivers image data, the
    run returns a result whose image is exactly that data, which is not
    empty, and whose error is absent. *)
Theorem delivered_image_is_returned (ans : JS.Error + Response)
    (Hlast : last (imageAttempts (fst R)) = Some ans)
    (Hdelivers : attemptFailure ans = None) :
  exists res d,
    snd R = inr res
    /\ deliveredData ans = Some d /\ d <> EmptyString
    /\ imageData res = Some d /\ error res = None.
Proof.
  subst R. destruct (delivered_truthy ans Hdelivers) as (d & Hd & Hne).
  destruct (generate_run h sketch context references params userPrompt
              onStatusUpdate masterStylePrompt past)
    as [(_ & E)|[(_ & e & k & E & Hk & K & C)|[(_ & e & E & K & C)
       |(_ & res & n1 & n2 & body & E & Eb & Hid & Hts & H)]]].
  - rewrite E in Hlast. discriminate Hlast.
  - rewrite (imageCalls_attempts _ C) in Hlast. discriminate Hlast.
  - rewrite (imageCalls_attempts _ C) in Hlast. discriminate Hlast.
  - destruct H as [(K & C)|(d' & shape & Hs & K & C & D)].
    + rewrite (imageCalls_attempts _ C) in Hlast. discriminate Hlast.
    + destruct (D ans Hlast Hdelivers) as (Hi & He).
      exists res, d. rewrite Hi. now repeat split.
Qed.

(** X13. With no API key configured, each entry point reads the key and
    does nothing else: no status report, no image resize, no model call.
    [generateArchitecturalPrompt], [applyMasterStyle] and
    [editArchitecturalImage] throw the missing-key error, the last two
    without the wrapping they give to later failures;
    [optimizeUserPrompt], given an input that is not blank, returns that
    input. *)
Theorem missing_key_stops_every_entry_point
    (image original mask style edit idea lang : string)
    (Hkey : h past _ ReadApiKey = EmptyString) :
  let stopped := [Log ReadApiKey EmptyString] in
  R = (stopped, inl missingKey)
  /\ run h (applyMasterStyle image original style) past
     = (stopped, inl missingKey)
  /\ run h (editArchitecturalImage image mask edit) past
     = (stopped, inl missingKey)
  /\ (trim idea <> EmptyString ->
      run h (optimizeUserPrompt idea lang) past = (stopped, inr idea)).
Proof.
  intros stopped. subst stopped R. split; [|split; [|split]].
  - destruct (generate_run h sketch context references params userPrompt
                onStatusUpdate masterStylePrompt past)
      as [(_ & E)|[(Hk & _)|[(Hk & _)|(Hk & _)]]]; congruence.
  - unfold applyMasterStyle. now rewrite run_bind, getAIClient_exact, Hkey.
  - unfold editArchitecturalImage.
    now rewrite run_bind, getAIClient_exact, Hkey.
  - intros Hidea. unfold optimizeUserPrompt.
    destruct (trim idea); [congruence|]. cbn [JS.truthy negb].
    now rewrite run_catch, run_bind, getAIClient_exact, Hkey.
Qed.

End ProtocolTheorems.

Section ServiceRuns.

Import Gemini Service.

(** No key is configured. *)
Lemma missing_key_stops_every_entry_point_witness :
  let hd := scripted EmptyString (inl (JS.newError "unused"))
              (fun _ => inl (JS.newError "unused")) in
  exampleRun hd = ([Log ReadApiKey EmptyString], inl missingKey)
  /\ run hd (optimizeUserPrompt " a glass tower " "English") []
     = ([Log ReadApiKey EmptyString], inr " a glass tower "%string).
Proof.
  intros hd.
  destruct (missing_key_stops_every_entry_point hd [] exampleSketch None []
              exampleParams EmptyString true None
              "AAAA" "prompt" "BBBB" "style" "edit" " a glass tower "
              "English" eq_refl) as (Hgen & _ & _ & Hopt).
  split; [exact Hgen|]. apply Hopt. vm_compute. discriminate.
Defined.

(** The first image attempt is turned away as overloaded, the second
    delivers data. *)
Lemma delivered_image_is_returned_witness :
  let answer := mkResponse (Some "A glass tower at dusk."%string) None in
  let busy := inl (JS.mkError "503 Service Unavailable" "{}") in
  let image :=
    inr (mkResponse None
           (Some [mkResponsePart (Some (Some "AAAA"%string)) None])) in
  let R := exampleRun
             (scripted "key" (inr answer)
                (fun n => match n with O => busy | S _ => image end)) in
  imageAttempts (fst R) = [busy; image]
  /\ exists res,
       snd R = inr res /\ imageData res = Some "AAAA"%string
       /\ error res = None.
Proof.
  intros answer busy image R.
  destruct (delivered_image_is_returned
              (scripted "key" (inr answer)
                 (fun n => match n with O => busy | S _ => image end)) []
              exampleSketch None [] exampleParams EmptyString true None
              image) as (res & d & E & Hd & _ & Hi & He);
    [vm_compute; reflexivity|reflexivity|].
  split; [vm_compute; reflexivity|].
  exists res. split; [exact E|]. split; [|exact He].
  rewrite Hi, <- Hd. reflexivity.
Defined.

End ServiceRuns.

(** ** The shape of a returned result *)

Section ResultShape.

Import Gemini Service.

Lemma length_app_string (a b : string) :
  String.length (a ++ b) = (String.length a + String.length b)%nat.
Proof. induction a as [|c a IH]; cbn; [reflexivity|now rewrite IH]. Qed.

Lemma slice0_length (n : nat) :
  forall s, (String.length (JS.slice0 n s) <= n)%nat.
Proof.
  unfold JS.slice0. induction n as [|n IH]; intros [|c s]; cbn; try lia.
  specialize (IH s). lia.
Qed.

Lemma userMessage_bounded (msg : string) :
  (String.length (userMessage msg) <= 122)%nat.
Proof.
  unfold userMessage. destruct (isQuota msg); [vm_compute; lia|].
  destruct (isSafety msg); [vm_compute; lia|].
  rewrite !length_app_string. pose proof (slice0_length 100 msg).
  change (String.length "Generation Failed: ") with 19%nat.
  change (String.length "...") with 3%nat. lia.
Qed.

Variables (h : Handler) (past : list Entry).
Variables (sketch : UploadedImage) (context : option UploadedImage)
  (references : list UploadedImage) (params : GenerationParams)
  (userPrompt : string) (onStatusUpdate : bool)
  (masterStylePrompt : option string).

Let R :=
  run h (generateArchitecturalPrompt sketch context references params
           userPrompt onStatusUpdate masterStylePrompt) past.

(** X22. A result the pipeline returns has a prompt that is not empty;
    image data, when present, that is not empty; an error, when present,
    of at most 122 characters, so that at most the first hundred
    characters of a raw failure message reach the user; and an error
    exactly when it has no image. *)
Theorem returned_result_shape (res : PromptResult)
    (Hres : snd R = inr res) :
  prompt res <> EmptyString
  /\ (forall d, imageData res = Some d -> d <> EmptyString)
  /\ (forall m, error res = Some m -> (String.length m <= 122)%nat)
  /\ (imageData res = None <-> error res <> None).
Proof.
  subst R.
  destruct (generate_cases h sketch context references params userPrompt
              onStatusUpdate masterStylePrompt past)
    as (tr & r & E & Hcase).
  rewrite E in Hres. cbn [snd] in Hres.
  destruct Hcase as [(_ & _ & _ & e & ->)|[(e & _ & _ & _ & ->)
                    |(resp & res' & _ & -> & Hp & _ & Himg)]];
    try discriminate Hres.
  injection Hres as ->. split.
  { rewrite Hp. unfold placeholder.
    destruct (response_text resp) as [[|c s]|]; discriminate. }
  destruct Himg as [(_ & _ & Hd & He)
                   |[(_ & d & ans & Hd & He & Ht & _)
                    |(_ & ans & msg & Hd & He & _)]];
    rewrite Hd, He.
  - split; [intros d Hx; discriminate Hx|]. split.
    + intros m [= <-]. vm_compute. lia.
    + split; [discriminate|reflexivity].
  - split; [intros d' [= <-]; now destruct d|]. split.
    + intros m Hx. discriminate Hx.
    + split; [discriminate|congruence].
  - split; [intros d Hx; discriminate Hx|]. split.
    + intros m [= <-]. apply userMessage_bounded.
    + split; [discriminate|reflexivity].
Qed.

End ResultShape.

Section ResultRuns.

Import Gemini Service.

(** Every image attempt is turned away as overloaded. *)
Lemma returned_result_shape_witness :
  let answer := mkResponse (Some "A glass tower at dusk."%string) None in
  let busy := inl (JS.mkError "503 Service Unavailable" "{}") in
  let R := exampleRun (scripted "key" (inr answer) (fun _ => busy)) in
  let res :=
    mkPromptResult "1700000000000" "A glass tower at dusk." None
      (Some "Generation Failed: 503 Service Unavailable..."%string)
      1700000000000 in
  snd R = inr res
  /\ (imageData res = None <-> error res <> None).
Proof.
  intros answer busy R res.
  assert (Hres : snd R = inr res) by (vm_compute; reflexivity).
  split; [exact Hres|].
  destruct (returned_result_shape
              (scripted "key" (inr answer) (fun _ => busy)) []
              exampleSketch None [] exampleParams EmptyString true None
              res Hres) as (_ & _ & _ & H).
  exact H.
Defined.

End ResultRuns.

(** ** The mask canvas: what every reachable state satisfies *)

Section CanvasInvariants.

Import MaskCanvas.

Variable strokeByte : option (Q * Q) -> Q * Q -> Q -> nat -> Z -> Z.
Variables w h : nat.

Abbreviation step := (MaskCanvas.step strokeByte).

(** A bitmap of the mounted size with a full byte array. *)
Let sized (img : ImageData) : Prop :=
  iw img = w /\ ih img = h /\ wf_image img.

(** What every handler keeps: the canvas and all snapshots have the
    mounted size, the first snapshot is the blank canvas, and outside a
    stroke the reported mask is the export of the canvas, or nothing has
    been committed yet. *)
Let good (st : State) : Prop :=
  sized (canvas st)
  /\ Forall sized (historyRef st)
  /\ historyRef st !! 0%nat = Some (blank w h)
  /\ (isDrawing st = false ->
      maskReady st = Some (exportMask (canvas st))
      \/ (maskReady st = None /\ historyRef st = [blank w h]))
  /\ (forall m, maskReady st = Some m ->
                exists c, sized c /\ m = exportMask c).

Lemma clearRect_blank (a b : nat) : clearRect (blank a b) = blank a b.
Proof.
  unfold clearRect, blank. cbn [iw ih pixels]. f_equal.
  induction (4 * (a * b))%nat as [|n IH]; [reflexivity|].
  cbn [repeat map]. now rewrite IH.
Qed.

Lemma clearRect_sized (c : ImageData) :
  wf_image c -> clearRect c = blank (iw c) (ih c).
Proof.
  unfold wf_image, clearRect, blank. intros <-. f_equal.
  induction (pixels c) as [|x l IH]; [reflexivity|].
  cbn [map length repeat]. now rewrite IH.
Qed.

Lemma sized_fits (c img : ImageData) : sized c -> sized img -> fits c img.
Proof. intros (? & ? & _) (? & ? & ?). repeat split; congruence. Qed.

Lemma good_fits (st : State) :
  good st -> wf_image (canvas st) /\ Forall (fits (canvas st)) (historyRef st).
Proof.
  intros (Hc & Hh & _). split; [apply Hc|].
  eapply Forall_impl; [exact Hh|]. intros img. now apply sized_fits.
Qed.

Lemma good_save (st : State) :
  sized (canvas st) -> Forall sized (historyRef st) ->
  historyRef st !! 0%nat = Some (blank w h) ->
  good (saveHistoryState st).
Proof.
  intros Hc Hh H0. unfold saveHistoryState, getImageData.
  split; [exact Hc|]. cbn [canvas historyRef isDrawing maskReady].
  split; [|split].
  - apply Forall_app. split; [now apply Forall_take|].
    constructor; [exact Hc|constructor].
  - rewrite lookup_app_l.
    + rewrite lookup_take_lt by lia. exact H0.
    + rewrite length_take. apply lookup_lt_Some in H0. lia.
  - split; [intros _; now left|].
    intros m [= <-]. now exists (canvas st).
Qed.

Lemma good_restore (n : nat) (st : State) :
  good st -> good (restore n st).
Proof.
  intros Hg. destruct (good_fits st Hg) as (Hwf & Hfit).
  destruct (historyRef st !! n) as [snap|] eqn:En.
  2:{ unfold restore. now rewrite En. }
  rewrite (restore_spec n snap st Hwf Hfit En).
  destruct Hg as (Hc & Hh & H0 & _).
  split; [exact (Forall_lookup_1 _ _ _ _ Hh En)|].
  cbn [canvas historyRef isDrawing maskReady].
  split; [exact Hh|]. split; [exact H0|].
  split; [intros _; now left|].
  intros m [= <-]. exists snap.
  split; [exact (Forall_lookup_1 _ _ _ _ Hh En)|reflexivity].
Qed.

Lemma good_step (st : State) (e : Event) : good st -> good (step st e).
Proof.
  intros Hg. pose proof Hg as (Hc & Hh & H0 & Hm & Hk).
  assert (Hstroke : forall from to lw,
            sized (lineToStroke strokeByte from to lw (canvas st))).
  { intros from to lw. destruct Hc as (Hw & Hh' & Hwf).
    repeat split; auto. unfold wf_image, lineToStroke in *.
    cbn [iw ih pixels]. now rewrite length_imap. }
  destruct e as [x y r|x y r| | | | |b]; cbn [MaskCanvas.step].
  - (* Down *)
    unfold handleMouseDown, draw, drawBody. cbn [isDrawing canvas pen].
    destruct (isDrawing st); (split; [|split; [|split; [|split]]]);
      cbn [canvas historyRef isDrawing maskReady];
      try apply Hstroke; try exact Hc; try exact Hh; try exact H0;
      try exact Hk; intros Hd; discriminate Hd.
  - (* Move *)
    unfold draw, drawBody. destruct (isDrawing st) eqn:Ed; [|exact Hg].
    (split; [|split; [|split; [|split]]]);
      cbn [canvas historyRef isDrawing maskReady];
      try apply Hstroke; try exact Hh; try exact H0; try exact Hk.
    congruence.
  - (* Up *)
    unfold stopDrawing. destruct (isDrawing st); [|exact Hg].
    now apply good_save.
  - (* Undo *)
    unfold handleUndo. destruct (0 <? historyStep st)%nat; [|exact Hg].
    now apply good_restore.
  - (* Redo *)
    unfold handleRedo.
    destruct (historyStep st <? length (historyRef st) - 1)%nat; [|exact Hg].
    now apply good_restore.
  - (* Clear *)
    unfold clearCanvas. apply good_save; cbn [canvas historyRef]; auto.
    destruct Hc as (Hw & Hh' & Hwf). repeat split; auto.
    now apply clearRect_wf.
  - (* Brush *)
    exact Hg.
Qed.

Lemma good_run (es : list Event) : good (run strokeByte w h es).
Proof.
  unfold run. induction es as [|e es IH] using rev_ind.
  - cbn [fold_left]. unfold mounted, onload, getImageData.
    rewrite clearRect_blank.
    assert (Hb : sized (blank w h)) by (repeat split; apply blank_wf).
    split; [exact Hb|]. cbn [canvas historyRef isDrawing maskReady].
    split; [constructor; [exact Hb|constructor]|]. split; [reflexivity|].
    split; [intros _; now right|]. intros m Hm. discriminate Hm.
  - rewrite fold_left_app. cbn [fold_left]. now apply good_step.
Qed.


(** *** Pixels of an export *)

Lemma pixelAt_four (c : ImageData) (p : nat) :
  wf_image c -> (p < iw c * ih c)%nat ->
  exists r g b a, pixelAt c p = [r; g; b; a].
Proof.
  unfold wf_image, pixelAt. intros Hlen Hp.
  assert (Hd : (4 <= length (drop (4 * p) (pixels c)))%nat)
    by (rewrite length_drop; lia).
  destruct (drop (4 * p) (pixels c)) as [|r [|g [|b [|a rest]]]];
    cbn [length] in Hd; try lia.
  now exists r, g, b, a.
Qed.

Lemma export_length (n : nat) :
  forall l : list Z,
    length l = (4 * n)%nat ->
    length (thresholdLoop (drawOverBlack l)) = (4 * n)%nat.
Proof.
  induction n as [|n IH]; intros l Hlen.
  - destruct l; [reflexivity|discriminate Hlen].
  - destruct l as [|r [|g [|b [|a rest]]]]; cbn [length] in Hlen; try lia.
    change (thresholdLoop (drawOverBlack (r :: g :: b :: a :: rest)))
      with ((if 20 <? premul r a then [255; 255; 255; 255]
             else [premul r a; premul g a; premul b a; 255])
            ++ thresholdLoop (drawOverBlack rest)).
    rewrite length_app, (IH rest) by lia.
    destruct (20 <? premul r a); cbn [length]; lia.
Qed.

Lemma exportMask_wf (c : ImageData) : wf_image c -> wf_image (exportMask c).
Proof. unfold wf_image, exportMask. cbn [iw ih pixels]. apply export_length. Qed.

Lemma export_blank (n : nat) :
  thresholdLoop (drawOverBlack (repeat 0 (4 * n)))
  = concat (repeat black n).
Proof.
  induction n as [|n IH]; [reflexivity|].
  replace (4 * S n)%nat with (4 + 4 * n)%nat by lia.
  cbn [repeat Nat.add concat].
  change (thresholdLoop (drawOverBlack (0 :: 0 :: 0 :: 0 :: repeat 0 (4 * n))))
    with ([0; 0; 0; 255] ++ thresholdLoop (drawOverBlack (repeat 0 (4 * n)))).
  now rewrite IH.
Qed.

(** *** What holds in every state the component can reach *)

(** X14. In every state the component can reach, the canvas and every
    snapshot of the history have the size the canvas was mounted with and
    a full byte array; the first snapshot is the blank canvas; and the
    cursor points into the history. *)
Theorem snapshots_keep_mounted_size (es : list Event) :
  let st := run strokeByte w h es in
  iw (canvas st) = w /\ ih (canvas st) = h /\ wf_image (canvas st)
  /\ Forall (fun img => iw img = w /\ ih img = h /\ wf_image img)
       (historyRef st)
  /\ historyRef st !! 0%nat = Some (blank w h)
  /\ (historyStep st < length (historyRef st))%nat.
Proof.
  intros st. destruct (good_run es) as ((Hw & Hh & Hc) & Hhist & H0 & _).
  pose proof (wf_cursor _ (wf_run strokeByte w h es)) as Hlt.
  repeat split; assumption.
Qed.

Lemma undo_all (k : nat) :
  forall st : State,
    wf st -> good st -> historyStep st = k ->
    let st' := fold_left step (repeat Undo k) st in
    historyStep st' = 0%nat /\ historyRef st' = historyRef st
    /\ ((0 < k)%nat -> canvas st' = blank w h).
Proof.
  induction k as [|k IH]; intros st Hwf Hg Hk st'; subst st'.
  { cbn. repeat split; auto. lia. }
  cbn [repeat fold_left MaskCanvas.step].
  pose proof (wf_cursor st Hwf) as Hlt.
  destruct (good_fits st Hg) as (Hc & Hfit).
  destruct (lookup_lt_is_Some_2 (historyRef st) k ltac:(lia)) as [snap Hs].
  assert (E : handleUndo st
              = mkState snap (pen st) (isDrawing st) (brushSize st) k
                  (historyRef st) (Some (exportMask snap))).
  { unfold handleUndo. rewrite Hk. cbn [Nat.ltb Nat.leb].
    replace (S k - 1)%nat with k by lia. now apply restore_spec. }
  assert (Hwf' : wf (handleUndo st)) by exact (wf_step strokeByte st Undo Hwf).
  assert (Hg' : good (handleUndo st)) by exact (good_step st Undo Hg).
  destruct (IH (handleUndo st) Hwf' Hg') as (E1 & E2 & E3).
  { now rewrite E. }
  split; [exact E1|]. split; [now rewrite E2, E|]. intros _.
  destruct k as [|k]; [|apply E3; lia].
  cbn [repeat fold_left]. rewrite E. cbn [canvas].
  destruct Hg as (_ & _ & H0 & _). congruence.
Qed.

(** X15. From every reachable state, pressing undo as many times as the
    cursor counts leaves the cursor at 0 and the history as it was, after
    which undo does nothing; and the canvas is then blank, provided at
    least one undo took place or no stroke was in progress. *)
Theorem undo_all_returns_blank (es : list Event) :
  let st := run strokeByte w h es in
  let st' := fold_left step (repeat Undo (historyStep st)) st in
  historyStep st' = 0%nat
  /\ historyRef st' = historyRef st
  /\ handleUndo st' = st'
  /\ ((0 < historyStep st)%nat \/ isDrawing st = false ->
      canvas st' = blank w h).
Proof.
  intros st st'.
  pose proof (wf_run strokeByte w h es) as Hwf. fold st in Hwf.
  pose proof (good_run es) as Hg. fold st in Hg.
  destruct (undo_all (historyStep st) st Hwf Hg eq_refl) as (E1 & E2 & E3).
  fold st' in E1, E2, E3.
  split; [exact E1|]. split; [exact E2|]. split.
  { unfold handleUndo. now rewrite E1. }
  intros [Hpos|Hrest]; [now apply E3|].
  destruct (historyStep st) as [|k] eqn:Ek; [|apply E3; lia].
  subst st'. cbn [repeat fold_left].
  destruct Hwf as (_ & _ & snap & Hs & Hshow).
  destruct Hg as (_ & _ & H0 & _). rewrite Ek in Hs.
  rewrite (Hshow Hrest). congruence.
Qed.

(** X16. In every reachable state with no stroke in progress, the mask
    last reported is the export of what the canvas shows; or no mask has
    been reported yet, and then the canvas is blank, the history holds the
    blank snapshot only and the cursor is 0. *)
Theorem mask_in_sync (es : list Event) :
  let st := run strokeByte w h es in
  isDrawing st = false ->
  maskReady st = Some (exportMask (canvas st))
  \/ (maskReady st = None /\ canvas st = blank w h
      /\ historyRef st = [blank w h] /\ historyStep st = 0%nat).
Proof.
  intros st Hrest.
  pose proof (wf_run strokeByte w h es) as Hwf. fold st in Hwf.
  pose proof (wf_cursor st Hwf) as Hlt.
  destruct (good_run es) as (_ & _ & _ & Hm & _). fold st in Hm.
  destruct (Hm Hrest) as [E|(E & Eh)]; [now left|right].
  destruct Hwf as (_ & _ & snap & Hs & Hshow).
  rewrite Eh in Hlt, Hs. cbn [length] in Hlt.
  assert (Hk : historyStep st = 0%nat) by lia.
  rewrite Hk in Hs. cbn in Hs. injection Hs as <-.
  repeat split; auto.
Qed.

(** X17. In every reachable state with no stroke in progress, undo
    followed by redo, when there is something to undo, and redo followed
    by undo, when there is something to redo, give back the state as a
    whole: canvas, cursor, history, reported mask and all else. *)
Theorem undo_redo_round_trip (es : list Event) :
  let st := run strokeByte w h es in
  isDrawing st = false ->
  ((0 < historyStep st)%nat -> handleRedo (handleUndo st) = st)
  /\ ((historyStep st + 1 < length (historyRef st))%nat ->
      handleUndo (handleRedo st) = st).
Proof.
  intros st Hrest.
  pose proof (wf_run strokeByte w h es) as Hwf. fold st in Hwf.
  pose proof (wf_cursor st Hwf) as Hlt.
  pose proof (good_run es) as Hg. fold st in Hg.
  destruct (good_fits st Hg) as (Hc & Hfit).
  destruct Hg as (_ & Hsz & _ & Hm & _).
  destruct Hwf as (_ & _ & snap & Hs & Hshow).
  specialize (Hshow Hrest).
  assert (Hmask : (1 < length (historyRef st))%nat ->
                  maskReady st = Some (exportMask snap)).
  { intros Hlen. destruct (Hm Hrest) as [E|(_ & E)]; [congruence|].
    rewrite E in Hlen. cbn in Hlen. lia. }
  assert (Hback : forall n s0,
            historyRef st !! n = Some s0 ->
            restore (historyStep st)
              (mkState s0 (pen st) (isDrawing st) (brushSize st) n
                 (historyRef st) (Some (exportMask s0)))
            = mkState snap (pen st) (isDrawing st) (brushSize st)
                (historyStep st) (historyRef st) (Some (exportMask snap))).
  { intros n s0 Hs0.
    pose proof (Forall_lookup_1 _ _ _ _ Hsz Hs0) as Hz.
    rewrite (restore_spec _ snap); [reflexivity|apply Hz| |exact Hs].
    cbn [canvas historyRef]. eapply Forall_impl; [exact Hsz|].
    intros img. now apply sized_fits. }
  assert (Hst : (1 < length (historyRef st))%nat ->
                mkState snap (pen st) (isDrawing st) (brushSize st)
                  (historyStep st) (historyRef st) (Some (exportMask snap))
                = st).
  { intros Hlen. rewrite <- (Hmask Hlen), <- Hshow. now destruct st. }
  split.
  - intros Hpos.
    destruct (lookup_lt_is_Some_2 (historyRef st) (historyStep st - 1)
                ltac:(lia)) as [s0 Hs0].
    unfold handleUndo.
    destruct (Nat.ltb_spec 0 (historyStep st)) as [_|]; [|lia].
    rewrite (restore_spec _ s0 st Hc Hfit Hs0).
    unfold handleRedo. cbn [historyStep historyRef].
    destruct (Nat.ltb_spec (historyStep st - 1) (length (historyRef st) - 1))
      as [_|]; [|lia].
    replace (historyStep st - 1 + 1)%nat with (historyStep st) by lia.
    rewrite (Hback _ s0 Hs0). apply Hst. lia.
  - intros Hnext.
    destruct (lookup_lt_is_Some_2 (historyRef st) (historyStep st + 1)
                ltac:(lia)) as [s0 Hs0].
    unfold handleRedo.
    destruct (Nat.ltb_spec (historyStep st) (length (historyRef st) - 1))
      as [_|]; [|lia].
    rewrite (restore_spec _ s0 st Hc Hfit Hs0).
    unfold handleUndo. cbn [historyStep historyRef].
    destruct (Nat.ltb_spec 0 (historyStep st + 1)) as [_|]; [|lia].
    replace (historyStep st + 1 - 1)%nat with (historyStep st) by lia.
    rewrite (Hback _ s0 Hs0). apply Hst. lia.
Qed.

(** X18. Clearing, from any reachable state, leaves a blank canvas of
    the mounted size, reports a mask of that size in which every pixel is
    opaque black, moves the cursor one step on and makes the blank canvas
    the last snapshot. *)
Theorem clear_reports_black_mask (es : list Event) :
  let st := run strokeByte w h es in
  let st' := step st Clear in
  canvas st' = blank w h
  /\ maskReady st'
     = Some (mkImageData w h (concat (repeat black (w * h))))
  /\ historyStep st' = S (historyStep st)
  /\ last (historyRef st') = Some (blank w h).
Proof.
  intros st st'. subst st'. cbn [MaskCanvas.step].
  pose proof (wf_run strokeByte w h es) as Hwf. fold st in Hwf.
  pose proof (wf_cursor st Hwf) as Hlt.
  destruct (good_run es) as ((Hw & Hh & Hc) & _). fold st in Hw, Hh, Hc.
  unfold clearCanvas, saveHistoryState, getImageData.
  cbn [canvas historyRef historyStep maskReady].
  rewrite (clearRect_sized _ Hc), Hw, Hh.
  split; [reflexivity|]. split; [|split].
  - unfold exportMask, blank. cbn [iw ih pixels]. now rewrite export_blank.
  - rewrite length_app, length_take. cbn [length]. lia.
  - now rewrite last_snoc.
Qed.

(** X19. Every mask the component reports has the mounted size and a
    full byte array, and each of its pixels is opaque and either pure
    white or has a red byte of at most 20. *)
Theorem reported_mask_pixels (es : list Event) (m : ImageData) :
  let st := run strokeByte w h es in
  maskReady st = Some m ->
  iw m = w /\ ih m = h /\ wf_image m
  /\ forall p, (p < w * h)%nat ->
       exists r g b,
         pixelAt m p = [r; g; b; 255]
         /\ ((r = 255 /\ g = 255 /\ b = 255) \/ r <= 20).
Proof.
  intros st Hm.
  destruct (good_run es) as (_ & _ & _ & _ & Hk). fold st in Hk.
  destruct (Hk m Hm) as (c & (Hw & Hh & Hc) & ->).
  split; [exact Hw|]. split; [exact Hh|].
  split; [now apply exportMask_wf|]. intros p Hp.
  rewrite exportMask_pixelAt by (rewrite ?Hw, ?Hh; assumption).
  destruct (pixelAt_four c p Hc) as (r & g & b & a & ->);
    [now rewrite Hw, Hh|].
  rewrite export_pixel.
  destruct (Z.ltb_spec 20 (premul r a)).
  - exists 255, 255, 255. split; [reflexivity|]. now left.
  - exists (premul r a), (premul g a), (premul b a).
    split; [reflexivity|]. now right.
Qed.

End CanvasInvariants.

Section CanvasRuns.

Import MaskCanvas.

(** One stroke on a canvas of one pixel, with a brush that paints every
    byte 200. *)
Lemma mask_in_sync_witness :
  let paint := fun (_ : option (Q * Q)) (_ : Q * Q) (_ : Q) (_ : nat)
                   (_ : Z) => 200 in
  let r := mkRect 0 0 1 1 in
  let st := run paint 1 1 [Down 0 0 r; Move 0 0 r; Up] in
  isDrawing st = false
  /\ maskReady st = Some (exportMask (canvas st))
  /\ canvas st = mkImageData 1 1 [200; 200; 200; 200].
Proof.
  intros paint r st. split; [reflexivity|].
  destruct (mask_in_sync paint 1 1 [Down 0 0 r; Move 0 0 r; Up] eq_refl)
    as [E|(E & _)].
  - split; [exact E|]. vm_compute. reflexivity.
  - vm_compute in E. discriminate E.
Defined.

Lemma undo_redo_round_trip_witness :
  let paint := fun (_ : option (Q * Q)) (_ : Q * Q) (_ : Q) (_ : nat)
                   (_ : Z) => 200 in
  let r := mkRect 0 0 1 1 in
  let st := run paint 1 1 [Down 0 0 r; Move 0 0 r; Up] in
  isDrawing st = false /\ (0 < historyStep st)%nat
  /\ handleRedo (handleUndo st) = st.
Proof.
  intros paint r st. split; [reflexivity|].
  assert (Hpos : (0 < historyStep st)%nat) by (vm_compute; lia).
  split; [exact Hpos|].
  destruct (undo_redo_round_trip paint 1 1 [Down 0 0 r; Move 0 0 r; Up]
              eq_refl) as (Hback & _).
  exact (Hback Hpos).
Defined.

Lemma reported_mask_pixels_witness :
  let paint := fun (_ : option (Q * Q)) (_ : Q * Q) (_ : Q) (_ : nat)
                   (_ : Z) => 200 in
  let r := mkRect 0 0 1 1 in
  let st := run paint 1 1 [Down 0 0 r; Move 0 0 r; Up] in
  maskReady st = Some (mkImageData 1 1 white)
  /\ wf_image (mkImageData 1 1 white).
Proof.
  intros paint r st.
  assert (Hm : maskReady st = Some (mkImageData 1 1 white))
    by (vm_compute; reflexivity).
  split; [exact Hm|].
  destruct (reported_mask_pixels paint 1 1 [Down 0 0 r; Move 0 0 r; Up]
              (mkImageData 1 1 white) Hm) as (_ & _ & Hwf & _).
  exact Hwf.
Defined.

End CanvasRuns.

(** ** The application state: failures and the styled slot *)

Section AppFacts.

Variable errorSketch errorGeneric : string.

Abbreviation step := (App.step errorSketch errorGeneric).
Abbreviation run := (App.run errorSketch errorGeneric).

(** What the styled slot holds, when it holds something. *)
Let styledOk (st : App.State) : Prop :=
  forall r, App.styledResult st = Some r ->
    (exists d, imageData r = Some d) /\ error r = None
    /\ exists p, prompt r = ("[MASTER FILTER APPLIED] " ++ p)%string.

Lemma styled_step (st : App.State) (c : App.Completion) :
  App.status st = App.idle -> styledOk st ->
  App.status (step st c) = App.idle /\ styledOk (step st c).
Proof.
  intros Hidle Hok.
  assert (Hgen : forall o,
            App.status (App.handleGenerate errorSketch errorGeneric o st)
            = App.idle
            /\ styledOk (App.handleGenerate errorSketch errorGeneric o st)).
  { intros o. unfold App.handleGenerate.
    destruct (App.sketch st); [now split|].
    destruct o; (split; [reflexivity|]); intros r Hr; discriminate Hr. }
  destruct c as [o|src sp g s n1 n2|o n1 n2|imgs|t|]; cbn [App.step];
    try (now split).
  - apply Hgen.
  - unfold App.handleMasterStyleClick.
    destruct (match src with
              | App.original => App.result st
              | App.styled => App.styledResult st
              end) as [r0|]; [|apply Hgen].
    destruct (JS.truthy (imageData r0)); [|apply Hgen].
    destruct s as [e|img]; (split; [reflexivity|]); [exact Hok|].
    intros r [= <-]. cbn. repeat split; eauto.
  - unfold App.handleApplyEdit.
    destruct (App.editingTarget st) as [[|]|] eqn:Et;
      match goal with
      | |- context [match ?x with Some _ => _ | None => st end] =>
          destruct x as [tgt|] eqn:Etgt; [|now split]
      end;
      (destruct (JS.truthy (imageData tgt)); [|now split]);
      destruct o as [e|img]; (split; [reflexivity|]);
      intros r Hr; cbn [App.styledResult] in Hr;
      first [ apply Hok; congruence
            | injection Hr as <-; cbn;
              destruct (Hok tgt ltac:(congruence)) as (_ & He & Hp);
              repeat split; eauto ].
Qed.

(** X20. Whatever completions have run, the status is idle, and a
    result in the styled slot has image data, no error, and a prompt that
    begins with the marker [MASTER FILTER APPLIED]. *)
Theorem styled_slot_invariant (cs : list App.Completion) :
  let st := run cs in
  App.status st = App.idle
  /\ forall r, App.styledResult st = Some r ->
       (exists d, imageData r = Some d) /\ error r = None
       /\ exists p, prompt r = ("[MASTER FILTER APPLIED] " ++ p)%string.
Proof.
  unfold App.run. induction cs as [|c cs IH] using rev_ind.
  - split; [reflexivity|]. intros r Hr. discriminate Hr.
  - rewrite fold_left_app. cbn [fold_left].
    destruct IH as (Hidle & Hok). now apply styled_step.
Qed.

(** X21. A failed call never changes the history.  A failed edit leaves
    both result slots and the editing target as they were.  A failed style
    application to a source that has an image leaves both result slots as
    they were and shows the generic error.  A failed generation with a
    sketch present has cleared both result slots and shows the generic
    error; without a sketch, generation only shows the sketch error. *)
Theorem failed_action_keeps_history (st : App.State) (e e' : JS.Error)
    (source : App.Target) (stylePrompt : string) (now_id now_ts : Z) :
  let afterGenerate :=
    App.handleGenerate errorSketch errorGeneric (inl e) st in
  let afterStyle :=
    App.handleMasterStyleClick errorSketch errorGeneric source stylePrompt
      (inl e) (inl e') now_id now_ts st in
  let afterEdit :=
    App.handleApplyEdit errorGeneric (inl e) now_id now_ts st in
  App.history afterGenerate = App.history st
  /\ App.history afterStyle = App.history st
  /\ App.history afterEdit = App.history st
  /\ App.result afterEdit = App.result st
  /\ App.styledResult afterEdit = App.styledResult st
  /\ App.editingTarget afterEdit = App.editingTarget st
  /\ (App.sketch st <> [] ->
      App.result afterGenerate = None
      /\ App.styledResult afterGenerate = None
      /\ App.error_banner afterGenerate = Some errorGeneric)
  /\ (App.sketch st = [] -> afterGenerate
      = App.mkState [] (App.result st) (App.styledResult st)
          (App.history st) (App.status st) (Some errorSketch)
          (App.editingTarget st))
  /\ (forall src,
         match source with
         | App.original => App.result st
         | App.styled => App.styledResult st
         end = Some src ->
         JS.truthy (imageData src) = true ->
         App.result afterStyle = App.result st
         /\ App.styledResult afterStyle = App.styledResult st
         /\ App.error_banner afterStyle = Some errorGeneric).
Proof.
  intros afterGenerate afterStyle afterEdit.
  assert (Hg : App.history afterGenerate = App.history st).
  { subst afterGenerate. unfold App.handleGenerate.
    now destruct (App.sketch st). }
  split; [exact Hg|]. split; [|split; [|split; [|split; [|split]]]].
  - subst afterStyle. unfold App.handleMasterStyleClick.
    destruct (match source with
              | App.original => App.result st
              | App.styled => App.styledResult st
              end) as [r0|]; [|exact Hg].
    destruct (JS.truthy (imageData r0)); [reflexivity|exact Hg].
  - subst afterEdit. unfold App.handleApplyEdit.
    destruct (match App.editingTarget st with
              | Some App.original => App.result st
              | _ => App.styledResult st
              end) as [tgt|]; [|reflexivity].
    now destruct (JS.truthy (imageData tgt)).
  - subst afterEdit. unfold App.handleApplyEdit.
    destruct (match App.editingTarget st with
              | Some App.original => App.result st
              | _ => App.styledResult st
              end) as [tgt|]; [|reflexivity].
    now destruct (JS.truthy (imageData tgt)).
  - subst afterEdit. unfold App.handleApplyEdit.
    destruct (match App.editingTarget st with
              | Some App.original => App.result st
              | _ => App.styledResult st
              end) as [tgt|]; [|reflexivity].
    now destruct (JS.truthy (imageData tgt)).
  - subst afterEdit. unfold App.handleApplyEdit.
    destruct (match App.editingTarget st with
              | Some App.original => App.result st
              | _ => App.styledResult st
              end) as [tgt|]; [|reflexivity].
    now destruct (JS.truthy (imageData tgt)).
  - split; [|split].
    + intros Hs. subst afterGenerate. unfold App.handleGenerate.
      destruct (App.sketch st); [congruence|now repeat split].
    + intros Hs. subst afterGenerate. unfold App.handleGenerate.
      now rewrite Hs.
    + intros src Hsrc Himg. subst afterStyle.
      unfold App.handleMasterStyleClick. rewrite Hsrc, Himg.
      now repeat split.
Qed.

End AppFacts.
